(** * iotdev: the MQTT-to-CouchDB archiver and the historicizer

    A shallow embedding of [archiver/archiver.py] (the ingestion bridge:
    [on_message] and the insert loop of [couchdb_client]) and of
    [archiver/dsarchiver.py] (the historicizer: [get_first_doc],
    [get_measures_slot], [accuracy], [process_series], [archive_series]),
    followed by the properties of the specification stated over them.
    Beside them: [verify_params] and [load_iot_config] of
    [archiver/configuration.py], [on_connect], [connect_db] and
    [couchdb_client], the loop of [main] for one topic, and
    [datetime_formatted] of [mqtt_clock/mqtt_clock.py], with the
    properties the code shows for them.

    Conventions.
    - A Python [dict] with string keys is a [gmap string _].
    - A Python exception is a constructor of [exn]; a statement that may
      raise produces a [result].
    - JSON numbers are rationals ([Q]): every finite float and every int is
      one, and Python compares them exactly.  Arithmetic on them is exact
      here; the rounding of binary64 is not modelled.  The one irrational
      operation, the square root, is taken in [R]. *)

From Stdlib Require Import ZArith NArith QArith Qabs QMicromega Qreals Reals Lra Lia.
From Stdlib Require Import String Ascii List OrderedTypeEx Sorted.
From stdpp Require Import gmap strings.
Import ListNotations.

Open Scope string_scope.

(** ** Exceptions and results *)

Inductive exn : Set :=
| JSONDecodeError    (* json.loads on a malformed payload *)
| AttributeError     (* .keys() on a value that is not a dict *)
| TypeError          (* str + non-str, None + timedelta *)
| IndexError         (* pop from an empty list *)
| ValueError         (* min() / max() of an empty sequence *)
| StatisticsError    (* statistics.mean / statistics.stdev *)
| NegativeStdDev     (* uncertainties.ufloat with a negative error *)
| KeyError           (* d[k] on a missing key *)
| ZeroDivisionError
| HTTPError.         (* any failure of a CouchDB request *)

Inductive result (A : Type) : Type :=
| Return (a : A)
| Raise (e : exn).

Arguments Return {A} a.
Arguments Raise {A} e.

(** ** Log records (loguru) *)

Inductive level : Set := DEBUG | INFO | WARNING | ERROR.

(** A log record keeps the level and the format string; arguments that are
    plain strings are kept in [log_arg], the rendering of other arguments
    (dicts, exception info) is left out. *)
Record log_record : Set := LogRecord {
  log_level : level;
  log_format : string;
  log_arg : option string
}.

(** ** A state-and-exception monad

    [M S A] is a computation over a store [S] that returns an [A] or raises;
    the store reached when the exception is raised is kept, as in Python. *)

Definition M (S A : Type) : Type := S -> result A * S.

Definition ret {S A} (a : A) : M S A := fun s => (Return a, s).

Definition raise {S A} (e : exn) : M S A := fun s => (Raise e, s).

Definition bind {S A B} (m : M S A) (k : A -> M S B) : M S B :=
  fun s => match m s with
           | (Return a, s') => k a s'
           | (Raise e, s') => (Raise e, s')
           end.

(** [try: m except: ...] with a bare [except]: the exception becomes a value. *)
Definition attempt {S A} (m : M S A) : M S (A + exn) :=
  fun s => match m s with
           | (Return a, s') => (Return (inl a), s')
           | (Raise e, s') => (Return (inr e), s')
           end.

Definition lift {S A} (r : result A) : M S A := fun s => (r, s).

Definition gets {S A} (f : S -> A) : M S A := fun s => (Return (f s), s).

Definition modify {S} (f : S -> S) : M S unit := fun s => (Return tt, f s).

Declare Scope monad_scope.
Delimit Scope monad_scope with monad.

Notation "x <- c1 ;; c2" := (bind c1 (fun x => c2))
  (at level 100, c1 at next level, right associativity) : monad_scope.
Notation "c1 ;; c2" := (bind c1 (fun _ => c2))
  (at level 100, right associativity) : monad_scope.

(** [for x in l: body x] *)
Fixpoint for_each {S A} (l : list A) (body : A -> M S unit) : M S unit :=
  match l with
  | [] => ret tt
  | x :: l' => bind (body x) (fun _ => for_each l' body)
  end.

(** ** Python string helpers used by the sources *)

(** [s.rfind(c)] for a one-character needle: the highest index of [c] in
    [s], or -1. *)
Fixpoint rfind_from (c : ascii) (s : string) (i : Z) (found : Z) : Z :=
  match s with
  | EmptyString => found
  | String a r => rfind_from c r (i + 1) (if Ascii.eqb a c then i else found)
  end.

Definition rfind (c : ascii) (s : string) : Z := rfind_from c s 0 (-1).

(** [s[:k]]: a negative [k] counts from the end. *)
Definition slice_to (s : string) (k : Z) : string :=
  let n := Z.of_nat (String.length s) in
  let stop := if (k <? 0)%Z then Z.max 0 (k + n) else Z.min k n in
  substring 0 (Z.to_nat stop) s.

(** Decimal rendering of [n] on exactly [w] digits (["%0wd"]). *)
Fixpoint digits (w : nat) (n : N) : string :=
  match w with
  | O => ""
  | S w' => digits w' (n / 10) +:+ String (ascii_of_N (48 + n mod 10)) ""
  end.

(** * The ingestion bridge, [archiver/archiver.py] *)

Module Archiver.

(** [datetime.datetime]: the fields of a naive local time. *)
Record datetime : Set := {
  year : N; month : N; day : N;
  hour : N; minute : N; second : N;
  microsecond : N
}.

(** [datetime.isoformat(timespec='seconds')]: YYYY-MM-DDTHH:MM:SS. *)
Definition isoformat_seconds (d : datetime) : string :=
  digits 4 (year d) +:+ "-" +:+ digits 2 (month d) +:+ "-" +:+ digits 2 (day d)
  +:+ "T" +:+ digits 2 (hour d) +:+ ":" +:+ digits 2 (minute d)
  +:+ ":" +:+ digits 2 (second d).

(** [datetime.isoformat()]: the fraction is printed only when the
    microsecond field is not 0. *)
Definition isoformat (d : datetime) : string :=
  if (microsecond d =? 0)%N then isoformat_seconds d
  else isoformat_seconds d +:+ "." +:+ digits 6 (microsecond d).

(** Values of a parsed JSON document. *)
#[warnings="-register-all"]
Inductive json : Type :=
| JNull
| JBool (b : bool)
| JNum (q : Q)
| JStr (s : string)
| JArr (l : list json)
| JObj (fields : list (string * json)).

(** The dict Python builds from a JSON object: a later duplicate key
    overrides an earlier one. *)
Definition dict_of_object (fields : list (string * json)) : gmap string json :=
  list_to_map (rev fields).

(** [MQTTInterface.queue]: a plain list of (topic, data) pairs. *)
Definition entry : Type := string * gmap string json.

(** [userdata.queue.insert(0, tdata)] *)
Definition queue_insert0 (tdata : entry) (queue : list entry) : list entry :=
  tdata :: queue.

(** [queue.pop()]: removes and returns the last item, IndexError when empty. *)
Definition queue_pop (queue : list entry) : result entry * list entry :=
  match rev queue with
  | [] => (Raise IndexError, queue)
  | x :: r => (Return x, rev r)
  end.

(** One pass of the insert loop of [couchdb_client] over the queue:
    [try: topic, data = queue.pop() except: time.sleep(5); continue].
    Nothing is drained from an empty queue. *)
Definition drain (queue : list entry) : option entry * list entry :=
  match queue_pop queue with
  | (Return x, queue') => (Some x, queue')
  | (Raise _, queue') => (None, queue')
  end.

(** The shared [MQTTInterface] as the callback sees it, and the log. *)
Record mqtt_state : Type := {
  queue : list entry;
  mqtt_log : list log_record
}.

Definition mqtt_logger (l : level) (fmt : string) (arg : option string)
  : M mqtt_state unit :=
  modify (fun s => {| queue := queue s;
                      mqtt_log := mqtt_log s ++ [LogRecord l fmt arg] |}).

(** [json.loads(msg.payload)], taken by its outcome. *)
Definition json_loads (payload : option json) : result json :=
  match payload with
  | None => Raise JSONDecodeError
  | Some j => Return j
  end.

(** [on_message(client, userdata, msg)]; [now] is what
    [datetime.datetime.now()] returns during the call. *)
Definition on_message (now : datetime) (topic : string) (payload : option json)
  : M mqtt_state unit :=
  (parsed <- lift (json_loads payload) ;;
   data <- match parsed with
           | JObj fields => ret (dict_of_object fields)
           | _ => raise AttributeError
           end ;;
   let data :=
     match data !! "timestamp" with
     | Some _ => data
     | None =>
         let now := isoformat now in
         let dot := rfind "." now in
         <["timestamp" := JStr (slice_to now dot)]> data
     end in
   id <- match data !! "timestamp" with
         | Some (JStr ts) => ret (topic +:+ "@" +:+ ts)
         | _ => raise TypeError
         end ;;
   let data := <["_id" := JStr id]> data in
   let data := <["topic" := JStr topic]> data in
   let tdata := (topic, data) in
   modify (fun s => {| queue := queue_insert0 tdata (queue s);
                       mqtt_log := mqtt_log s |}) ;;
   mqtt_logger DEBUG "InQueue: {}" None)%monad.

(** The queue after the callback pushed the entries [es], first to last. *)
Definition enqueue_all (es : list entry) (queue : list entry) : list entry :=
  fold_left (fun q e => queue_insert0 e q) es queue.

(** [n] passes of the insert loop: the entries handed to the store, in the
    order they were popped, and the queue left. *)
Fixpoint drain_n (n : nat) (queue : list entry) : list entry * list entry :=
  match n with
  | O => ([], queue)
  | S n' =>
      match drain queue with
      | (Some x, queue') =>
          let '(xs, queue'') := drain_n n' queue' in (x :: xs, queue'')
      | (None, queue') => drain_n n' queue'
      end
  end.

(** The two sides of the hand-off, interleaved in any order. *)
Inductive queue_op : Type :=
| Enqueue (e : entry)
| Drain.

Fixpoint run_ops (ops : list queue_op) (queue : list entry)
  : list entry * list entry :=
  match ops with
  | [] => ([], queue)
  | Enqueue e :: ops' => run_ops ops' (queue_insert0 e queue)
  | Drain :: ops' =>
      match drain queue with
      | (Some x, queue') =>
          let '(xs, queue'') := run_ops ops' queue' in (x :: xs, queue'')
      | (None, queue') => run_ops ops' queue'
      end
  end.

Definition enqueued (ops : list queue_op) : list entry :=
  flat_map (fun o => match o with Enqueue e => [e] | Drain => [] end) ops.

End Archiver.

(** * The historicizer, [archiver/dsarchiver.py] *)

Module DsArchiver.

(** ** Data

    A [datetime] is a count of microseconds (the resolution of Python's
    [datetime]); the ISO-8601 text stored in a document is its
    serialisation, and texts of one format sort as the instants do. *)

Definition datetime : Set := Z.

(** [datetime.timedelta(minutes=m)] *)
Definition timedelta_minutes (m : Z) : Z := (m * 60000000)%Z.

(** One band [{range_inf, range_sup, value}] of a device document. *)
Record accuracy_band : Set := {
  range_inf : Q;
  range_sup : Q;
  band_value : Q
}.

(** The entry of a device document under one measure type; the key
    ['accuracy'] may be absent. *)
Record measure_profile : Set := {
  accuracy_ranges : option (list accuracy_band)
}.

(** A device document: a dict keyed by measure type. *)
Abbreviation device_doc := (gmap string measure_profile).

(** A sample document of the realtime database. *)
Record sample : Set := {
  doc_id : string;
  doc_rev : string;
  doc_topic : string;
  doc_dev : string;
  doc_type : string;
  doc_timestamp : datetime;
  doc_value : Q
}.

(** A row of the view [sequences/by_topic_no_reduce]. *)
Record row : Set := {
  row_id : string;
  row_key : string * datetime;
  row_value : Q;
  row_doc : sample
}.

(** [{'value': ..., 'timestamp': ...}]; both start out as Python's
    None / empty string, rendered [None]. *)
Record extreme : Set := {
  ex_value : option Q;
  ex_timestamp : option datetime
}.

Record time_slot : Set := {
  slot_start : datetime;
  slot_end : datetime
}.

(** The consolidated document [meas] built by [process_series].  The
    identifier [topic + "@" + timestamp] is kept as its two parts. *)
Record measure : Set := {
  m_id : string * datetime;
  m_topic : string;
  m_measure_type : option string;
  m_value_type : string;
  m_timestamp : datetime;
  m_value : Q;
  m_accuracy : R;
  m_min_value : extreme;
  m_max_value : extreme;
  m_time_slot : time_slot
}.

(** ** The three databases, the clock and the log

    [faults] scripts the outcome of the coming CouchDB requests, one
    boolean per request: [true] makes the request raise.  Past the end of
    the script no request fails. *)
Record state : Type := {
  db_realtime : list sample;
  db_datastore : list measure;
  db_devices : gmap string device_doc;
  faults : list bool;
  clock : datetime;
  log : list log_record
}.

Definition set_realtime (f : list sample -> list sample) (s : state) : state :=
  {| db_realtime := f (db_realtime s); db_datastore := db_datastore s;
     db_devices := db_devices s; faults := faults s; clock := clock s;
     log := log s |}.

Definition set_datastore (f : list measure -> list measure) (s : state) : state :=
  {| db_realtime := db_realtime s; db_datastore := f (db_datastore s);
     db_devices := db_devices s; faults := faults s; clock := clock s;
     log := log s |}.

Definition set_faults (fs : list bool) (s : state) : state :=
  {| db_realtime := db_realtime s; db_datastore := db_datastore s;
     db_devices := db_devices s; faults := fs; clock := clock s;
     log := log s |}.

Definition add_log (r : log_record) (s : state) : state :=
  {| db_realtime := db_realtime s; db_datastore := db_datastore s;
     db_devices := db_devices s; faults := faults s; clock := clock s;
     log := log s ++ [r] |}.

Definition logger (l : level) (fmt : string) (arg : option string)
  : M state unit :=
  modify (add_log (LogRecord l fmt arg)).

(** A CouchDB request: it fails when the script says so. *)
Definition request {A} (op : M state A) : M state A :=
  fun s => match faults s with
           | true :: fs => (Raise HTTPError, set_faults fs s)
           | false :: fs => op (set_faults fs s)
           | [] => op s
           end.

(** ** The view [sequences/by_topic_no_reduce] *)

(** A key given to the view: [[topic]] or [[topic, timestamp]]. *)
Definition view_key : Set := string * option datetime.

(** Collation of two keys: by topic, then the shorter array first, then by
    timestamp. *)
Definition collate (a b : view_key) : comparison :=
  match String.compare (fst a) (fst b) with
  | Eq => match snd a, snd b with
          | None, None => Eq
          | None, Some _ => Lt
          | Some _, None => Gt
          | Some x, Some y => Z.compare x y
          end
  | c => c
  end.

Definition key_leb (a b : view_key) : bool :=
  match collate a b with Gt => false | _ => true end.

Definition key_of_row (r : row) : view_key :=
  (fst (row_key r), Some (snd (row_key r))).

(** Modelled from the spec: the map function of the view is stored in the
    database, not in the repository; it emits the composite key
    [[topic, timestamp]] and the measured value for each sample. *)
Definition row_of (d : sample) : row :=
  {| row_id := doc_id d;
     row_key := (doc_topic d, doc_timestamp d);
     row_value := doc_value d;
     row_doc := d |}.

(** Rows are ordered by key, rows of equal key by document id. *)
Definition row_leb (a b : row) : bool :=
  match collate (key_of_row a) (key_of_row b) with
  | Lt => true
  | Gt => false
  | Eq => String.leb (row_id a) (row_id b)
  end.

Fixpoint insert_row (r : row) (l : list row) : list row :=
  match l with
  | [] => [r]
  | x :: l' => if row_leb r x then r :: l else x :: insert_row r l'
  end.

Definition index_rows (docs : list sample) : list row :=
  fold_right (fun d acc => insert_row (row_of d) acc) [] docs.

Record view_params : Set := {
  startkey : view_key;
  endkey : option view_key;
  limit : option nat
}.

(** The JSON body of a view response; ['rows'] may be missing. *)
Record view_response : Set := {
  rows : option (list row)
}.

Definition in_key_range (p : view_params) (r : row) : bool :=
  key_leb (startkey p) (key_of_row r)
  && match endkey p with
     | Some e => key_leb (key_of_row r) e
     | None => true
     end.

(** Modelled from the spec: the query operation of the store returns the
    rows of the index whose key lies between [startkey] and [endkey]
    (both inclusive, either may be absent), at most [limit] of them. *)
Definition select_rows (p : view_params) (docs : list sample) : list row :=
  let selected := List.filter (in_key_range p) (index_rows docs) in
  match limit p with
  | Some n => firstn n selected
  | None => selected
  end.

(** [dbs.db_realtime.ddoc_view('sequences', 'by_topic_no_reduce', params)]
    followed by [.json()]. *)
Definition ddoc_view (p : view_params) : M state view_response :=
  request (fun s => (Return {| rows := Some (select_rows p (db_realtime s)) |}, s)).

(** [dbs.db_devices.get(device)]: a missing document raises. *)
Definition devices_get (name : string) : M state device_doc :=
  request (fun s => match db_devices s !! name with
                    | Some d => (Return d, s)
                    | None => (Raise HTTPError, s)
                    end).

(** [dbs.db_realtime.get(id)]: a missing document raises. *)
Definition realtime_get (id : string) : M state sample :=
  request (fun s => match List.find (fun d => String.eqb (doc_id d) id) (db_realtime s) with
                    | Some d => (Return d, s)
                    | None => (Raise HTTPError, s)
                    end).

(** [dbs.db_realtime.remove(id, rev)]: the document must exist at that
    revision. *)
Definition realtime_remove (id rev : string) : M state unit :=
  request (fun s =>
    if existsb (fun d => String.eqb (doc_id d) id && String.eqb (doc_rev d) rev)
               (db_realtime s)
    then (Return tt,
          set_realtime (List.filter (fun d => negb (String.eqb (doc_id d) id))) s)
    else (Raise HTTPError, s)).

(** [dbs.db_datastore.insert(doc)]: an identifier already in the store
    is a conflict and raises. *)
Definition datastore_insert (m : measure) : M state unit :=
  request (fun s =>
    if existsb (fun m' => bool_decide (m_id m' = m_id m)) (db_datastore s)
    then (Raise HTTPError, s)
    else (Return tt, set_datastore (fun l => (l ++ [m])%list) s)).

(** ** [get_first_doc] *)

Definition get_first_doc (topic : string) : M state (option datetime) :=
  (let params := {| startkey := (topic, None); endkey := None; limit := Some 1%nat |} in
   result <- attempt (ddoc_view params) ;;
   match result with
   | inr _ =>
       logger ERROR "Failed query for {} doc" (Some topic) ;;
       logger ERROR "Reason: {}" None ;;
       ret None
   | inl data =>
       logger DEBUG "data= {}" None ;;
       match rows data with
       | None =>
           logger ERROR "Result has no rows" None ;;
           ret None
       | Some [] =>
           logger ERROR "Result has no rows" None ;;
           ret None
       | Some (doc :: _) =>
           let key := row_key doc in
           let timestamp := snd key in
           ret (Some timestamp)
       end
   end)%monad.

(** ** [get_measures_slot]

    [start_timestamp + datetime.timedelta(...)] raises TypeError when
    [get_first_doc] returned None. *)

Definition get_measures_slot (topic : string) (timespan : Z)
  : M state (option (list row)) :=
  (start_timestamp <- get_first_doc topic ;;
   end_timestamp <- match start_timestamp with
                    | Some start => ret (start + timedelta_minutes timespan)%Z
                    | None => raise TypeError
                    end ;;
   now <- gets clock ;;
   if (end_timestamp >=? now)%Z then
     logger WARNING "Less than {} min of measures available" None ;;
     logger DEBUG "end= '{}', now= '{}'" None ;;
     ret None
   else
     let params := {| startkey := (topic, start_timestamp);
                      endkey := Some (topic, Some end_timestamp);
                      limit := None |} in
     result <- attempt (ddoc_view params) ;;
     match result with
     | inr _ =>
         logger ERROR "Failed query for {} doc" (Some topic) ;;
         logger ERROR "Reason: {}" None ;;
         ret None
     | inl data =>
         match rows data with
         | None =>
             logger ERROR "Result has no rows" None ;;
             ret None
         | Some rows =>
             logger INFO "Query returned '{}' rows" None ;;
             ret (Some rows)
         end
     end)%monad.

(** ** [get_device] *)

Definition get_device (device : string) : M state (option device_doc) :=
  (result <- attempt (devices_get device) ;;
   match result with
   | inr _ =>
       logger ERROR "Device GET '{}'" (Some device) ;;
       logger ERROR "Reason: '{}'" None ;;
       ret None
   | inl dev_data => ret (Some dev_data)
   end)%monad.

(** ** [accuracy]

    The value returned, and apart from it the record the function logs:
    [device[value_type]['accuracy']] raising is caught and logged. *)

Definition in_band (reading : Q) (a : accuracy_band) : bool :=
  Qle_bool (range_inf a) reading && Qlt_bool reading (range_sup a).

(** The [for accuracy in accuracies] loop; [break] at the first band that
    holds the reading. *)
Fixpoint accuracy_scan (accuracies : list accuracy_band) (reading : Q)
  (accuracy_value : Q) : Q :=
  match accuracies with
  | [] => accuracy_value
  | a :: rest =>
      if in_band reading a then band_value a
      else accuracy_scan rest reading accuracy_value
  end.

Definition accuracy (device : option device_doc) (value_type : string) (reading : Q) : Q :=
  match device with
  | None => 0
  | Some device =>
      match device !! value_type ≫= accuracy_ranges with
      | None => 0
      | Some accuracies => accuracy_scan accuracies reading 0
      end
  end.

Definition accuracy_log (device : option device_doc) (value_type : string)
  : list log_record :=
  match device with
  | None => []
  | Some device =>
      match device !! value_type ≫= accuracy_ranges with
      | None => [LogRecord ERROR "Device has no accuracy data for '{}' values"
                           (Some value_type)]
      | Some _ => []
      end
  end.

(** ** The [statistics] module *)

Local Open Scope Q_scope.

Definition Qsum (l : list Q) : Q := fold_left Qplus l 0.

Definition Qlen {A} (l : list A) : Q := inject_Z (Z.of_nat (List.length l)).

(** [statistics.mean] *)
Definition mean (data : list Q) : result Q :=
  match data with
  | [] => Raise StatisticsError
  | _ => Return (Qsum data / Qlen data)
  end.

(** The sample variance, sum of squared deviations over n - 1. *)
Definition variance_of (data : list Q) : Q :=
  let xbar := Qsum data / Qlen data in
  Qsum (List.map (fun x => (x - xbar) * (x - xbar)) data) / (Qlen data - 1).

(** [statistics.stdev]: at least two data points are required. *)
Definition stdev (data : list Q) : result R :=
  match data with
  | [] | [_] => Raise StatisticsError
  | _ => Return (sqrt (Q2R (variance_of data)))
  end.

(** ** The [uncertainties] package

    A number with uncertainty is an affine function of independent
    variables: its nominal value and, for each variable, the derivative
    with respect to it and the standard deviation of the variable.  Each
    [ufloat] call makes a new variable. *)

Record AffineScalarFunc : Set := {
  nominal_value : Q;
  linear_combo : list (Q * Q)
}.

(** [uncert.ufloat(value, std_dev)]: a negative error is refused. *)
Definition ufloat (value std_dev : Q) : result AffineScalarFunc :=
  if Qlt_bool std_dev 0 then Raise NegativeStdDev
  else Return {| nominal_value := value; linear_combo := [(1, std_dev)] |}.

Definition uconst (c : Q) : AffineScalarFunc :=
  {| nominal_value := c; linear_combo := [] |}.

Definition uadd (a b : AffineScalarFunc) : AffineScalarFunc :=
  {| nominal_value := nominal_value a + nominal_value b;
     linear_combo := (linear_combo a ++ linear_combo b)%list |}.

(** [sum(uvalues)], which starts from the int 0. *)
Definition usum (l : list AffineScalarFunc) : AffineScalarFunc :=
  fold_left uadd l (uconst 0).

(** Division by an int. *)
Definition udiv (a : AffineScalarFunc) (n : Z) : result AffineScalarFunc :=
  if (n =? 0)%Z then Raise ZeroDivisionError
  else Return {| nominal_value := nominal_value a / inject_Z n;
                 linear_combo := List.map (fun ds => (fst ds / inject_Z n, snd ds))
                                          (linear_combo a) |}.

(** The error each variable contributes: |derivative * std_dev|. *)
Definition error_components (a : AffineScalarFunc) : list Q :=
  List.map (fun ds => if Qeq_bool (snd ds) 0 then 0 else Qabs (fst ds * snd ds))
           (linear_combo a).

(** [a.std_dev]: the square root of the sum of the squared components. *)
Definition std_dev (a : AffineScalarFunc) : R :=
  sqrt (Q2R (Qsum (List.map (fun delta => delta * delta) (error_components a)))).

(** ** [process_series] *)

(** The variables the first loop of [process_series] updates. *)
Record series_vars : Type := {
  devices : gmap string (option device_doc);
  min_value : option Q;
  min_timestamp : option datetime;
  max_value : option Q;
  max_timestamp : option datetime;
  data_values : list (Q * string);
  measure_type : option string;
  timestamps : list datetime
}.

Definition series_init : series_vars :=
  {| devices := ∅;
     min_value := None; min_timestamp := None;
     max_value := None; max_timestamp := None;
     data_values := [];
     measure_type := None;
     timestamps := [] |}.

(** The body of [for dt in data]. *)
Definition series_step (dt : row) (v : series_vars) : M state series_vars :=
  (let value := row_value dt in
   let doc := row_doc dt in
   let device := doc_dev doc in
   devices' <- match devices v !! device with
               | Some _ => ret (devices v)
               | None => d <- get_device device ;;
                         ret (<[device := d]> (devices v))
               end ;;
   let measure_type' := match measure_type v with
                        | None => Some (doc_type doc)
                        | Some t => Some t
                        end in
   let data_val := (value, device) in
   let timestamp := doc_timestamp doc in
   let '(min_value', min_timestamp') :=
     match min_value v with
     | None => (Some value, Some timestamp)
     | Some m => if Qlt_bool value m then (Some value, Some timestamp)
                 else (min_value v, min_timestamp v)
     end in
   let '(max_value', max_timestamp') :=
     match max_value v with
     | None => (Some value, Some timestamp)
     | Some m => if Qlt_bool m value then (Some value, Some timestamp)
                 else (max_value v, max_timestamp v)
     end in
   ret {| devices := devices';
          min_value := min_value'; min_timestamp := min_timestamp';
          max_value := max_value'; max_timestamp := max_timestamp';
          data_values := (data_values v ++ [data_val])%list;
          measure_type := measure_type';
          timestamps := (timestamps v ++ [timestamp])%list |})%monad.

Fixpoint series_loop (data : list row) (v : series_vars) : M state series_vars :=
  match data with
  | [] => ret v
  | dt :: rest => bind (series_step dt v) (series_loop rest)
  end.

(** [min(timestamps)] and [max(timestamps)]: ValueError on an empty list. *)
Definition py_min (l : list datetime) : result datetime :=
  match l with
  | [] => Raise ValueError
  | x :: r => Return (fold_left Z.min r x)
  end.

Definition py_max (l : list datetime) : result datetime :=
  match l with
  | [] => Raise ValueError
  | x :: r => Return (fold_left Z.max r x)
  end.

(** [accuracy(dev, measure_type, value)] at its call site, with the record
    it logs.  [measure_type] is still None only if the first loop never
    ran; None is a key of no device document. *)
Definition accuracy_call (dev : option device_doc) (mtype : option string)
  (value : Q) : M state Q :=
  match mtype with
  | Some t =>
      bind (for_each (accuracy_log dev t) (fun r => modify (add_log r)))
           (fun _ => ret (accuracy dev t value))
  | None =>
      match dev with
      | None => ret 0
      | Some _ =>
          bind (logger ERROR "Device has no accuracy data for '{}' values" None)
               (fun _ => ret 0)
      end
  end.

(** The body of [for value, device in data_values]. *)
Definition uvalue_step (v : series_vars) (vd : Q * string)
  : M state AffineScalarFunc :=
  (let '(value, device) := vd in
   dev <- match devices v !! device with
          | Some d => ret d
          | None => raise KeyError
          end ;;
   acc <- accuracy_call dev (measure_type v) value ;;
   lift (ufloat value acc))%monad.

Fixpoint uvalues_loop (v : series_vars) (l : list (Q * string))
  (uvalues : list AffineScalarFunc) : M state (list AffineScalarFunc) :=
  match l with
  | [] => ret uvalues
  | vd :: rest =>
      bind (uvalue_step v vd)
           (fun u => uvalues_loop v rest (uvalues ++ [u])%list)
  end.

(** [timedelta / 2.0]: to the nearest microsecond, ties to even. *)
Definition half_timedelta (d : Z) : Z :=
  let q := (d / 2)%Z in
  if (d mod 2 =? 0)%Z then q else if Z.even q then q else (q + 1)%Z.

(** [isoformat(timespec='seconds')]: the microseconds are dropped. *)
Definition truncate_seconds (t : datetime) : datetime :=
  (t / 1000000 * 1000000)%Z.

Definition process_series (topic : string) (data : list row) : M state measure :=
  (v <- series_loop data series_init ;;
   first_timestamp <- lift (py_min (timestamps v)) ;;
   last_timestamp <- lift (py_max (timestamps v)) ;;
   logger DEBUG "Slot boundaries: {} -- {}" None ;;
   logger DEBUG "Min value= {} at {}" None ;;
   logger DEBUG "Max value= {} at {}" None ;;
   let values := List.map fst (data_values v) in
   mean_value <- lift (mean values) ;;
   stddev_value <- lift (stdev values) ;;
   logger DEBUG "Mean value= {}+/-{}" None ;;
   uvalues <- uvalues_loop v (data_values v) [] ;;
   uaverage <- lift (udiv (usum uvalues) (Z.of_nat (List.length uvalues))) ;;
   logger DEBUG "Mean value with accuracy: {}" None ;;
   let avg_timestamp :=
     (half_timedelta (last_timestamp - first_timestamp) + first_timestamp)%Z in
   let measure_timestamp := truncate_seconds avg_timestamp in
   let meas :=
     {| m_topic := topic;
        m_measure_type := measure_type v;
        m_value_type := "average";
        m_timestamp := measure_timestamp;
        m_value := nominal_value uaverage;
        m_accuracy := std_dev uaverage;
        m_min_value := {| ex_value := min_value v; ex_timestamp := min_timestamp v |};
        m_max_value := {| ex_value := max_value v; ex_timestamp := max_timestamp v |};
        m_time_slot := {| slot_start := first_timestamp; slot_end := last_timestamp |};
        m_id := (topic, measure_timestamp) |} in
   logger DEBUG "Calculated measure: {}" None ;;
   ret meas)%monad.

(** ** [archive_series] *)

(** The body of [for row in rows] that deletes the measures. *)
Definition delete_row (r : row) : M state unit :=
  (let id := row_id r in
   result <- realtime_get id ;;
   realtime_remove (doc_id result) (doc_rev result))%monad.

Definition archive_series (topic : string) (timespan : Z) : M state bool :=
  (rows <- get_measures_slot topic timespan ;;
   match rows with
   | None =>
       logger WARNING "No data to move" None ;;
       ret false
   | Some rows =>
       calc_meas <- process_series topic rows ;;
       logger INFO "Moving {} timeslot {}" None ;;
       inserted <- attempt (datastore_insert calc_meas) ;;
       match inserted with
       | inr _ =>
           logger ERROR "Failed inserting measure: '{}'" None ;;
           logger ERROR "Reason: {}" None
       | inl _ => ret tt
       end ;;
       logger DEBUG "Inserted measure: '{}'" None ;;
       for_each rows delete_row ;;
       ret true
   end)%monad.

End DsArchiver.

(** * Configuration reading, [archiver/configuration.py]

    [verify_params] and [load_iot_config] are the same statements in
    [archiver/archiver.py] and in [archiver/configuration.py]. *)

Module Configuration.

(** A loaded INI file as [configparser] presents it: section name to
    option name to value. *)
Abbreviation ini_file := (gmap string (gmap string string)).

(** [s.strip(" ")] *)
Fixpoint lstrip_spaces (s : string) : string :=
  match s with
  | String c r => if Ascii.eqb c " " then lstrip_spaces r else s
  | EmptyString => EmptyString
  end.

Fixpoint rstrip_spaces (s : string) : string :=
  match s with
  | EmptyString => EmptyString
  | String c r =>
      match rstrip_spaces r with
      | EmptyString => if Ascii.eqb c " " then EmptyString else String c EmptyString
      | r' => String c r'
      end
  end.

Definition strip_spaces (s : string) : string := rstrip_spaces (lstrip_spaces s).

(** [os.path.join(a, b)] of [posixpath]. *)
Definition path_join (a b : string) : string :=
  match b with
  | String "/" _ => b
  | _ =>
      match a with
      | EmptyString => b
      | _ => if String.eqb (substring (String.length a - 1) 1 a) "/"
             then a +:+ b else a +:+ "/" +:+ b
      end
  end.

(** A row of the topic file as [csv.DictReader] yields it with the field
    names topic, where, h, x, y, unit, notes: the first field, and the
    others (None for a field the line does not have). *)
Record csv_row : Type := {
  csv_topic : string;
  csv_rest : gmap string (option string)
}.

(** A file that exists: the rows it holds, or None when opening or
    reading it raises. *)
Abbreviation file_content := (option (list csv_row)).

(** What the configuration functions see of the process: the files, the
    HOME variable and the log. *)
Record conf_env : Type := {
  files : gmap string file_content;
  home : string;
  conf_log : list log_record
}.

Definition conf_logger (l : level) (fmt : string) (arg : option string)
  : M conf_env unit :=
  modify (fun e => {| files := files e; home := home e;
                      conf_log := (conf_log e ++ [LogRecord l fmt arg])%list |}).

Section VerifyParams.

(** [verify_params] only logs: it is written once for any state with a
    logger. *)
Context {S : Type}.
Variable logger : level -> string -> option string -> M S unit.

(** The body of [for param in req_params]. *)
Definition check_param (log_config : gmap string string)
  (all_params_ok : bool) (param : string) : M S bool :=
  match log_config !! param with
  | None =>
      bind (logger ERROR "Parameter '{}' not available" (Some param))
           (fun _ => ret false)
  | Some _ => ret all_params_ok
  end.

Fixpoint check_params (log_config : gmap string string)
  (req_params : list string) (all_params_ok : bool) : M S bool :=
  match req_params with
  | [] => ret all_params_ok
  | param :: rest =>
      bind (check_param log_config all_params_ok param)
           (check_params log_config rest)
  end.

Definition verify_params (ini : ini_file) (section : string)
  (req_params : list string) : M S bool :=
  match ini !! section with
  | None =>
      bind (logger ERROR "[{}] section not available" (Some section))
           (fun _ => ret false)
  | Some log_config =>
      bind (logger INFO "Verifying section '{}'" (Some section)) (fun _ =>
      bind (check_params log_config req_params true) (fun all_params_ok =>
      if negb all_params_ok then ret false else ret true))
  end.

End VerifyParams.

(** The dict [topics]: topic to the rest of its row, in insertion order. *)
Definition topics_dict : Type := list (string * gmap string (option string)).

Definition has_topic (topic : string) (topics : topics_dict) : bool :=
  existsb (fun kv => String.eqb (fst kv) topic) topics.

(** The body of [for row in reader]; [topic[0]] raises IndexError on an
    empty string. *)
Definition catalog_step (topics : topics_dict) (row : csv_row)
  : M conf_env topics_dict :=
  let topic := strip_spaces (csv_topic row) in
  if String.eqb topic "topic" then
    bind (conf_logger DEBUG "Skipping header" None) (fun _ => ret topics)
  else
    match topic with
    | EmptyString => raise IndexError
    | String c _ =>
        if Ascii.eqb c "#" then
          bind (conf_logger WARNING "Line {} commented out" None)
               (fun _ => ret topics)
        else if has_topic topic topics then
          bind (conf_logger WARNING
                  "Topic '{}' at line {} skipped beacause duplicated " (Some topic))
               (fun _ => ret topics)
        else
          bind (conf_logger DEBUG "Topic '{}' added: {}" (Some topic))
               (fun _ => ret (topics ++ [(topic, csv_rest row)])%list)
    end.

Fixpoint catalog_loop (rows : list csv_row) (topics : topics_dict)
  : M conf_env topics_dict :=
  match rows with
  | [] => ret topics
  | row :: rest => bind (catalog_step topics row) (catalog_loop rest)
  end.

(** [open(filepath)] and the rows of the reader. *)
Definition open_rows (filepath : string) : M conf_env (list csv_row) :=
  fun e => match files e !! filepath with
           | Some (Some rows) => (Return rows, e)
           | _ => (Raise ValueError, e)
           end.

Definition load_iot_config (ini : ini_file) : M conf_env topics_dict :=
  (ok <- verify_params conf_logger ini "iot" ["file"; "filedir"] ;;
   if negb ok then ret [] else
   iot_params <- match ini !! "iot" with
                 | Some p => ret p
                 | None => raise KeyError
                 end ;;
   filedir <- match iot_params !! "filedir" with
              | Some d => ret d
              | None => raise KeyError
              end ;;
   let filedir := strip_spaces filedir in
   filedir <- (if String.eqb filedir "" then gets home else ret filedir) ;;
   conf_logger INFO "IoT configuration dir: '{}'" (Some filedir) ;;
   iot_config <- match iot_params !! "file" with
                 | Some f => ret f
                 | None => raise KeyError
                 end ;;
   let filepath := path_join filedir iot_config in
   conf_logger INFO "IoT config filepath: '{}'" (Some filepath) ;;
   present <- gets (fun e => match files e !! filepath with
                             | Some _ => true
                             | None => false
                             end) ;;
   if negb present then
     conf_logger ERROR "IoT config file '{}' not found" (Some filepath) ;;
     ret []
   else
     loaded <- attempt (rows <- open_rows filepath ;; catalog_loop rows []) ;;
     match loaded with
     | inr _ =>
         conf_logger ERROR "Loading IoT topics failed" None ;;
         conf_logger ERROR "Reason: {}" None ;;
         ret []
     | inl topics => ret topics
     end)%monad.

End Configuration.

(** * The broker session and the insert loop, [archiver/archiver.py] *)

Module Bridge.

Import Archiver.

(** The MQTT client as [on_connect] uses it: the topics subscribed so
    far, the outcome of the coming [subscribe] calls ([true] raises) and
    the log. *)
Record client_state : Type := {
  subscriptions : list string;
  subscribe_faults : list bool;
  client_log : list log_record
}.

Definition client_logger (l : level) (fmt : string) (arg : option string)
  : M client_state unit :=
  modify (fun c => {| subscriptions := subscriptions c;
                      subscribe_faults := subscribe_faults c;
                      client_log := (client_log c ++ [LogRecord l fmt arg])%list |}).

(** [client.subscribe(topic)] *)
Definition subscribe (topic : string) : M client_state unit :=
  fun c => match subscribe_faults c with
           | true :: fs =>
               (Raise ValueError,
                {| subscriptions := subscriptions c; subscribe_faults := fs;
                   client_log := client_log c |})
           | fs =>
               (Return tt,
                {| subscriptions := (subscriptions c ++ [topic])%list;
                   subscribe_faults := tl fs;
                   client_log := client_log c |})
           end.

(** [on_connect(client, userdata, flags, rc)]; [topics] are the keys of
    [userdata.topics] in their order. *)
Definition on_connect (topics : list string) : M client_state unit :=
  (client_logger INFO "Connected with result code " None ;;
   for_each topics (fun topic =>
     subscribed <- attempt (subscribe topic) ;;
     match subscribed with
     | inl _ => client_logger INFO "Topic '{}' subscribed" (Some topic)
     | inr _ => client_logger ERROR "Topic '{}' subscription failed" (Some topic)
     end))%monad.

(** The insert loop of [couchdb_client]: the queue it shares with the
    callback, the documents of the database, the outcome of the coming
    inserts and the log. *)
Record loop_state : Type := {
  pending : list entry;
  couchdb : list (gmap string json);
  insert_faults : list bool;
  loop_log : list log_record
}.

Definition loop_logger (l : level) (fmt : string) (arg : option string)
  : M loop_state unit :=
  modify (fun c => {| pending := pending c; couchdb := couchdb c;
                      insert_faults := insert_faults c;
                      loop_log := (loop_log c ++ [LogRecord l fmt arg])%list |}).

(** [mqtt_iface.queue.pop()] on the shared queue. *)
Definition pop_pending : M loop_state entry :=
  fun c => let '(r, q) := queue_pop (pending c) in
           (r, {| pending := q; couchdb := couchdb c;
                  insert_faults := insert_faults c; loop_log := loop_log c |}).

Definition same_id (a b : gmap string json) : bool :=
  match a !! "_id", b !! "_id" with
  | Some (JStr x), Some (JStr y) => String.eqb x y
  | _, _ => false
  end.

(** [couchdb.insert(data)]: it raises when the request fails or when a
    document with the same [_id] is in the database. *)
Definition couchdb_insert (data : gmap string json) : M loop_state unit :=
  fun c =>
    let c' fs := {| pending := pending c; couchdb := couchdb c;
                    insert_faults := fs; loop_log := loop_log c |} in
    match insert_faults c with
    | true :: fs => (Raise HTTPError, c' fs)
    | fs =>
        if existsb (same_id data) (couchdb c)
        then (Raise HTTPError, c' (tl fs))
        else (Return tt,
              {| pending := pending c; couchdb := (couchdb c ++ [data])%list;
                 insert_faults := tl fs; loop_log := loop_log c |})
    end.

(** One pass of [while True]; [time.sleep(5)] changes nothing here. *)
Definition insert_pass : M loop_state unit :=
  (popped <- attempt pop_pending ;;
   match popped with
   | inr _ => ret tt
   | inl (topic, data) =>
       inserted <- attempt (couchdb_insert data) ;;
       match inserted with
       | inl _ => loop_logger DEBUG "Insert ok: '{}'" None
       | inr _ =>
           loop_logger ERROR "Failed insert: '{}'" None ;;
           loop_logger ERROR "Reason: '{}'" None
       end
   end)%monad.

Fixpoint insert_loop (passes : nat) : M loop_state unit :=
  match passes with
  | O => ret tt
  | S n => bind insert_pass (fun _ => insert_loop n)
  end.

End Bridge.

(** * Connecting the databases, [archiver/dsarchiver.py] *)

Module Connection.

Import Configuration.

(** A [relax.CouchDB] object, by the URL it was made for. *)
Record couchdb_handle : Set := { couchdb_url : string }.

(** The dataclass [Databases] before the connections are used. *)
Record Databases : Set := {
  db_realtime : option couchdb_handle;
  db_datastore : option couchdb_handle;
  db_devices : option couchdb_handle
}.

(** The outcome of the coming [relax.CouchDB(...)] calls and the log. *)
Record conn_state : Type := {
  connect_faults : list bool;
  conn_log : list log_record
}.

Definition conn_logger (l : level) (fmt : string) (arg : option string)
  : M conn_state unit :=
  modify (fun c => {| connect_faults := connect_faults c;
                      conn_log := (conn_log c ++ [LogRecord l fmt arg])%list |}).

(** [couchdb_params[key]] *)
Definition param (couchdb_params : gmap string string) (key : string)
  : M conn_state string :=
  match couchdb_params !! key with
  | Some v => ret v
  | None => raise KeyError
  end.

(** ["http://{}:{}@{}:{}/{}".format(user, passwd, server, port, dbname)] *)
Definition format_url (user passwd server port dbname : string) : string :=
  "http://" +:+ user +:+ ":" +:+ passwd +:+ "@" +:+ server +:+ ":" +:+ port
  +:+ "/" +:+ dbname.

(** [relax.CouchDB(couchdburl, create_db=False)] *)
Definition open_couchdb (url : string) : M conn_state couchdb_handle :=
  fun c => match connect_faults c with
           | true :: fs => (Raise HTTPError, {| connect_faults := fs; conn_log := conn_log c |})
           | fs => (Return {| couchdb_url := url |},
                    {| connect_faults := tl fs; conn_log := conn_log c |})
           end.

Definition connect_db (ini : ini_file) (db_name : string)
  : M conn_state (option couchdb_handle) :=
  (ok <- verify_params conn_logger ini "couchdb"
           ["server"; "port"; "user"; "password";
            "readfom_dbname"; "writeto_dbname"; "devices_dbname"] ;;
   if negb ok then ret None else
   couchdb_params <- match ini !! "couchdb" with
                     | Some p => ret p
                     | None => raise KeyError
                     end ;;
   user <- param couchdb_params "user" ;;
   passwd <- param couchdb_params "password" ;;
   server <- param couchdb_params "server" ;;
   port <- param couchdb_params "port" ;;
   dbname <- param couchdb_params db_name ;;
   let couchdburl := format_url user passwd server port dbname in
   connected <- attempt (db <- open_couchdb couchdburl ;;
                         conn_logger DEBUG "CouchDB url: '{}'" (Some couchdburl) ;;
                         ret db) ;;
   match connected with
   | inr _ =>
       conn_logger ERROR "Failed CouchDB connection to: '{}'" (Some couchdburl) ;;
       conn_logger ERROR "Reason: '{}'" None ;;
       ret None
   | inl db =>
       conn_logger INFO "Connected CouchDB url: '{}'" (Some couchdburl) ;;
       ret (Some db)
   end)%monad.

(** [couchdb_client(ini)] of the historicizer. *)
Definition couchdb_client (ini : ini_file) : M conn_state (option Databases) :=
  (realtime <- connect_db ini "realtime_dbname" ;;
   datastore <- connect_db ini "datastore_dbname" ;;
   devices <- connect_db ini "devices_dbname" ;;
   match realtime, datastore, devices with
   | Some _, Some _, Some _ =>
       conn_logger INFO "Connetcted to dbs: '{}', '{}', '{}'" None ;;
       ret (Some {| db_realtime := realtime; db_datastore := datastore;
                    db_devices := devices |})
   | _, _, _ =>
       conn_logger ERROR "Incomplete connection to databases" None ;;
       ret None
   end)%monad.

End Connection.

(** * The main loop of the historicizer, [archiver/dsarchiver.py] *)

Module Historicizer.

Import DsArchiver.

(** The loop of [main] for one topic,
    [while data_available: data_available = archive_series(dbs, topic, 10)].
    [passes] bounds the number of passes; the answer tells whether the
    loop has ended within them. *)
Fixpoint archive_topic (passes : nat) (topic : string) : M state bool :=
  match passes with
  | O => ret false
  | S n =>
      bind (archive_series topic 10) (fun data_available =>
        if data_available then archive_topic n topic else ret true)
  end.

End Historicizer.

(** * The clock, [mqtt_clock/mqtt_clock.py] *)

Module MqttClock.

Import Archiver.

(** The date YYYY-MM-DD and the time HH:MM:SS of [str(datetime)]. *)
Definition date_text (d : datetime) : string :=
  digits 4 (year d) +:+ "-" +:+ digits 2 (month d) +:+ "-" +:+ digits 2 (day d).

Definition time_text (d : datetime) : string :=
  digits 2 (hour d) +:+ ":" +:+ digits 2 (minute d) +:+ ":" +:+ digits 2 (second d).

(** [str(datetime.datetime.now())]: [isoformat(sep=' ')]; the fraction is
    printed only when the microsecond field is not 0. *)
Definition str_datetime (d : datetime) : string :=
  if (microsecond d =? 0)%N then date_text d +:+ " " +:+ time_text d
  else (date_text d +:+ " " +:+ time_text d) +:+ "." +:+ digits 6 (microsecond d).

(** [s.split(sep)] for a one-character separator. *)
Fixpoint split (sep : ascii) (s : string) : list string :=
  match s with
  | EmptyString => [EmptyString]
  | String c r =>
      if Ascii.eqb c sep then EmptyString :: split sep r
      else match split sep r with
           | h :: t => String c h :: t
           | [] => [String c EmptyString]
           end
  end.

(** [datetime_formatted()]; unpacking a list of the wrong length raises
    ValueError. *)
Definition datetime_formatted (now : datetime) : result string :=
  let data_str := str_datetime now in
  let dotpos := rfind "." data_str in
  match split " " (slice_to data_str dotpos) with
  | [sdate; stime] =>
      match split "-" sdate with
      | [Y; M; D] =>
          Return (D +:+ "-" +:+ M +:+ "-" +:+ Y +:+ String "010" "" +:+ stime)
      | _ => Raise ValueError
      end
  | _ => Raise ValueError
  end.

End MqttClock.

(** * Vocabulary of the properties *)

(** [c] does not occur in [s]. *)
Fixpoint absent (c : ascii) (s : string) : bool :=
  match s with
  | EmptyString => true
  | String a r => negb (Ascii.eqb a c) && absent c r
  end.

(** The records of level ERROR in a log. *)
Definition errors (l : list log_record) : list log_record :=
  List.filter (fun r => match log_level r with ERROR => true | _ => false end) l.

(** A three-way comparison that is antisymmetric, answers Eq on equal
    arguments only, and whose Lt is transitive. *)
Definition lawful {T} (cmp : T -> T -> comparison) : Prop :=
  (forall x y, cmp x y = CompOpp (cmp y x))
  /\ (forall x y, cmp x y = Eq -> x = y)
  /\ (forall x y z, cmp x y = Lt -> cmp y z = Lt -> cmp x z = Lt).

(** Lexicographic comparison of pairs. *)
Definition lex {A B} (cmpA : A -> A -> comparison) (cmpB : B -> B -> comparison)
  (p q : A * B) : comparison :=
  match cmpA (fst p) (fst q) with
  | Eq => cmpB (snd p) (snd q)
  | c => c
  end.

Definition leb_of {T} (cmp : T -> T -> comparison) (x y : T) : bool :=
  match cmp x y with Gt => false | _ => true end.

(** The device of the accuracy example: bands [0,10) -> 0.1 and
    [10,20) -> 0.2 for temperatures. *)
Definition example_bands : list DsArchiver.accuracy_band :=
  [ {| DsArchiver.range_inf := 0; DsArchiver.range_sup := 10;
       DsArchiver.band_value := 1 # 10 |};
    {| DsArchiver.range_inf := 10; DsArchiver.range_sup := 20;
       DsArchiver.band_value := 2 # 10 |} ].

Definition example_device : DsArchiver.device_doc :=
  {[ "temperature" := {| DsArchiver.accuracy_ranges := Some example_bands |} ]}.

(** Vocabulary for the historicizer. *)

Module DsArchiverSpec.

Import DsArchiver.

Local Open Scope Q_scope.

(** Two states that differ at most in the fault script and the log. *)
Definition same_stores (s s' : state) : Prop :=
  db_realtime s' = db_realtime s
  /\ db_datastore s' = db_datastore s
  /\ db_devices s' = db_devices s
  /\ clock s' = clock s.

(** No band of any device document states a negative error. *)
Definition profile_nonneg (p : measure_profile) : bool :=
  match accuracy_ranges p with
  | None => true
  | Some bands => forallb (fun b => Qle_bool 0 (band_value b)) bands
  end.

Definition devices_nonneg (s : state) : bool :=
  forallb (fun nd => forallb (fun tp => profile_nonneg (snd tp))
                             (map_to_list (snd nd)))
          (map_to_list (db_devices s)).

Definition row_timestamp (dt : row) : datetime := doc_timestamp (row_doc dt).

Definition value_dev (dt : row) : Q * string :=
  (row_value dt, doc_dev (row_doc dt)).

(** [e] is the value and timestamp of the first row of [data] that attains
    the least value: every row before it is strictly above, every row
    after it is at or above. *)
Definition first_min (data : list row) (e : extreme) : Prop :=
  exists pre dt post,
    data = (pre ++ dt :: post)%list
    /\ e = {| ex_value := Some (row_value dt);
              ex_timestamp := Some (row_timestamp dt) |}
    /\ Forall (fun x => row_value dt < row_value x) pre
    /\ Forall (fun x => row_value dt <= row_value x) post.

Definition first_max (data : list row) (e : extreme) : Prop :=
  exists pre dt post,
    data = (pre ++ dt :: post)%list
    /\ e = {| ex_value := Some (row_value dt);
              ex_timestamp := Some (row_timestamp dt) |}
    /\ Forall (fun x => row_value x < row_value dt) pre
    /\ Forall (fun x => row_value x <= row_value dt) post.

(** The accuracy [process_series] resolves for a row, from the device
    documents [cache] it has fetched and the measure type [mtype]. *)
Definition resolved (cache : gmap string (option device_doc))
  (mtype : option string) (dt : row) : Q :=
  match mtype with
  | Some t => accuracy (default None (cache !! doc_dev (row_doc dt))) t (row_value dt)
  | None => 0
  end.

(** What the first loop of [process_series] has computed once it went
    through the rows [seen]. *)
Definition extreme_inv (P : list row -> extreme -> Prop) (seen : list row)
  (value : option Q) (timestamp : option datetime) : Prop :=
  match seen with
  | [] => value = None /\ timestamp = None
  | _ => P seen {| ex_value := value; ex_timestamp := timestamp |}
  end.

Definition series_inv (seen : list row) (v : series_vars) (s : state) : Prop :=
  data_values v = List.map value_dev seen
  /\ timestamps v = List.map row_timestamp seen
  /\ measure_type v = option_map (fun dt => doc_type (row_doc dt)) (head seen)
  /\ (forall dt, In dt seen -> is_Some (devices v !! doc_dev (row_doc dt)))
  /\ (forall name d, devices v !! name = Some (Some d) ->
                     db_devices s !! name = Some d)
  /\ extreme_inv first_min seen (min_value v) (min_timestamp v)
  /\ extreme_inv first_max seen (max_value v) (max_timestamp v).

(** The number with uncertainty the second loop of [process_series]
    builds for a pair of [data_values]. *)
Definition uvalue_of (cache : gmap string (option device_doc)) (t : string)
  (vd : Q * string) : AffineScalarFunc :=
  {| nominal_value := fst vd;
     linear_combo := [(1, accuracy (default None (cache !! snd vd)) t (fst vd))] |}.

(** The average [sum(uvalues)/len(uvalues)] of the rows [data]: every
    variable enters with the derivative 1/n. *)
Definition uaverage_of (cache : gmap string (option device_doc))
  (mtype : option string) (data : list row) : AffineScalarFunc :=
  {| nominal_value := Qsum (List.map row_value data) / Qlen data;
     linear_combo :=
       List.map (fun dt => (1 / Qlen data, resolved cache mtype dt)) data |}.

(** The document [meas] as [process_series] composes it. *)
Definition measure_of (topic : string) (v : series_vars)
  (first_timestamp last_timestamp : datetime) (uaverage : AffineScalarFunc)
  : measure :=
  let measure_timestamp :=
    truncate_seconds
      (half_timedelta (last_timestamp - first_timestamp) + first_timestamp)%Z in
  {| m_id := (topic, measure_timestamp);
     m_topic := topic;
     m_measure_type := measure_type v;
     m_value_type := "average";
     m_timestamp := measure_timestamp;
     m_value := nominal_value uaverage;
     m_accuracy := std_dev uaverage;
     m_min_value := {| ex_value := min_value v; ex_timestamp := min_timestamp v |};
     m_max_value := {| ex_value := max_value v; ex_timestamp := max_timestamp v |};
     m_time_slot := {| slot_start := first_timestamp; slot_end := last_timestamp |} |}.

(** Following the words of the specification: the uncertainty-weighted
    mean of values with their uncertainties, each value weighted by the
    inverse of its squared uncertainty. *)
Definition uncertainty_weighted_mean (vs : list (Q * Q)) : Q :=
  Qsum (List.map (fun va => fst va / (snd va * snd va)) vs)
  / Qsum (List.map (fun va => 1 / (snd va * snd va)) vs).

(** The value stored on the record a run of [process_series] returned. *)
Definition stored_value (out : result measure * state) : option Q :=
  match fst out with
  | Return m => Some (m_value m)
  | Raise _ => None
  end.

(** The order of the rows in the view index. *)
Definition row_le (a b : row) : Prop := row_leb a b = true.

(** [start] is the timestamp of the earliest sample of [topic] in [docs]. *)
Definition earliest (topic : string) (docs : list sample) (start : datetime) : Prop :=
  (exists d, In d docs /\ doc_topic d = topic /\ doc_timestamp d = start)
  /\ (forall d, In d docs -> doc_topic d = topic -> (start <= doc_timestamp d)%Z).

(** [rows] are the rows of the samples of [topic] in [docs] with a
    timestamp in the closed interval [start, stop]. *)
Definition window_rows (topic : string) (start stop : datetime)
  (docs : list sample) (rows : list row) : Prop :=
  forall r, In r rows <->
            exists d, In d docs /\ r = row_of d /\ doc_topic d = topic
                      /\ (start <= doc_timestamp d <= stop)%Z.

(** The scenario of the specification: topic temp/room1, a device dev1
    with the bands of [example_device]; times are given in seconds. *)
Definition seconds (n : Z) : datetime := (n * 1000000)%Z.

Definition room1_sample (id : string) (t : Z) (value : Q) : sample :=
  {| doc_id := id; doc_rev := "1-" +:+ id; doc_topic := "temp/room1";
     doc_dev := "dev1"; doc_type := "temperature";
     doc_timestamp := seconds t; doc_value := value |}.

Definition room1_state (docs : list sample) (script : list bool) (now : Z)
  : state :=
  {| db_realtime := docs; db_datastore := [];
     db_devices := {[ "dev1" := example_device ]};
     faults := script; clock := seconds now; log := [] |}.

(** Three samples 9.0, 9.5 and 11.0 at T, T+60s and T+120s. *)
Definition three_samples : list sample :=
  [ room1_sample "a" 1000 9; room1_sample "b" 1060 (19 # 2);
    room1_sample "c" 1120 11 ].

End DsArchiverSpec.

(** Vocabulary for the configuration. *)

Module ConfigurationSpec.
Import Configuration.

(** The required parameters a section does not have, in their order. *)
Definition missing_params (log_config : gmap string string)
  (req_params : list string) : list string :=
  List.filter (fun p => match log_config !! p with None => true | Some _ => false end)
              req_params.

(** A topic name that is neither the header, nor empty, nor a comment. *)
Definition regular_topic (k : string) : Prop :=
  k <> "topic" /\ exists c r, k = String c r /\ c <> "#"%char.

(** The first row of [rows] whose stripped topic is [k] carries [rest]. *)
Definition listed (k : string) (rest : gmap string (option string))
  (rows : list csv_row) : Prop :=
  exists pre r post,
    rows = (pre ++ r :: post)%list
    /\ strip_spaces (csv_topic r) = k
    /\ csv_rest r = rest
    /\ Forall (fun r' => strip_spaces (csv_topic r') <> k) pre.

(** The path [load_iot_config] opens: the stripped [filedir], or HOME
    when it is empty, joined with [file]. *)
Definition catalog_path (e : conf_env) (filedir file : string) : string :=
  path_join (if String.eqb (strip_spaces filedir) "" then home e
             else strip_spaces filedir) file.

(** The files and HOME are the same in both states. *)
Definition same_files (e e' : conf_env) : Prop :=
  files e' = files e /\ home e' = home e.

(** A configuration whose section [iot] names the topic file
    /etc/iot/topics.csv, and an environment that holds this file. *)
Definition example_iot : gmap string string :=
  {[ "file" := "topics.csv"; "filedir" := " /etc/iot " ]}.

Definition example_ini : ini_file := {[ "iot" := example_iot ]}.

Definition topic_row (topic place : string) : csv_row :=
  {| csv_topic := topic; csv_rest := {[ "where" := Some place ]} |}.

Definition example_env (rows : list csv_row) : conf_env :=
  {| files := {[ "/etc/iot/topics.csv" := Some rows ]};
     home := "/root"; conf_log := [] |}.

(** A header, a topic, a comment and the same topic again. *)
Definition example_rows : list csv_row :=
  [ topic_row "topic" "where"; topic_row " temp/room1 " "kitchen";
    topic_row "#temp/room2" "hall"; topic_row "temp/room1" "attic" ].

(** A topic, a row whose topic is blank, and a topic. *)
Definition blank_topic_rows : list csv_row :=
  [ topic_row "temp/room1" "kitchen"; topic_row "  " "hall";
    topic_row "temp/room3" "attic" ].

End ConfigurationSpec.

(** Vocabulary for the broker session. *)

Module BridgeSpec.
Import Archiver Bridge.

(** Each topic with the outcome the script gives its [subscribe] call. *)
Fixpoint subscribe_outcomes (topics : list string) (script : list bool)
  : list (string * bool) :=
  match topics with
  | [] => []
  | t :: ts => (t, hd false script) :: subscribe_outcomes ts (tl script)
  end.

End BridgeSpec.

(** Vocabulary for the clock. *)

Module MqttClockSpec.

Import Archiver MqttClock.

(** The date in the order day, month, year. *)
Definition italian_date (d : datetime) : string :=
  digits 2 (day d) +:+ "-" +:+ digits 2 (month d) +:+ "-" +:+ digits 4 (year d).

End MqttClockSpec.

(** Vocabulary for the connection of the databases. *)

Module ConnectionSpec.
Import Configuration Connection.

(** The parameters [connect_db] verifies in the section [couchdb]. *)
Definition verified_params : list string :=
  ["server"; "port"; "user"; "password";
   "readfom_dbname"; "writeto_dbname"; "devices_dbname"].

(** The URL [connect_db] builds for the database named under [db_name]. *)
Definition url_of (couchdb_params : gmap string string) (db_name : string)
  : option string :=
  user ← couchdb_params !! "user";
  passwd ← couchdb_params !! "password";
  server ← couchdb_params !! "server";
  port ← couchdb_params !! "port";
  dbname ← couchdb_params !! db_name;
  Some (format_url user passwd server port dbname).

(** A section [couchdb] with the seven verified parameters only. *)
Definition verified_couchdb : gmap string string :=
  {[ "server" := "db.local"; "port" := "5984"; "user" := "iot";
     "password" := "secret"; "readfom_dbname" := "rt";
     "writeto_dbname" := "ds"; "devices_dbname" := "devices" ]}.

(** The same with the two names [couchdb_client] reads. *)
Definition complete_couchdb : gmap string string :=
  <[ "realtime_dbname" := "realtime" ]>
    (<[ "datastore_dbname" := "datastore" ]> verified_couchdb).

(** The names [couchdb_client] reads, without [readfom_dbname]. *)
Definition unverified_couchdb : gmap string string :=
  delete "readfom_dbname" complete_couchdb.

End ConnectionSpec.

(** Vocabulary for the runs of the historicizer. *)

Module HistoricizerSpec.
Import DsArchiver DsArchiverSpec.

(** The databases and the clock are the same in both states, and no
    failure is scripted in the second when none is in the first. *)
Definition calm (s s' : state) : Prop :=
  same_stores s s' /\ (faults s = [] -> faults s' = []).

(** A computation that leaves the three databases and the clock as they
    are, whatever it answers. *)
Definition reads_only {A} (m : M state A) : Prop :=
  forall s, calm s (snd (m s)).

(** A computation that answers True whenever it answers. *)
Definition answers_true (m : M state bool) : Prop :=
  forall s b s', m s = (Return b, s') -> b = true.

(** The sample lies in the window of the topic. *)
Definition in_window (topic : string) (start stop : datetime) (d : sample) : bool :=
  String.eqb (doc_topic d) topic
  && (start <=? doc_timestamp d)%Z && (doc_timestamp d <=? stop)%Z.

(** The key range [get_measures_slot] queries. *)
Definition window_params (topic : string) (start stop : datetime) : view_params :=
  {| startkey := (topic, Some start); endkey := Some (topic, Some stop);
     limit := None |}.

(** Two states that agree on everything but the log. *)
Definition agree (s t : state) : Prop :=
  db_realtime s = db_realtime t
  /\ db_datastore s = db_datastore t
  /\ db_devices s = db_devices t
  /\ faults s = faults t
  /\ clock s = clock t.

(** A computation that never reads the log: from two states that agree
    it gives the same outcome and two states that agree. *)
Definition log_blind {A} (m : M state A) : Prop :=
  forall s t, agree s t ->
    fst (m s) = fst (m t) /\ agree (snd (m s)) (snd (m t)).

(** The devices named by the rows. *)
Definition device_names (data : list row) : gset string :=
  list_to_set (List.map (fun dt => doc_dev (row_doc dt)) data).

End HistoricizerSpec.

(** * Properties of the ingestion bridge *)

Module ArchiverFacts.

Import Archiver.

(** ** The hand-off queue *)

Lemma rev_enqueue_all (es q : list entry) :
  rev (enqueue_all es q) = (rev q ++ es)%list.
Proof.
  revert q. induction es as [|e es IH]; intros q; simpl.
  - now rewrite app_nil_r.
  - unfold enqueue_all in IH. rewrite IH. unfold queue_insert0. simpl.
    now rewrite <- app_assoc.
Qed.

Lemma drain_nonempty (q : list entry) (x : entry) (r : list entry) :
  rev q = x :: r -> drain q = (Some x, rev r).
Proof. intros H. unfold drain, queue_pop. now rewrite H. Qed.

Lemma drain_empty (q : list entry) : rev q = [] -> drain q = (None, q).
Proof. intros H. unfold drain, queue_pop. now rewrite H. Qed.

Lemma drain_n_rev (n : nat) (q : list entry) :
  drain_n n q = (firstn n (rev q), rev (skipn n (rev q))).
Proof.
  revert q. induction n as [|n IH]; intros q; simpl.
  - rewrite drop_0. now rewrite rev_involutive.
  - destruct (rev q) as [|x r] eqn:E.
    + rewrite (drain_empty q E), IH, E.
      now rewrite firstn_nil, skipn_nil.
    + rewrite (drain_nonempty q x r E), IH, rev_involutive. reflexivity.
Qed.

Lemma run_ops_order (ops : list queue_op) (q : list entry) :
  (fst (run_ops ops q) ++ rev (snd (run_ops ops q)))%list
  = (rev q ++ enqueued ops)%list.
Proof.
  revert q. induction ops as [|[e|] ops IH]; intros q; simpl.
  - now rewrite app_nil_r.
  - rewrite IH. unfold queue_insert0. simpl. now rewrite <- app_assoc.
  - destruct (rev q) as [|x r] eqn:E.
    + rewrite (drain_empty q E), IH, E. reflexivity.
    + rewrite (drain_nonempty q x r E).
      specialize (IH (rev r)). destruct (run_ops ops (rev r)) as [xs q'].
      simpl in *. rewrite IH, rev_involutive. reflexivity.
Qed.


(** ** Stamping and tagging in [on_message] *)

Lemma append_cons (x : ascii) (a b : string) :
  String x a +:+ b = String x (a +:+ b).
Proof. reflexivity. Qed.

Lemma append_nil (b : string) : "" +:+ b = b.
Proof. reflexivity. Qed.

Lemma rfind_from_absent (c : ascii) (s : string) (i found : Z) :
  absent c s = true -> rfind_from c s i found = found.
Proof.
  revert i found. induction s as [|a r IH]; intros i found H; simpl in *.
  - reflexivity.
  - apply andb_prop in H as [Ha Hr]. apply negb_true_iff in Ha.
    rewrite Ha. now apply IH.
Qed.

Lemma rfind_from_app (c : ascii) (a b : string) (i found : Z) :
  rfind_from c (a +:+ b) i found
  = rfind_from c b (i + Z.of_nat (String.length a)) (rfind_from c a i found).
Proof.
  revert i found. induction a as [|x a IH]; intros i found.
  - rewrite append_nil. simpl. now rewrite Z.add_0_r.
  - rewrite append_cons. cbn [rfind_from String.length]. rewrite IH. f_equal. lia.
Qed.

Lemma absent_app (c : ascii) (a b : string) :
  absent c (a +:+ b) = absent c a && absent c b.
Proof.
  induction a as [|x a IH].
  - reflexivity.
  - rewrite append_cons. simpl. now rewrite IH, andb_assoc.
Qed.

Lemma digit_not_dot (n : N) :
  Ascii.eqb (ascii_of_N (48 + n mod 10)) "." = false.
Proof.
  assert (H : (n mod 10 < 10)%N) by (apply N.mod_lt; discriminate).
  destruct (n mod 10)%N as [|p]; [reflexivity|].
  do 4 (destruct p as [p|p|]; try reflexivity; try (exfalso; lia)).
Qed.

Lemma digits_absent_dot (w : nat) (n : N) : absent "." (digits w n) = true.
Proof.
  revert n. induction w as [|w IH]; intros n; simpl.
  - reflexivity.
  - rewrite absent_app, IH. simpl. now rewrite digit_not_dot.
Qed.

Lemma isoformat_seconds_absent_dot (d : datetime) :
  absent "." (isoformat_seconds d) = true.
Proof.
  unfold isoformat_seconds.
  repeat (rewrite absent_app || rewrite digits_absent_dot). reflexivity.
Qed.

Lemma slice_to_prefix (a b : string) :
  slice_to (a +:+ b) (Z.of_nat (String.length a)) = a.
Proof.
  unfold slice_to.
  assert (Hlen : String.length (a +:+ b) = (String.length a + String.length b)%nat).
  { induction a as [|x a IH]; [reflexivity|].
    rewrite append_cons. simpl. now rewrite IH. }
  rewrite Hlen.
  replace (Z.of_nat (String.length a) <? 0)%Z with false by (symmetry; apply Z.ltb_ge; lia).
  rewrite Z.min_l by lia. rewrite Nat2Z.id.
  clear Hlen. induction a as [|x a IH].
  - rewrite append_nil. now destruct b.
  - rewrite append_cons. simpl. f_equal. apply IH.
Qed.

(** With a clock reading that has a non-zero microsecond field, the text
    cut at the last dot is the time to the second. *)
Lemma stamp_of_fraction (now : datetime) :
  microsecond now <> 0%N ->
  slice_to (isoformat now) (rfind "." (isoformat now)) = isoformat_seconds now.
Proof.
  intros Hus. unfold isoformat.
  destruct (N.eqb_spec (microsecond now) 0) as [E|_]; [contradiction|].
  unfold rfind.
  rewrite rfind_from_app.
  rewrite (rfind_from_absent _ (isoformat_seconds now)) by apply isoformat_seconds_absent_dot.
  change ("." +:+ digits 6 (microsecond now))
    with (String "." (digits 6 (microsecond now))).
  cbn [rfind_from]. rewrite Ascii.eqb_refl.
  rewrite rfind_from_absent by apply digits_absent_dot.
  rewrite Z.add_0_l. apply slice_to_prefix.
Qed.

(** A payload without a timestamp, received when the clock reading has a
    non-zero microsecond field, is stamped with the time to the second,
    tagged, and pushed at the front of the queue. *)
Lemma on_message_stamps (now : datetime) (topic : string)
  (fields : list (string * json)) (s : mqtt_state) :
  dict_of_object fields !! "timestamp" = None ->
  microsecond now <> 0%N ->
  on_message now topic (Some (JObj fields)) s
  = (Return tt,
     {| queue :=
          (topic,
           <["topic" := JStr topic]>
             (<["_id" := JStr (topic +:+ "@" +:+ isoformat_seconds now)]>
                (<["timestamp" := JStr (isoformat_seconds now)]>
                   (dict_of_object fields)))) :: queue s;
        mqtt_log := mqtt_log s ++ [LogRecord DEBUG "InQueue: {}" None] |}).
Proof.
  intros Hts Hus. unfold on_message, bind, lift, ret, modify, mqtt_logger. simpl.
  rewrite Hts. rewrite stamp_of_fraction by assumption.
  rewrite lookup_insert_eq. reflexivity.
Qed.

(** Whatever the payload, an entry is pushed only after its [topic] and
    its [_id], the text [topic@timestamp], were set. *)
Lemma on_message_tags (now : datetime) (topic : string) (payload : option json)
  (s s' : mqtt_state) :
  on_message now topic payload s = (Return tt, s') ->
  exists data ts,
    queue s' = (topic, data) :: queue s
    /\ data !! "timestamp" = Some (JStr ts)
    /\ data !! "_id" = Some (JStr (topic +:+ "@" +:+ ts))
    /\ data !! "topic" = Some (JStr topic).
Proof.
  unfold on_message, bind, lift, ret, raise, modify, mqtt_logger, json_loads.
  destruct payload as [[| | | | |fields]|]; simpl; try discriminate.
  set (data0 := match dict_of_object fields !! "timestamp" with
                | Some _ => dict_of_object fields
                | None => _
                end).
  destruct (data0 !! "timestamp") as [[| | |ts| |]|] eqn:E; simpl; try discriminate.
  intros H. injection H as <-. simpl.
  exists (<["topic" := JStr topic]> (<["_id" := JStr (topic +:+ "@" +:+ ts)]> data0)), ts.
  split; [reflexivity|]. split; [|split].
  - rewrite lookup_insert_ne by discriminate.
    rewrite lookup_insert_ne by discriminate. exact E.
  - rewrite lookup_insert_ne by discriminate. apply lookup_insert_eq.
  - apply lookup_insert_eq.
Qed.

(** C9. A payload without a timestamp that arrives when the clock reads a
    whole second (microsecond field 0): [isoformat()] prints no fraction,
    [rfind(".")] answers -1 and the slice [now[:-1]] drops the last digit
    of the seconds.  The entry pushed carries the stamp 2020-11-29T12:00:0
    and the identifier built from it, not the time to the second
    2020-11-29T12:00:00. *)
Theorem on_message_whole_second :
  let now := {| year := 2020; month := 11; day := 29;
                hour := 12; minute := 0; second := 0; microsecond := 0 |} in
  let s := {| queue := []; mqtt_log := [] |} in
  let out := on_message now "temp/room1" (Some (JObj [("value", JNum (41 # 2))])) s in
  isoformat_seconds now = "2020-11-29T12:00:00"
  /\ exists data,
       queue (snd out) = [("temp/room1", data)]
       /\ data !! "timestamp" = Some (JStr "2020-11-29T12:00:0")
       /\ data !! "_id" = Some (JStr "temp/room1@2020-11-29T12:00:0")
       /\ data !! "topic" = Some (JStr "temp/room1").
Proof.
  cbv zeta. split; [reflexivity|].
  eexists. split; [vm_compute; reflexivity|].
  repeat split; vm_compute; reflexivity.
Qed.

End ArchiverFacts.

(** * Properties of the historicizer *)

Module DsArchiverFacts.

Import DsArchiver DsArchiverSpec.

Local Open Scope Q_scope.

(** ** Accuracy resolution *)

Lemma in_band_iff (reading : Q) (a : accuracy_band) :
  in_band reading a = true <-> range_inf a <= reading < range_sup a.
Proof.
  unfold in_band. rewrite andb_true_iff, Qle_bool_iff, Qlt_bool_iff. tauto.
Qed.

Lemma accuracy_scan_none (accuracies : list accuracy_band) (reading d : Q) :
  Forall (fun a => ~ (range_inf a <= reading < range_sup a)) accuracies ->
  accuracy_scan accuracies reading d = d.
Proof.
  induction 1 as [|a l Ha _ IH]; simpl; [reflexivity|].
  destruct (in_band reading a) eqn:E; [|exact IH].
  apply in_band_iff in E. contradiction.
Qed.

Lemma accuracy_scan_first (pre post : list accuracy_band) (b : accuracy_band)
  (reading d : Q) :
  Forall (fun a => ~ (range_inf a <= reading < range_sup a)) pre ->
  range_inf b <= reading < range_sup b ->
  accuracy_scan (pre ++ b :: post) reading d = band_value b.
Proof.
  intros Hpre Hb. induction Hpre as [|a l Ha _ IH]; simpl.
  - apply in_band_iff in Hb. now rewrite Hb.
  - destruct (in_band reading a) eqn:E; [|exact IH].
    apply in_band_iff in E. contradiction.
Qed.

(** C7. [accuracy] answers 0.0 for an unknown device (None), for a device
    without accuracy ranges for the measure type, and when no band holds
    the reading; otherwise it answers the value of the first band whose
    half-open interval [range_inf, range_sup) holds the reading.  With the
    bands [0,10) -> 0.1 and [10,20) -> 0.2 the readings 9.9, 15 and 25
    resolve to 0.1, 0.2 and 0.0. *)
Theorem accuracy_resolution :
  (forall value_type reading, accuracy None value_type reading = 0)
  /\ (forall (d : device_doc) value_type reading,
        d !! value_type ≫= accuracy_ranges = None ->
        accuracy (Some d) value_type reading = 0)
  /\ (forall (d : device_doc) value_type reading bands,
        d !! value_type ≫= accuracy_ranges = Some bands ->
        Forall (fun a => ~ (range_inf a <= reading < range_sup a)) bands ->
        accuracy (Some d) value_type reading = 0)
  /\ (forall (d : device_doc) value_type reading pre b post,
        d !! value_type ≫= accuracy_ranges = Some (pre ++ b :: post)%list ->
        Forall (fun a => ~ (range_inf a <= reading < range_sup a)) pre ->
        range_inf b <= reading < range_sup b ->
        accuracy (Some d) value_type reading = band_value b)
  /\ (accuracy (Some example_device) "temperature" (99 # 10) = 1 # 10
      /\ accuracy (Some example_device) "temperature" 15 = 2 # 10
      /\ accuracy (Some example_device) "temperature" 25 = 0).
Proof.
  split; [reflexivity|]. split; [|split; [|split]].
  - intros d vt r H. unfold accuracy. now rewrite H.
  - intros d vt r bands H Hno. unfold accuracy. rewrite H.
    now apply accuracy_scan_none.
  - intros d vt r pre b post H Hpre Hb. unfold accuracy. rewrite H.
    now apply accuracy_scan_first.
  - repeat split; vm_compute; reflexivity.
Qed.

(** The reading 15 lies in the second band of the example, not in the
    first. *)
Lemma accuracy_resolution_witness :
  accuracy (Some example_device) "temperature" 15 = 2 # 10.
Proof.
  apply (proj1 (proj2 (proj2 (proj2 accuracy_resolution)))
           example_device "temperature" 15
           [ {| range_inf := 0; range_sup := 10; band_value := 1 # 10 |} ]
           {| range_inf := 10; range_sup := 20; band_value := 2 # 10 |}
           []).
  - vm_compute. reflexivity.
  - constructor; [|constructor]. simpl. intros [_ H]. revert H. vm_compute.
    intros H. discriminate H.
  - simpl. split; vm_compute; [intros H; discriminate H | reflexivity].
Defined.

(** ** Stores, log and device lookups *)

Lemma same_stores_refl (s : state) : same_stores s s.
Proof. repeat split. Qed.

Lemma same_stores_trans (s1 s2 s3 : state) :
  same_stores s1 s2 -> same_stores s2 s3 -> same_stores s1 s3.
Proof.
  intros (A1 & A2 & A3 & A4) (B1 & B2 & B3 & B4).
  repeat split; congruence.
Qed.

Lemma same_stores_add_log (r : log_record) (s : state) :
  same_stores s (add_log r s).
Proof. repeat split. Qed.

Lemma same_stores_set_faults (fs : list bool) (s : state) :
  same_stores s (set_faults fs s).
Proof. repeat split. Qed.

(** [get_device] never raises: a failed lookup is logged and answers
    None; a document it answers is the one of the device store. *)
Lemma get_device_returns (name : string) (s : state) :
  exists d s',
    get_device name s = (Return d, s')
    /\ same_stores s s'
    /\ (forall doc, d = Some doc -> db_devices s !! name = Some doc).
Proof.
  unfold get_device, bind, attempt, devices_get, request, logger, modify, ret.
  destruct (faults s) as [|[|] fs]; simpl.
  - destruct (db_devices s !! name) as [doc|] eqn:E; simpl.
    + exists (Some doc), s. repeat split; congruence.
    + eexists None, _. split; [reflexivity|]. split; [|discriminate].
      repeat split.
  - eexists None, _. split; [reflexivity|]. split; [|discriminate].
    repeat split.
  - destruct (db_devices s !! name) as [doc|] eqn:E; simpl.
    + eexists (Some doc), _. split; [reflexivity|]. split; [repeat split|].
      intros ? [= <-]. reflexivity.
    + eexists None, _. split; [reflexivity|]. split; [|discriminate].
      repeat split.
Qed.

Lemma band_value_nonneg (s : state) (name vt : string) (d : device_doc)
  (bands : list accuracy_band) (b : accuracy_band) :
  devices_nonneg s = true ->
  db_devices s !! name = Some d ->
  d !! vt ≫= accuracy_ranges = Some bands ->
  In b bands -> 0 <= band_value b.
Proof.
  unfold devices_nonneg. intros Hall Hd Hvt Hb.
  rewrite forallb_forall in Hall.
  specialize (Hall (name, d)). simpl in Hall.
  assert (Hin : In (name, d) (map_to_list (db_devices s))).
  { apply list_elem_of_In, elem_of_map_to_list. exact Hd. }
  specialize (Hall Hin). rewrite forallb_forall in Hall.
  destruct (d !! vt) as [p|] eqn:Ep; simpl in Hvt; [|discriminate].
  specialize (Hall (vt, p)). simpl in Hall.
  assert (Hin' : In (vt, p) (map_to_list d)).
  { apply list_elem_of_In, elem_of_map_to_list. exact Ep. }
  specialize (Hall Hin'). unfold profile_nonneg in Hall. rewrite Hvt in Hall.
  rewrite forallb_forall in Hall. apply Qle_bool_iff. now apply Hall.
Qed.

Lemma accuracy_scan_nonneg (bands : list accuracy_band) (reading : Q) :
  (forall b, In b bands -> 0 <= band_value b) ->
  0 <= accuracy_scan bands reading 0.
Proof.
  induction bands as [|a l IH]; intros H; simpl.
  - apply Qle_refl.
  - destruct (in_band reading a).
    + apply H. now left.
    + apply IH. intros b Hb. apply H. now right.
Qed.

Lemma accuracy_nonneg (s : state) (name vt : string) (od : option device_doc)
  (reading : Q) :
  devices_nonneg s = true ->
  (forall d, od = Some d -> db_devices s !! name = Some d) ->
  0 <= accuracy od vt reading.
Proof.
  intros Hall Hod. unfold accuracy. destruct od as [d|]; [|apply Qle_refl].
  destruct (d !! vt ≫= accuracy_ranges) as [bands|] eqn:E; [|apply Qle_refl].
  apply accuracy_scan_nonneg. intros b Hb.
  eapply band_value_nonneg; eauto.
Qed.

(** ** The first loop of [process_series] *)

Lemma min_step (seen : list row) (dt : row) (mv : option Q)
  (mt : option datetime) :
  extreme_inv first_min seen mv mt ->
  extreme_inv first_min (seen ++ [dt])%list
    (fst match mv with
         | None => (Some (row_value dt), Some (row_timestamp dt))
         | Some m => if Qlt_bool (row_value dt) m
                     then (Some (row_value dt), Some (row_timestamp dt))
                     else (mv, mt)
         end)
    (snd match mv with
         | None => (Some (row_value dt), Some (row_timestamp dt))
         | Some m => if Qlt_bool (row_value dt) m
                     then (Some (row_value dt), Some (row_timestamp dt))
                     else (mv, mt)
         end).
Proof.
  intros H.
  assert (Hne : exists r l, (seen ++ [dt])%list = r :: l).
  { destruct seen; simpl; eauto. }
  destruct Hne as (r0 & l0 & Hne). unfold extreme_inv. rewrite Hne, <- Hne.
  destruct seen as [|r seen].
  - destruct H as [-> ->]. simpl.
    exists [], dt, []. repeat split; constructor.
  - simpl in H. destruct H as (pre & d & post & Hsplit & He & Hpre & Hpost).
    injection He as -> ->.
    destruct (Qlt_bool (row_value dt) (row_value d)) eqn:E; simpl.
    + apply Qlt_bool_iff in E.
      exists (r :: seen), dt, []. repeat split; [|constructor].
      rewrite Hsplit. apply Forall_app. split.
      * eapply List.Forall_impl; [|exact Hpre]. simpl. intros x Hx.
        eapply Qlt_trans; eauto.
      * constructor; [exact E|].
        eapply List.Forall_impl; [|exact Hpost]. simpl. intros x Hx.
        eapply Qlt_le_trans; eauto.
    + assert (Hle : row_value d <= row_value dt).
      { apply Qnot_lt_le. intros Hlt. apply Qlt_bool_iff in Hlt. congruence. }
      exists pre, d, (post ++ [dt])%list. repeat split.
      * rewrite app_comm_cons, Hsplit. now rewrite <- app_assoc.
      * exact Hpre.
      * apply Forall_app. split; [exact Hpost|]. now constructor.
Qed.

Lemma max_step (seen : list row) (dt : row) (mv : option Q)
  (mt : option datetime) :
  extreme_inv first_max seen mv mt ->
  extreme_inv first_max (seen ++ [dt])%list
    (fst match mv with
         | None => (Some (row_value dt), Some (row_timestamp dt))
         | Some m => if Qlt_bool m (row_value dt)
                     then (Some (row_value dt), Some (row_timestamp dt))
                     else (mv, mt)
         end)
    (snd match mv with
         | None => (Some (row_value dt), Some (row_timestamp dt))
         | Some m => if Qlt_bool m (row_value dt)
                     then (Some (row_value dt), Some (row_timestamp dt))
                     else (mv, mt)
         end).
Proof.
  intros H.
  assert (Hne : exists r l, (seen ++ [dt])%list = r :: l).
  { destruct seen; simpl; eauto. }
  destruct Hne as (r0 & l0 & Hne). unfold extreme_inv. rewrite Hne, <- Hne.
  destruct seen as [|r seen].
  - destruct H as [-> ->]. simpl.
    exists [], dt, []. repeat split; constructor.
  - simpl in H. destruct H as (pre & d & post & Hsplit & He & Hpre & Hpost).
    injection He as -> ->.
    destruct (Qlt_bool (row_value d) (row_value dt)) eqn:E; simpl.
    + apply Qlt_bool_iff in E.
      exists (r :: seen), dt, []. repeat split; [|constructor].
      rewrite Hsplit. apply Forall_app. split.
      * eapply List.Forall_impl; [|exact Hpre]. simpl. intros x Hx.
        eapply Qlt_trans; eauto.
      * constructor; [exact E|].
        eapply List.Forall_impl; [|exact Hpost]. simpl. intros x Hx.
        eapply Qle_lt_trans; eauto.
    + assert (Hle : row_value dt <= row_value d).
      { apply Qnot_lt_le. intros Hlt. apply Qlt_bool_iff in Hlt. congruence. }
      exists pre, d, (post ++ [dt])%list. repeat split.
      * rewrite app_comm_cons, Hsplit. now rewrite <- app_assoc.
      * exact Hpre.
      * apply Forall_app. split; [exact Hpost|]. now constructor.
Qed.

Lemma series_inv_init (s : state) : series_inv [] series_init s.
Proof.
  unfold series_inv, series_init. simpl. repeat split; try reflexivity.
  - intros dt [].
  - intros name d H. rewrite lookup_empty in H. discriminate.
Qed.

(** One pass of the loop body: it never raises, it leaves the stores
    alone, and it extends what the loop has computed by the row. *)
Lemma series_step_inv (seen : list row) (dt : row) (v : series_vars) (s : state) :
  series_inv seen v s ->
  exists v' s',
    series_step dt v s = (Return v', s')
    /\ same_stores s s'
    /\ series_inv (seen ++ [dt])%list v' s'.
Proof.
  intros Hinv.
  pose proof Hinv as (Hdv & Hts & Hmt & Hcache & Hdb & Hmin & Hmax).
  pose proof (min_step seen dt _ _ Hmin) as Hmin'.
  pose proof (max_step seen dt _ _ Hmax) as Hmax'.
  assert (Hfetch : exists devices' s',
      match devices v !! doc_dev (row_doc dt) with
      | Some _ => ret (devices v)
      | None => bind (get_device (doc_dev (row_doc dt)))
                     (fun d => ret (<[doc_dev (row_doc dt) := d]> (devices v)))
      end s = (Return devices', s')
      /\ same_stores s s'
      /\ is_Some (devices' !! doc_dev (row_doc dt))
      /\ (forall name, is_Some (devices v !! name) -> is_Some (devices' !! name))
      /\ (forall name d, devices' !! name = Some (Some d) ->
                         db_devices s !! name = Some d)).
  { destruct (devices v !! doc_dev (row_doc dt)) as [od|] eqn:E.
    - exists (devices v), s. repeat split; eauto.
    - destruct (get_device_returns (doc_dev (row_doc dt)) s)
        as (d & s' & Hrun & Hst & Hdoc).
      unfold bind. rewrite Hrun. eexists _, s'. split; [reflexivity|].
      split; [exact Hst|]. split; [|split].
      + rewrite lookup_insert_eq. eauto.
      + intros name [x Hx].
        destruct (decide (doc_dev (row_doc dt) = name)) as [<-|Hne].
        * congruence.
        * rewrite lookup_insert_ne by exact Hne. eauto.
      + intros name d0.
        destruct (decide (doc_dev (row_doc dt) = name)) as [<-|Hne].
        * rewrite lookup_insert_eq. intros [= ->]. now apply Hdoc.
        * rewrite lookup_insert_ne by exact Hne. apply Hdb. }
  unfold series_step. cbv zeta. unfold bind at 1.
  destruct Hfetch as (devices' & s' & Hrun & Hst & Hown & Hkeep & Hdb').
  rewrite Hrun. clear Hrun. unfold ret.
  destruct (match min_value v with
            | None => (Some (row_value dt), Some (doc_timestamp (row_doc dt)))
            | Some m => _
            end) as [min_value' min_timestamp'] eqn:Emin.
  destruct (match max_value v with
            | None => (Some (row_value dt), Some (doc_timestamp (row_doc dt)))
            | Some m => _
            end) as [max_value' max_timestamp'] eqn:Emax.
  eexists _, s'. split; [reflexivity|]. split; [exact Hst|].
  unfold series_inv. simpl. repeat split.
  - rewrite Hdv, map_app. reflexivity.
  - rewrite Hts, map_app. reflexivity.
  - rewrite Hmt. destruct seen; reflexivity.
  - intros x Hx. apply in_app_or in Hx as [Hx|[<-|[]]].
    + apply Hkeep. now apply Hcache.
    + exact Hown.
  - intros name d H. destruct Hst as (_ & _ & -> & _). now apply Hdb'.
  - unfold row_timestamp in Hmin'. rewrite Emin in Hmin'. exact Hmin'.
  - unfold row_timestamp in Hmax'. rewrite Emax in Hmax'. exact Hmax'.
Qed.

Lemma series_loop_inv (rest seen : list row) (v : series_vars) (s : state) :
  series_inv seen v s ->
  exists v' s',
    series_loop rest v s = (Return v', s')
    /\ same_stores s s'
    /\ series_inv (seen ++ rest)%list v' s'.
Proof.
  revert seen v s. induction rest as [|dt rest IH]; intros seen v s Hinv.
  - exists v, s. rewrite app_nil_r.
    split; [reflexivity|]. split; [apply same_stores_refl | exact Hinv].
  - destruct (series_step_inv seen dt v s Hinv) as (v1 & s1 & Hstep & Hst1 & Hinv1).
    destruct (IH _ _ _ Hinv1) as (v2 & s2 & Hloop & Hst2 & Hinv2).
    exists v2, s2. simpl. unfold bind. rewrite Hstep. split; [exact Hloop|].
    split; [eapply same_stores_trans; eauto|].
    now rewrite <- app_assoc in Hinv2.
Qed.

(** ** Windows of one sample *)

Lemma process_series_single (topic : string) (dt : row) (s : state) :
  exists s',
    process_series topic [dt] s = (Raise StatisticsError, s')
    /\ same_stores s s'.
Proof.
  destruct (series_loop_inv [dt] [] series_init s (series_inv_init s))
    as (v & s1 & Hloop & Hst & Hinv).
  destruct Hinv as (Hdv & Hts & _).
  unfold process_series, bind. rewrite Hloop. simpl in Hdv, Hts.
  rewrite Hts, Hdv. simpl.
  eexists. split; [reflexivity|].
  eapply same_stores_trans; [exact Hst|]. repeat split.
Qed.

(** C2. A window of exactly one sample is not recovered: for every row
    and every state, [process_series] on the one-row list raises
    StatisticsError out of [statistics.stdev] and builds no record; and
    [archive_series] does invoke it on such a window (one sample at T,
    three-minute window, clock at T+181s): the exception leaves
    [archive_series], nothing reaches the datastore and the sample stays
    in the realtime database. *)
Theorem single_sample_window :
  (forall topic dt s,
      fst (process_series topic [dt] s) = Raise StatisticsError)
  /\ (let s := room1_state [room1_sample "a" 1000 9] [] 1181 in
      let out := archive_series "temp/room1" 3 s in
      fst out = Raise StatisticsError
      /\ db_datastore (snd out) = []
      /\ db_realtime (snd out) = db_realtime s).
Proof.
  split.
  - intros topic dt s.
    destruct (process_series_single topic dt s) as (s' & H & _).
    now rewrite H.
  - cbv zeta. repeat split; vm_compute; reflexivity.
Qed.

(** ** Partial failures of the migration *)

(** C1. The insert of the consolidated record fails (fourth request of
    the cycle: the two view queries and the device lookup succeed, the
    insert raises): [archive_series] logs the failure, then logs
    "Inserted measure" all the same, deletes the three source samples and
    answers True.  The record is in no store and the samples are gone. *)
Theorem insert_failure_still_deletes :
  let s := room1_state three_samples [false; false; false; true] 1181 in
  let out := archive_series "temp/room1" 3 s in
  fst out = Return true
  /\ db_datastore (snd out) = []
  /\ db_realtime (snd out) = []
  /\ List.map log_format (errors (log (snd out)))
     = ["Failed inserting measure: '{}'"; "Reason: {}"]
  /\ List.last (List.map log_format (log (snd out))) "" = "Inserted measure: '{}'".
Proof.
  cbv zeta. repeat split; vm_compute; reflexivity.
Qed.

(** C6. The record is inserted, the first sample is deleted, then the
    [get] of the second sample fails (seventh request of the cycle): the
    exception leaves the loop and [archive_series].  No record of the
    failure is logged, the second sample and the third, whose deletion
    was never tried, stay in the realtime database. *)
Theorem delete_failure_aborts :
  let s := room1_state three_samples
             [false; false; false; false; false; false; true] 1181 in
  let out := archive_series "temp/room1" 3 s in
  fst out = Raise HTTPError
  /\ List.map m_id (db_datastore (snd out)) = [("temp/room1", seconds 1060)]
  /\ List.map doc_id (db_realtime (snd out)) = ["b"; "c"]
  /\ errors (log (snd out)) = []
  /\ List.last (List.map log_format (log (snd out))) "" = "Inserted measure: '{}'".
Proof.
  cbv zeta. repeat split; vm_compute; reflexivity.
Qed.

(** ** The second loop of [process_series] and the record *)

Lemma accuracy_call_run dev t value s :
  exists s', accuracy_call dev (Some t) value s = (Return (accuracy dev t value), s')
    /\ same_stores s s'.
Proof.
  unfold accuracy_call, accuracy_log.
  destruct dev as [d|]; [destruct (d !! t ≫= accuracy_ranges)|];
    simpl; unfold bind, ret, modify; simpl; eexists; (split; [reflexivity|]);
    repeat split.
Qed.

Lemma uvalues_loop_run (v : series_vars) (t : string) (l : list (Q * string))
  (acc : list AffineScalarFunc) (s : state) :
  measure_type v = Some t ->
  devices_nonneg s = true ->
  (forall name d, devices v !! name = Some (Some d) -> db_devices s !! name = Some d) ->
  (forall vd, In vd l -> is_Some (devices v !! snd vd)) ->
  exists s',
    uvalues_loop v l acc s = (Return (acc ++ List.map (uvalue_of (devices v) t) l)%list, s')
    /\ same_stores s s'.
Proof.
  intros Hmt Hnn Hdb. revert acc s Hnn Hdb.
  induction l as [|[value dev] l IH]; intros acc s Hnn Hdb Hin.
  - exists s. simpl. rewrite app_nil_r. split; [reflexivity|apply same_stores_refl].
  - destruct (Hin (value, dev) (or_introl eq_refl)) as [od Hod]. simpl in Hod.
    destruct (accuracy_call_run od t value s) as (s1 & Hacc & Hst1).
    assert (Hge : 0 <= accuracy od t value).
    { eapply (accuracy_nonneg s dev); eauto. intros d ->. now apply Hdb. }
    assert (Hnn1 : devices_nonneg s1 = true).
    { unfold devices_nonneg in *. destruct Hst1 as (_ & _ & -> & _). exact Hnn. }
    assert (Hdb1 : forall name d, devices v !! name = Some (Some d) -> db_devices s1 !! name = Some d).
    { intros name d H. destruct Hst1 as (_ & _ & -> & _). now apply Hdb. }
    destruct (IH (acc ++ [{| nominal_value := value;
                             linear_combo := [(1, accuracy od t value)] |}])%list
                 s1 Hnn1 Hdb1)
      as (s2 & Hrun & Hst2).
    { intros vd Hvd. apply Hin. now right. }
    exists s2. split; [|eapply same_stores_trans; eauto].
    cbn [uvalues_loop]. unfold bind at 1. unfold uvalue_step. unfold bind at 1.
    rewrite Hod. unfold ret at 1. unfold bind at 1. rewrite Hmt, Hacc.
    unfold lift, ufloat.
    destruct (Qlt_bool (accuracy od t value) 0) eqn:E.
    { apply Qlt_bool_iff in E. exfalso. apply (Qlt_not_le _ _ E Hge). }
    rewrite Hrun. cbn [List.map]. unfold uvalue_of at 2. cbn [fst snd].
    rewrite Hod. cbn [default]. now rewrite <- app_assoc.
Qed.

Lemma usum_nominal (us : list AffineScalarFunc) (a : AffineScalarFunc) :
  nominal_value (fold_left uadd us a)
  = fold_left Qplus (List.map nominal_value us) (nominal_value a).
Proof.
  revert a. induction us as [|u us IH]; intros a; simpl; [reflexivity|].
  now rewrite IH.
Qed.

Lemma usum_combo (us : list AffineScalarFunc) (a : AffineScalarFunc) :
  linear_combo (fold_left uadd us a)
  = (linear_combo a ++ concat (List.map linear_combo us))%list.
Proof.
  revert a. induction us as [|u us IH]; intros a; simpl.
  - now rewrite app_nil_r.
  - rewrite IH. simpl. now rewrite <- app_assoc.
Qed.

Lemma uaverage_run (cache : gmap string (option device_doc)) (t : string)
  (data : list row) :
  data <> [] ->
  udiv (usum (List.map (uvalue_of cache t) (List.map value_dev data)))
       (Z.of_nat (List.length (List.map (uvalue_of cache t) (List.map value_dev data))))
  = Return (uaverage_of cache (Some t) data).
Proof.
  intros Hne. unfold udiv. rewrite !length_map.
  destruct (Z.eqb_spec (Z.of_nat (List.length data)) 0) as [E|_].
  { destruct data; [contradiction|discriminate]. }
  unfold uaverage_of, usum, Qlen. f_equal. f_equal.
  - rewrite usum_nominal. simpl. rewrite !map_map. reflexivity.
  - rewrite usum_combo. simpl. rewrite !map_map.
    induction data as [|dt data IH]; [contradiction|].
    clear IH Hne. generalize (inject_Z (Z.of_nat (List.length (dt :: data)))).
    intros q. induction (dt :: data) as [|x l IH]; [reflexivity|].
    cbn [List.map concat app]. unfold uvalue_of at 1. cbn [linear_combo List.map app fst snd].
    f_equal. exact IH.
Qed.

Lemma process_series_run (topic : string) (data : list row) (s : state) :
  (2 <= List.length data)%nat ->
  devices_nonneg s = true ->
  exists v s1 first_timestamp last_timestamp s',
    series_loop data series_init s = (Return v, s1)
    /\ series_inv data v s1
    /\ py_min (List.map row_timestamp data) = Return first_timestamp
    /\ py_max (List.map row_timestamp data) = Return last_timestamp
    /\ process_series topic data s
       = (Return (measure_of topic v first_timestamp last_timestamp
                    (uaverage_of (devices v) (measure_type v) data)), s')
    /\ same_stores s s'.
Proof.
  intros Hlen Hnn.
  destruct (series_loop_inv data [] series_init s (series_inv_init s))
    as (v & s1 & Hloop & Hst & Hinv).
  simpl in Hloop, Hinv.
  pose proof Hinv as (Hdv & Hts & Hmt & Hcache & Hdb & _ & _).
  assert (Hne : data <> []) by (destruct data; [simpl in Hlen; lia | discriminate]).
  assert (Hmin : exists x, py_min (List.map row_timestamp data) = Return x).
  { destruct data; [contradiction|]. simpl. eauto. }
  assert (Hmax : exists x, py_max (List.map row_timestamp data) = Return x).
  { destruct data; [contradiction|]. simpl. eauto. }
  destruct Hmin as (first_timestamp & Hmin). destruct Hmax as (last_timestamp & Hmax).
  assert (Hmean : exists x, mean (List.map fst (List.map value_dev data)) = Return x).
  { destruct data; [contradiction|]. simpl. eauto. }
  assert (Hsd : exists x, stdev (List.map fst (List.map value_dev data)) = Return x).
  { destruct data as [|d1 [|d2 rest]]; simpl in Hlen; try lia. simpl. eauto. }
  destruct Hmean as (mu & Hmean). destruct Hsd as (sd & Hsd).
  assert (Ht : exists t, measure_type v = Some t).
  { rewrite Hmt. destruct data; [contradiction|]. simpl. eauto. }
  destruct Ht as (t & Ht).
  exists v, s1, first_timestamp, last_timestamp.
  unfold process_series, bind. rewrite Hloop.
  unfold lift, logger, modify, ret.
  rewrite Hts, Hdv, Hmin, Hmax, Hmean, Hsd.
  match goal with
  | |- context [uvalues_loop ?a ?b ?c ?st] =>
      destruct (uvalues_loop_run a t b c st) as (s5 & Hu & Hst5)
  end.
  - exact Ht.
  - unfold devices_nonneg in *. simpl. destruct Hst as (_ & _ & -> & _). exact Hnn.
  - intros name d H. simpl. now apply Hdb.
  - intros vd Hvd. apply in_map_iff in Hvd as (dt & <- & Hdt). simpl. now apply Hcache.
  - rewrite Hu. cbn [app]. rewrite uaverage_run by exact Hne.
    unfold measure_of. rewrite Ht.
    eexists. split; [reflexivity|]. split; [exact Hinv|].
    split; [reflexivity|]. split; [reflexivity|]. split; [reflexivity|].
    eapply same_stores_trans; [exact Hst|].
    eapply same_stores_trans; [|eapply same_stores_trans; [exact Hst5|]];
      repeat split.
Qed.

Lemma fold_left_Qplus_acc (l : list Q) (a : Q) :
  fold_left Qplus l a == a + fold_left Qplus l 0.
Proof.
  revert a. induction l as [|x l IH]; intros a; simpl.
  - ring.
  - rewrite (IH (a + x)), (IH (0 + x)). ring.
Qed.

Lemma Qsum_cons (x : Q) (l : list Q) : Qsum (x :: l) == x + Qsum l.
Proof. unfold Qsum. simpl. rewrite fold_left_Qplus_acc. ring. Qed.

Lemma Qsum_scaled {A} (f g : A -> Q) (c : Q) (l : list A) :
  (forall a, f a == g a * c) ->
  Qsum (List.map f l) == Qsum (List.map g l) * c.
Proof.
  intros H. induction l as [|a l IH]; simpl.
  - unfold Qsum. simpl. ring.
  - rewrite !Qsum_cons, IH, H. ring.
Qed.

Lemma Qabs_square (x : Q) : Qabs x * Qabs x == x * x.
Proof.
  rewrite <- Qabs_Qmult. apply Qabs_pos.
  unfold Qle, Qmult. simpl. nia.
Qed.

Lemma Q2R_Qlen {A} (l : list A) : Q2R (Qlen l) = INR (List.length l).
Proof.
  unfold Qlen, Q2R. simpl. rewrite INR_IZR_INZ. field.
Qed.

Lemma std_dev_average {A} (sigma : A -> Q) (x : Q) (l : list A) :
  l <> [] ->
  std_dev {| nominal_value := x;
             linear_combo := List.map (fun a => (1 / Qlen l, sigma a)) l |}
  = (sqrt (Q2R (Qsum (List.map (fun a => (sigma a * sigma a)%Q) l)))
     / INR (List.length l))%R.
Proof.
  intros Hne.
  assert (Hpos : (0 < INR (List.length l))%R).
  { apply lt_0_INR. destruct l; [contradiction | simpl; lia]. }
  assert (Hq : ~ Qlen l == 0).
  { intros H. apply Qeq_eqR in H. rewrite Q2R_Qlen in H.
    replace (Q2R 0) with 0%R in H by (unfold Q2R; simpl; field). lra. }
  unfold std_dev, error_components. cbn [linear_combo]. rewrite !map_map.
  cbn [fst snd].
  assert (Hsum :
    Qsum (List.map (fun a => (if Qeq_bool (sigma a) 0 then 0
                              else Qabs (1 / Qlen l * sigma a))
                             * (if Qeq_bool (sigma a) 0 then 0
                                else Qabs (1 / Qlen l * sigma a))) l)
    == Qsum (List.map (fun a => sigma a * sigma a) l) * (/ Qlen l * / Qlen l)).
  { apply Qsum_scaled. intros a. destruct (Qeq_bool (sigma a) 0) eqn:E.
    - apply Qeq_bool_iff in E. rewrite E. ring.
    - rewrite Qabs_square. unfold Qdiv. ring. }
  rewrite (Qeq_eqR _ _ Hsum).
  rewrite Q2R_mult, Q2R_mult, Q2R_inv by exact Hq. rewrite Q2R_Qlen.
  replace (Q2R (Qsum (List.map (fun a => (sigma a * sigma a)%Q) l))
           * (/ INR (List.length l) * / INR (List.length l)))%R
    with (Q2R (Qsum (List.map (fun a => (sigma a * sigma a)%Q) l))
          / (INR (List.length l) * INR (List.length l)))%R
    by (field; lra).
  rewrite sqrt_div_alt by nra.
  rewrite sqrt_square by lra. reflexivity.
Qed.

(** ** Extremes, stored value and stored accuracy *)

Lemma first_min_lower (data : list row) (lo : Q) (t : option datetime) :
  first_min data {| ex_value := Some lo; ex_timestamp := t |} ->
  Forall (fun dt => lo <= row_value dt) data.
Proof.
  intros (pre & d & post & -> & He & Hpre & Hpost). injection He as -> _.
  apply Forall_app. split.
  - eapply List.Forall_impl; [|exact Hpre]. simpl. intros x Hx. now apply Qlt_le_weak.
  - constructor; [apply Qle_refl | exact Hpost].
Qed.

Lemma first_max_upper (data : list row) (hi : Q) (t : option datetime) :
  first_max data {| ex_value := Some hi; ex_timestamp := t |} ->
  Forall (fun dt => row_value dt <= hi) data.
Proof.
  intros (pre & d & post & -> & He & Hpre & Hpost). injection He as -> _.
  apply Forall_app. split.
  - eapply List.Forall_impl; [|exact Hpre]. simpl. intros x Hx. now apply Qlt_le_weak.
  - constructor; [apply Qle_refl | exact Hpost].
Qed.

Lemma extreme_inv_nonempty (P : list row -> extreme -> Prop) (data : list row)
  (value : option Q) (timestamp : option datetime) :
  data <> [] ->
  extreme_inv P data value timestamp ->
  P data {| ex_value := value; ex_timestamp := timestamp |}.
Proof. destruct data; [contradiction | intros _ H; exact H]. Qed.






(** ** Lexicographic comparisons *)

Lemma lawful_refl {T} (cmp : T -> T -> comparison) (x : T) :
  lawful cmp -> cmp x x = Eq.
Proof.
  intros (Ha & _ & _). specialize (Ha x x). destruct (cmp x x); simpl in Ha; congruence.
Qed.

Section Lexicographic.

Context {A B : Type}.
Variable cmpA : A -> A -> comparison.
Variable cmpB : B -> B -> comparison.
Hypothesis HA : lawful cmpA.
Hypothesis HB : lawful cmpB.

Lemma lawful_lex : lawful (lex cmpA cmpB).
Proof.
  pose proof (fun x => lawful_refl cmpA x HA) as Hrefl.
  destruct HA as (Aa & Ae & At). destruct HB as (Ba & Be & Bt).
  unfold lex. repeat split.
  - intros [a b] [a' b']; simpl. rewrite (Aa a a'), (Ba b b').
    destruct (cmpA a' a); reflexivity.
  - intros [a b] [a' b']; simpl. destruct (cmpA a a') eqn:E; try discriminate.
    intros H. apply Ae in E. apply Be in H. congruence.
  - intros [a b] [a' b'] [a'' b'']; simpl.
    destruct (cmpA a a') eqn:E1; try discriminate;
      destruct (cmpA a' a'') eqn:E2; try discriminate; intros H1 H2.
    + apply Ae in E1, E2. subst. rewrite Hrefl. eauto.
    + apply Ae in E1. subst. now rewrite E2.
    + apply Ae in E2. subst. now rewrite E1.
    + now rewrite (At _ _ _ E1 E2).
Qed.

End Lexicographic.

Lemma leb_of_total {T} (cmp : T -> T -> comparison) (x y : T) :
  lawful cmp -> leb_of cmp x y = false -> leb_of cmp y x = true.
Proof.
  intros (Ha & _ & _). unfold leb_of. rewrite (Ha y x).
  destruct (cmp x y); simpl; congruence.
Qed.

Lemma leb_of_trans {T} (cmp : T -> T -> comparison) (x y z : T) :
  lawful cmp -> leb_of cmp x y = true -> leb_of cmp y z = true ->
  leb_of cmp x z = true.
Proof.
  intros (Ha & He & Ht). unfold leb_of.
  destruct (cmp x y) eqn:E1; try discriminate;
    destruct (cmp y z) eqn:E2; try discriminate; intros _ _.
  - apply He in E1, E2. subst. destruct (cmp z z) eqn:E; try reflexivity.
    specialize (Ha z z). rewrite E in Ha. discriminate.
  - apply He in E1. subst. now rewrite E2.
  - apply He in E2. subst. now rewrite E1.
  - now rewrite (Ht _ _ _ E1 E2).
Qed.

Lemma lawful_string : lawful String.compare.
Proof.
  repeat split.
  - apply String.compare_antisym.
  - apply String.compare_eq_iff.
  - intros x y z H1 H2.
    apply String_as_OT.cmp_lt in H1, H2. apply String_as_OT.cmp_lt.
    eapply String_as_OT.lt_trans; eauto.
Qed.

Lemma lawful_Z : lawful Z.compare.
Proof.
  repeat split.
  - intros x y. apply Z.compare_antisym.
  - apply Z.compare_eq.
  - intros x y z H1 H2. rewrite Z.compare_lt_iff in *. lia.
Qed.

(** ** The view index and the window *)

Lemma lawful_row_key :
  lawful (lex (lex String.compare Z.compare) String.compare).
Proof.
  apply lawful_lex; [apply lawful_lex|]; auto using lawful_string, lawful_Z.
Qed.

Lemma row_leb_lex (a b : row) :
  row_leb a b
  = leb_of (lex (lex String.compare Z.compare) String.compare)
           (row_key a, row_id a) (row_key b, row_id b).
Proof.
  unfold row_leb, collate, key_of_row, leb_of, lex, String.leb, datetime.
  cbn [fst snd].
  destruct (String.compare (fst _) (fst _)); try reflexivity.
  destruct (Z.compare _ _); reflexivity.
Qed.

Lemma row_le_total (a b : row) : row_leb a b = false -> row_le b a.
Proof.
  unfold row_le. rewrite !row_leb_lex. apply leb_of_total, lawful_row_key.
Qed.

Lemma row_le_trans (a b c : row) : row_le a b -> row_le b c -> row_le a c.
Proof.
  unfold row_le. rewrite !row_leb_lex. apply leb_of_trans, lawful_row_key.
Qed.

Lemma in_insert_row (x r : row) (l : list row) :
  In x (insert_row r l) <-> x = r \/ In x l.
Proof.
  induction l as [|y l IH]; simpl.
  - intuition.
  - destruct (row_leb r y); simpl; [intuition|]. rewrite IH. intuition.
Qed.

Lemma in_index_rows (r : row) (docs : list sample) :
  In r (index_rows docs) <-> exists d, In d docs /\ r = row_of d.
Proof.
  induction docs as [|d docs IH]; simpl.
  - split; [intros [] | intros (d & [] & _)].
  - rewrite in_insert_row, IH. split.
    + intros [->|(d' & Hd' & ->)]; eauto.
    + intros (d' & [<-|Hd'] & ->); eauto.
Qed.

Lemma insert_row_sorted (r : row) (l : list row) :
  StronglySorted row_le l -> StronglySorted row_le (insert_row r l).
Proof.
  induction 1 as [|x l Hs IH Hx]; simpl.
  - repeat constructor.
  - destruct (row_leb r x) eqn:E.
    + constructor; [now constructor|]. constructor; [exact E|].
      eapply List.Forall_impl; [|exact Hx]. intros y Hy.
      eapply row_le_trans; eauto.
    + constructor; [exact IH|]. apply List.Forall_forall. intros y Hy.
      apply in_insert_row in Hy as [->|Hy].
      * now apply row_le_total.
      * rewrite List.Forall_forall in Hx. now apply Hx.
Qed.

Lemma index_rows_sorted (docs : list sample) :
  StronglySorted row_le (index_rows docs).
Proof.
  induction docs as [|d docs IH]; simpl; [constructor|].
  now apply insert_row_sorted.
Qed.

Lemma sorted_filter_head (f : row -> bool) (l : list row) :
  StronglySorted row_le l ->
  match List.filter f l with
  | [] => forall x, In x l -> f x = false
  | h :: _ => In h l /\ f h = true
              /\ forall x, In x l -> f x = true -> x = h \/ row_le h x
  end.
Proof.
  induction 1 as [|a l Hs IH Ha]; simpl.
  - intros x [].
  - destruct (f a) eqn:E.
    + split; [now left|]. split; [exact E|].
      intros x [<-|Hx] _; [now left|]. right.
      rewrite List.Forall_forall in Ha. now apply Ha.
    + destruct (List.filter f l) as [|h t].
      * intros x [<-|Hx]; [exact E | now apply IH].
      * destruct IH as (Hin & Hf & Hmin). split; [now right|]. split; [exact Hf|].
        intros x [<-|Hx] Hfx; [congruence | now apply Hmin].
Qed.

(** The key [[topic]] is at or below the key of a row exactly when the
    topic of the row is [topic] or sorts after it. *)
Lemma startkey_topic (topic : string) (r : row) :
  key_leb (topic, None) (key_of_row r)
  = match String.compare topic (fst (row_key r)) with Gt => false | _ => true end.
Proof.
  unfold key_leb, collate, key_of_row. simpl.
  destruct (String.compare topic (fst (row_key r))); reflexivity.
Qed.

Lemma compare_refl (a : string) : String.compare a a = Eq.
Proof. apply (lawful_refl String.compare a lawful_string). Qed.

(** The first row the view answers for [startkey = [topic]] is the
    earliest sample of the topic, when the topic has samples. *)
Lemma first_row_earliest (topic : string) (docs : list sample) (start : datetime) :
  earliest topic docs start ->
  exists r rest,
    select_rows {| startkey := (topic, None); endkey := None; limit := Some 1%nat |} docs
    = r :: rest
    /\ row_key r = (topic, start).
Proof.
  intros ((d0 & Hd0 & Ht0 & Hs0) & Hmin).
  unfold select_rows, in_key_range. cbn [startkey endkey limit].
  pose proof (sorted_filter_head
                (fun r => key_leb (topic, None) (key_of_row r) && true)
                (index_rows docs) (index_rows_sorted docs)) as H.
  destruct (List.filter _ (index_rows docs)) as [|h t] eqn:E.
  - exfalso. specialize (H (row_of d0)).
    rewrite startkey_topic in H. simpl in H. rewrite Ht0, compare_refl in H.
    discriminate H. apply in_index_rows. eauto.
  - exists h, []. split; [reflexivity|].
    destruct H as (Hin & Hf & Hle).
    apply in_index_rows in Hin as (dh & Hdh & ->).
    rewrite andb_true_r, startkey_topic in Hf. simpl in Hf. simpl.
    assert (Hd0' : In (row_of d0) (index_rows docs)) by (apply in_index_rows; eauto).
    assert (Hf0 : key_leb (topic, None) (key_of_row (row_of d0)) && true = true).
    { rewrite andb_true_r, startkey_topic. simpl. now rewrite Ht0, compare_refl. }
    specialize (Hle _ Hd0' Hf0).
    assert (Htopic : doc_topic dh = topic).
    { destruct (String.compare topic (doc_topic dh)) eqn:C; try discriminate.
      - symmetry. now apply String.compare_eq_iff.
      - exfalso. destruct Hle as [Heq|Hle].
        + apply (f_equal (fun r => fst (row_key r))) in Heq. simpl in Heq.
          rewrite <- Heq, Ht0, compare_refl in C. discriminate.
        + unfold row_le, row_leb, collate, key_of_row in Hle. simpl in Hle.
          rewrite Ht0, String.compare_antisym, C in Hle. discriminate. }
    f_equal; [exact Htopic|].
    apply Z.le_antisymm.
    + destruct Hle as [Heq|Hle].
      * apply (f_equal (fun r => snd (row_key r))) in Heq. simpl in Heq. lia.
      * unfold row_le, row_leb, collate, key_of_row in Hle. simpl in Hle.
        rewrite Ht0, Htopic, compare_refl in Hle.
        destruct (Z.compare_spec (doc_timestamp dh) (doc_timestamp d0));
          try lia; discriminate.
    + now apply Hmin.
Qed.

Lemma in_window_range (topic : string) (start stop : datetime) (d : sample) :
  in_key_range {| startkey := (topic, Some start);
                  endkey := Some (topic, Some stop); limit := None |} (row_of d)
  = true
  <-> doc_topic d = topic /\ (start <= doc_timestamp d <= stop)%Z.
Proof.
  unfold in_key_range, key_leb, collate, key_of_row. cbn [startkey endkey fst snd row_of row_key].
  rewrite (String.compare_antisym (doc_topic d) topic).
  destruct (String.compare topic (doc_topic d)) eqn:C; cbn [CompOpp].
  - apply String.compare_eq_iff in C. subst.
    destruct (Z.compare_spec start (doc_timestamp d));
      destruct (Z.compare_spec (doc_timestamp d) stop); simpl;
      intuition (try lia; try discriminate).
  - simpl. split; [discriminate|]. intros [<- _]. rewrite compare_refl in C. discriminate.
  - simpl. split; [discriminate|]. intros [<- _]. rewrite compare_refl in C. discriminate.
Qed.

Lemma select_window (topic : string) (start stop : datetime) (docs : list sample) :
  window_rows topic start stop docs
    (select_rows {| startkey := (topic, Some start);
                    endkey := Some (topic, Some stop); limit := None |} docs).
Proof.
  intros r. unfold select_rows. cbn [limit]. rewrite filter_In, in_index_rows. split.
  - intros ((d & Hd & ->) & Hr). apply in_window_range in Hr. eauto.
  - intros (d & Hd & -> & Hr). split; [eauto|]. now apply in_window_range.
Qed.

Lemma filter_none {A} (f : A -> bool) (l : list A) :
  (forall x, In x l -> f x = false) -> List.filter f l = [].
Proof.
  induction l as [|a l IH]; intros H; simpl; [reflexivity|].
  rewrite (H a (or_introl eq_refl)). apply IH. intros x Hx. apply H. now right.
Qed.

Lemma select_first_none (topic : string) (docs : list sample) :
  (forall d, In d docs -> String.ltb (doc_topic d) topic = true) ->
  select_rows {| startkey := (topic, None); endkey := None; limit := Some 1%nat |} docs
  = [].
Proof.
  intros H. unfold select_rows, in_key_range. cbn [startkey endkey limit].
  rewrite filter_none; [reflexivity|].
  intros r Hr. apply in_index_rows in Hr as (d & Hd & ->).
  rewrite andb_true_r, startkey_topic. simpl.
  specialize (H d Hd). unfold String.ltb in H.
  rewrite String.compare_antisym.
  destruct (String.compare (doc_topic d) topic); try discriminate. reflexivity.
Qed.

(** [get_first_doc] answers the timestamp of the earliest sample of the
    topic when the query goes through. *)
Lemma get_first_doc_earliest (topic : string) (s : state) (start : datetime) :
  hd false (faults s) = false ->
  earliest topic (db_realtime s) start ->
  exists s',
    get_first_doc topic s = (Return (Some start), s')
    /\ same_stores s s' /\ faults s' = tl (faults s).
Proof.
  intros Hf He.
  destruct (first_row_earliest topic (db_realtime s) start He) as (r & rest & Hsel & Hkey).
  unfold get_first_doc, bind, attempt, ddoc_view, request, logger, modify, ret.
  destruct (faults s) as [|[|] fs] eqn:Ef; try discriminate; cbn [rows set_faults db_realtime].
  - rewrite Hsel. cbn. rewrite Hkey. eexists. split; [reflexivity|].
    split; [repeat split|]. cbn. now rewrite Ef.
  - rewrite Hsel. cbn. rewrite Hkey. eexists. split; [reflexivity|].
    split; [repeat split|]. reflexivity.
Qed.

(** [get_first_doc] answers None, whatever the outcome of the query, when
    every sample of the store belongs to a topic that sorts before
    [topic]. *)
Lemma get_first_doc_nothing (topic : string) (s : state) :
  (forall d, In d (db_realtime s) -> String.ltb (doc_topic d) topic = true) ->
  exists s',
    get_first_doc topic s = (Return None, s') /\ same_stores s s'.
Proof.
  intros H. pose proof (select_first_none topic (db_realtime s) H) as Hsel.
  unfold get_first_doc, bind, attempt, ddoc_view, request, logger, modify, ret.
  destruct (faults s) as [|[|] fs] eqn:Ef; cbn [rows set_faults db_realtime].
  - rewrite Hsel. eexists. split; [reflexivity|]. repeat split.
  - eexists. split; [reflexivity|]. repeat split.
  - rewrite Hsel. eexists. split; [reflexivity|]. repeat split.
Qed.


(** The earliest of the three samples is the one at T. *)
Lemma three_samples_earliest :
  earliest "temp/room1" three_samples (seconds 1000).
Proof.
  split.
  - exists (room1_sample "a" 1000 9). repeat split. now left.
  - intros d [<-|[<-|[<-|[]]]] _; vm_compute; discriminate.
Qed.



(** C10 (amended). When the realtime database holds no sample of the
    topic nor of any topic that sorts after it (every sample belongs to a
    topic that sorts before; in particular when the database is empty),
    [get_first_doc] answers None whether the query fails or not, the
    addition in [get_measures_slot] raises TypeError, and the exception
    leaves [archive_series] uncaught; the stores are not touched. *)
Theorem absent_topic_type_error (topic : string) (timespan : Z) (s : state) :
  (forall d, In d (db_realtime s) -> String.ltb (doc_topic d) topic = true) ->
  exists s',
    get_first_doc topic s = (Return None, s')
    /\ get_measures_slot topic timespan s = (Raise TypeError, s')
    /\ archive_series topic timespan s = (Raise TypeError, s')
    /\ same_stores s s'.
Proof.
  intros H. destruct (get_first_doc_nothing topic s H) as (s' & Hfd & Hst).
  exists s'. split; [exact Hfd|].
  assert (Hgms : get_measures_slot topic timespan s = (Raise TypeError, s')).
  { unfold get_measures_slot, bind. rewrite Hfd. reflexivity. }
  split; [exact Hgms|]. split; [|exact Hst].
  unfold archive_series, bind. now rewrite Hgms.
Qed.

(** The topic temp/room2 against a store that only holds samples of
    temp/room1. *)
Lemma absent_topic_type_error_witness :
  exists s',
    get_first_doc "temp/room2" (room1_state three_samples [] 1181) = (Return None, s')
    /\ get_measures_slot "temp/room2" 3 (room1_state three_samples [] 1181)
       = (Raise TypeError, s')
    /\ archive_series "temp/room2" 3 (room1_state three_samples [] 1181)
       = (Raise TypeError, s')
    /\ same_stores (room1_state three_samples [] 1181) s'.
Proof.
  apply (absent_topic_type_error "temp/room2" 3 (room1_state three_samples [] 1181)).
  intros d [<-|[<-|[<-|[]]]]; reflexivity.
Defined.

(** C10 as stated fails.  The topic temp/attic has no sample, the store
    holds samples of temp/room1, which sorts after it.  The lookup with
    [startkey = [topic]] and no [endkey] answers the first row of that
    other topic, so [get_first_doc] answers its timestamp T, not None.
    Before T+180s [get_measures_slot] answers None and [archive_series]
    False, a handled outcome, and no TypeError is raised.  After T+180s
    the answer is the empty list of rows and [process_series] raises
    ValueError on [min(timestamps)]. *)
Lemma absent_topic_not_ready :
  let s := room1_state three_samples [] 1100 in
  forallb (fun d => negb (String.eqb (doc_topic d) "temp/attic")) (db_realtime s) = true
  /\ fst (get_first_doc "temp/attic" s) = Return (Some (seconds 1000))
  /\ fst (get_measures_slot "temp/attic" 3 s) = Return None
  /\ fst (archive_series "temp/attic" 3 s) = Return false
  /\ fst (get_measures_slot "temp/attic" 3 (room1_state three_samples [] 1181))
     = Return (Some [])
  /\ fst (archive_series "temp/attic" 3 (room1_state three_samples [] 1181))
     = Raise ValueError.
Proof.
  cbv zeta. repeat split; vm_compute; reflexivity.
Qed.

End DsArchiverFacts.

(** * Properties of the configuration reading *)

Module ConfigurationFacts.
Import Configuration ConfigurationSpec.

Section VerifyParamsFacts.

Context {S : Type}.
Variable logger : level -> string -> option string -> M S unit.
Variable logged : S -> list log_record.
Variable kept : S -> S -> Prop.
Hypothesis kept_refl : forall s, kept s s.
Hypothesis kept_trans : forall s1 s2 s3, kept s1 s2 -> kept s2 s3 -> kept s1 s3.
Hypothesis logger_appends :
  forall l f a s, exists s',
    logger l f a s = (Return tt, s')
    /\ logged s' = (logged s ++ [LogRecord l f a])%list
    /\ kept s s'.

Lemma check_params_run (log_config : gmap string string)
  (req_params : list string) (ok : bool) (s : S) :
  exists s',
    check_params logger log_config req_params ok s
    = (Return (ok && match missing_params log_config req_params with
                     | [] => true | _ => false end), s')
    /\ errors (logged s')
       = (errors (logged s)
          ++ List.map (fun p => LogRecord ERROR "Parameter '{}' not available" (Some p))
                      (missing_params log_config req_params))%list
    /\ kept s s'.
Proof.
  revert ok s. induction req_params as [|p rest IH]; intros ok s.
  - exists s. simpl. rewrite andb_true_r, app_nil_r. repeat split; auto.
  - cbn [check_params missing_params List.filter]. unfold bind at 1, check_param.
    destruct (log_config !! p) eqn:E.
    + unfold ret at 1. destruct (IH ok s) as (s' & Hrun & Hlog & Hk).
      exists s'. split; [exact Hrun|]. split; [exact Hlog | exact Hk].
    + unfold bind at 1.
      destruct (logger_appends ERROR "Parameter '{}' not available" (Some p) s)
        as (s1 & Hl & Hlog1 & Hk1).
      rewrite Hl. unfold ret at 1.
      destruct (IH false s1) as (s' & Hrun & Hlog & Hk).
      exists s'. split; [|split].
      * rewrite Hrun. simpl. now rewrite andb_false_r.
      * rewrite Hlog, Hlog1. unfold errors. rewrite List.filter_app. simpl.
        now rewrite <- app_assoc.
      * eauto.
Qed.

Lemma verify_params_run (ini : ini_file) (section : string)
  (req_params : list string) (s : S) :
  exists s',
    verify_params logger ini section req_params s
    = (Return match ini !! section with
              | None => false
              | Some log_config =>
                  match missing_params log_config req_params with
                  | [] => true | _ => false end
              end, s')
    /\ errors (logged s')
       = (errors (logged s)
          ++ match ini !! section with
             | None => [LogRecord ERROR "[{}] section not available" (Some section)]
             | Some log_config =>
                 List.map (fun p => LogRecord ERROR "Parameter '{}' not available" (Some p))
                          (missing_params log_config req_params)
             end)%list
    /\ kept s s'.
Proof.
  unfold verify_params. destruct (ini !! section) as [cfg|] eqn:E.
  - unfold bind at 1.
    destruct (logger_appends INFO "Verifying section '{}'" (Some section) s)
      as (s1 & Hl & Hlog1 & Hk1).
    rewrite Hl. unfold bind at 1.
    destruct (check_params_run cfg req_params true s1) as (s' & Hrun & Hlog & Hk).
    rewrite Hrun. exists s'. split; [|split].
    + simpl. destruct (missing_params cfg req_params); reflexivity.
    + rewrite Hlog, Hlog1. unfold errors. rewrite List.filter_app. simpl.
      now rewrite app_nil_r.
    + eauto.
  - unfold bind at 1.
    destruct (logger_appends ERROR "[{}] section not available" (Some section) s)
      as (s1 & Hl & Hlog1 & Hk1).
    rewrite Hl. exists s1. split; [reflexivity|]. split; [|exact Hk1].
    rewrite Hlog1. unfold errors. rewrite List.filter_app. reflexivity.
Qed.

End VerifyParamsFacts.

Lemma missing_params_nil (log_config : gmap string string) (req_params : list string) :
  missing_params log_config req_params = []
  <-> forall p, In p req_params -> is_Some (log_config !! p).
Proof.
  unfold missing_params. induction req_params as [|p rest IH]; simpl.
  - split; [intros _ p [] | reflexivity].
  - destruct (log_config !! p) eqn:E.
    + rewrite IH. split.
      * intros H q [<-|Hq]; [rewrite E; eauto | now apply H].
      * intros H q Hq. apply H. now right.
    + split; [discriminate|]. intros H.
      destruct (H p (or_introl eq_refl)) as [x Hx]. congruence.
Qed.

Lemma conf_logger_appends (l : level) (f : string) (a : option string) (e : conf_env) :
  exists e',
    conf_logger l f a e = (Return tt, e')
    /\ conf_log e' = (conf_log e ++ [LogRecord l f a])%list
    /\ same_files e e'.
Proof. eexists. repeat split. Qed.

Lemma same_files_trans (e1 e2 e3 : conf_env) :
  same_files e1 e2 -> same_files e2 e3 -> same_files e1 e3.
Proof. intros [A B] [C D]. split; congruence. Qed.

Lemma verify_params_conf (ini : ini_file) (section : string)
  (req_params : list string) (e : conf_env) :
  exists e',
    verify_params conf_logger ini section req_params e
    = (Return match ini !! section with
              | None => false
              | Some log_config =>
                  match missing_params log_config req_params with
                  | [] => true | _ => false end
              end, e')
    /\ errors (conf_log e')
       = (errors (conf_log e)
          ++ match ini !! section with
             | None => [LogRecord ERROR "[{}] section not available" (Some section)]
             | Some log_config =>
                 List.map (fun p => LogRecord ERROR "Parameter '{}' not available" (Some p))
                          (missing_params log_config req_params)
             end)%list
    /\ same_files e e'.
Proof.
  apply (verify_params_run conf_logger conf_log same_files).
  - intros e0. split; reflexivity.
  - apply same_files_trans.
  - apply conf_logger_appends.
Qed.

Lemma has_topic_true (k : string) (topics : topics_dict) :
  has_topic k topics = true <-> exists rest, In (k, rest) topics.
Proof.
  unfold has_topic. rewrite existsb_exists. split.
  - intros ([k' rest] & Hin & Heq). simpl in Heq.
    apply String.eqb_eq in Heq. subst. eauto.
  - intros (rest & Hin). exists (k, rest). split; [exact Hin|]. simpl.
    apply String.eqb_refl.
Qed.

Lemma has_topic_false (k : string) (topics : topics_dict) :
  has_topic k topics = false <-> ~ In k (List.map fst topics).
Proof.
  rewrite <- not_true_iff_false, has_topic_true. apply not_iff_compat.
  rewrite in_map_iff. split.
  - intros (rest & H). exists (k, rest). auto.
  - intros ([k' rest] & <- & H). eauto.
Qed.

Lemma listed_skip (k : string) (rest : gmap string (option string))
  (r : csv_row) (rows : list csv_row) :
  strip_spaces (csv_topic r) <> k ->
  listed k rest (r :: rows) <-> listed k rest rows.
Proof.
  intros Hne. split.
  - intros (pre & r0 & post & Hsplit & Hk & Hrest & Hpre).
    destruct pre as [|p pre]; simpl in Hsplit; injection Hsplit as -> ->.
    + contradiction.
    + inversion Hpre; subst. exists pre, r0, post. auto.
  - intros (pre & r0 & post & -> & Hk & Hrest & Hpre).
    exists (r :: pre), r0, post. repeat split; auto.
Qed.

Lemma listed_here (rest : gmap string (option string)) (r : csv_row)
  (rows : list csv_row) :
  listed (strip_spaces (csv_topic r)) rest (r :: rows) <-> rest = csv_rest r.
Proof.
  split.
  - intros (pre & r0 & post & Hsplit & Hk & Hrest & Hpre).
    destruct pre as [|p pre]; simpl in Hsplit; injection Hsplit as -> ->.
    + now symmetry.
    + inversion Hpre; subst. contradiction.
  - intros ->. exists [], r, rows. repeat split; auto.
Qed.

Lemma regular_topic_cases (t : string) :
  String.eqb t "topic" = false ->
  match t with
  | EmptyString => True
  | String c _ => if Ascii.eqb c "#" then ~ regular_topic t else regular_topic t
  end.
Proof.
  intros Hh. apply String.eqb_neq in Hh. destruct t as [|c r]; [exact I|].
  destruct (Ascii.eqb_spec c "#") as [->|Hc].
  - intros (_ & c' & r' & [= <- <-] & Hc). contradiction.
  - split; [exact Hh|]. eauto.
Qed.

Lemma errors_quiet (l : list log_record) (r : log_record) :
  log_level r <> ERROR -> errors (l ++ [r]) = errors l.
Proof.
  intros H. unfold errors. rewrite List.filter_app. simpl.
  destruct (log_level r); try contradiction; apply app_nil_r.
Qed.

Lemma catalog_skipped (r : csv_row) (rows : list csv_row)
  (topics0 topics : topics_dict) :
  (forall k, regular_topic k -> has_topic k topics0 = false ->
             strip_spaces (csv_topic r) <> k) ->
  (forall k rest,
      In (k, rest) topics
      <-> In (k, rest) topics0
          \/ (regular_topic k /\ has_topic k topics0 = false /\ listed k rest rows)) ->
  forall k rest,
    In (k, rest) topics
    <-> In (k, rest) topics0
        \/ (regular_topic k /\ has_topic k topics0 = false
            /\ listed k rest (r :: rows)).
Proof.
  intros Hne Hin k rest. rewrite Hin. split.
  - intros [H|(Hk & Hno & Hl)]; [now left|]. right.
    split; [exact Hk|]. split; [exact Hno|].
    apply (proj2 (listed_skip k rest r rows (Hne k Hk Hno))). exact Hl.
  - intros [H|(Hk & Hno & Hl)]; [now left|]. right.
    split; [exact Hk|]. split; [exact Hno|].
    apply (proj1 (listed_skip k rest r rows (Hne k Hk Hno))). exact Hl.
Qed.

(** The loop over the rows of the topic file, when no row has an empty
    topic. *)
Lemma catalog_loop_run (rows : list csv_row) (topics0 : topics_dict) (e : conf_env) :
  Forall (fun r => strip_spaces (csv_topic r) <> "") rows ->
  NoDup (List.map fst topics0) ->
  exists topics e',
    catalog_loop rows topics0 e = (Return topics, e')
    /\ files e' = files e /\ home e' = home e
    /\ errors (conf_log e') = errors (conf_log e)
    /\ NoDup (List.map fst topics)
    /\ forall k rest,
         In (k, rest) topics
         <-> In (k, rest) topics0
             \/ (regular_topic k /\ has_topic k topics0 = false
                 /\ listed k rest rows).
Proof.
  intros Hrows. revert topics0 e.
  induction Hrows as [|r rows Hr _ IH]; intros topics0 e Hnd.
  - exists topics0, e. do 5 (split; [auto|]). intros k rest. split.
    + intros H. now left.
    + intros [H|(_ & _ & pre & r & post & Hsplit & _)]; [exact H|].
      destruct pre; discriminate.
  - cbn [catalog_loop]. unfold bind at 1, catalog_step.
    pose proof (regular_topic_cases (strip_spaces (csv_topic r))) as Hreg.
    destruct (String.eqb (strip_spaces (csv_topic r)) "topic") eqn:Eh.
    + (* header *)
      apply String.eqb_eq in Eh. unfold bind at 1, conf_logger, modify, ret at 1.
      match goal with
      | |- context [catalog_loop rows topics0 ?e1] =>
          destruct (IH topics0 e1 Hnd) as (topics & e' & Hrun & Hf & Hh & Hlog & Hnd' & Hin)
      end.
      exists topics, e'. split; [exact Hrun|].
      do 2 (split; [assumption|]).
           split; [rewrite Hlog; apply errors_quiet; discriminate|].
           split; [assumption|].
      apply catalog_skipped; [|exact Hin].
      intros k (Hk & _) _ <-. contradiction.
    + specialize (Hreg eq_refl).
      destruct (strip_spaces (csv_topic r)) as [|c t] eqn:Et; [contradiction|].
      destruct (Ascii.eqb c "#") eqn:Ec.
      * (* comment *)
        unfold bind at 1, conf_logger, modify, ret at 1.
        match goal with
        | |- context [catalog_loop rows topics0 ?e1] =>
            destruct (IH topics0 e1 Hnd) as (topics & e' & Hrun & Hf & Hh & Hlog & Hnd' & Hin)
        end.
        exists topics, e'. split; [exact Hrun|].
        do 2 (split; [assumption|]).
           split; [rewrite Hlog; apply errors_quiet; discriminate|].
           split; [assumption|].
        apply catalog_skipped; [|exact Hin]. rewrite Et.
        intros k Hk _ <-. contradiction.
      * destruct (has_topic (String c t) topics0) eqn:Ehas.
        -- (* duplicate *)
           unfold bind at 1, conf_logger, modify, ret at 1.
           match goal with
           | |- context [catalog_loop rows topics0 ?e1] =>
               destruct (IH topics0 e1 Hnd) as (topics & e' & Hrun & Hf & Hh & Hlog & Hnd' & Hin)
           end.
           exists topics, e'. split; [exact Hrun|].
           do 2 (split; [assumption|]).
           split; [rewrite Hlog; apply errors_quiet; discriminate|].
           split; [assumption|].
           apply catalog_skipped; [|exact Hin]. rewrite Et.
           intros k _ Hno <-. congruence.
        -- (* a new topic *)
           unfold bind at 1, conf_logger, modify, ret at 1.
           assert (Hnd1 : NoDup (List.map fst (topics0 ++ [(String c t, csv_rest r)])%list)).
           { rewrite map_app. simpl. apply NoDup_app. split; [exact Hnd|]. split.
             - intros x Hx Hx'. apply list_elem_of_In in Hx, Hx'.
               destruct Hx' as [<-|[]]. apply has_topic_false in Ehas. contradiction.
             - apply NoDup_singleton. }
           match goal with
           | |- context [catalog_loop rows ?t1 ?e1] =>
               destruct (IH t1 e1 Hnd1) as (topics & e' & Hrun & Hf & Hh & Hlog & Hnd' & Hin)
           end.
           exists topics, e'. split; [exact Hrun|].
           do 2 (split; [assumption|]).
           split; [rewrite Hlog; apply errors_quiet; discriminate|].
           split; [assumption|].
           intros k rest. rewrite Hin. split.
           ++ intros [H|(Hk & Hno & Hl)].
              ** apply in_app_or in H as [H|[[= <- <-]|[]]]; [now left|]. right.
                 split; [exact Hreg|]. split; [exact Ehas|].
                 rewrite <- Et. now apply listed_here.
              ** right. split; [exact Hk|].
                 assert (Hne : String c t <> k).
                 { intros <-. apply has_topic_false in Hno. apply Hno.
                   rewrite map_app. apply in_or_app. right. now left. }
                 split.
                 --- apply has_topic_false. apply has_topic_false in Hno.
                     intros Hc. apply Hno. rewrite map_app. apply in_or_app. now left.
                 --- rewrite <- Et in Hne.
                     apply (proj2 (listed_skip k rest r rows Hne)). exact Hl.
           ++ intros [H|(Hk & Hno & Hl)].
              ** left. apply in_or_app. now left.
              ** destruct (String.eqb_spec (String c t) k) as [<-|Hne].
                 --- left. apply in_or_app. right. left. f_equal.
                     rewrite <- Et in Hl. apply listed_here in Hl. now symmetry.
                 --- right. split; [exact Hk|]. split.
                     +++ apply has_topic_false. apply has_topic_false in Hno.
                         rewrite map_app. intros Hc. apply in_app_or in Hc as [Hc|[Hc|[]]].
                         *** contradiction.
                         *** simpl in Hc. contradiction.
                     +++ rewrite <- Et in Hne.
                         apply (proj1 (listed_skip k rest r rows Hne)). exact Hl.
Qed.

(** A row with an empty topic makes the loop raise IndexError. *)
Lemma catalog_loop_empty (rows : list csv_row) (topics0 : topics_dict) (e : conf_env) :
  Exists (fun r => strip_spaces (csv_topic r) = "") rows ->
  exists e',
    catalog_loop rows topics0 e = (Raise IndexError, e')
    /\ files e' = files e /\ home e' = home e
    /\ errors (conf_log e') = errors (conf_log e).
Proof.
  intros Hex. revert topics0 e.
  induction rows as [|r rows IH]; intros topics0 e; [inversion Hex|].
  cbn [catalog_loop]. unfold bind at 1, catalog_step.
  destruct (strip_spaces (csv_topic r)) as [|c t] eqn:Et.
  - simpl. eexists. repeat split.
  - assert (Hex' : Exists (fun r => strip_spaces (csv_topic r) = "") rows).
    { inversion Hex; subst; [congruence | assumption]. }
    destruct (String.eqb (String c t) "topic");
      [|destruct (Ascii.eqb c "#"); [|destruct (has_topic (String c t) topics0)]];
      unfold bind at 1, conf_logger, modify, ret at 1;
      match goal with
      | |- context [catalog_loop rows ?t1 ?e1] =>
          destruct (IH Hex' t1 e1) as (e' & Hrun & Hf & Hh & Hlog)
      end; exists e'; (split; [exact Hrun|]); (split; [assumption|]);
      (split; [assumption|]); rewrite Hlog; apply errors_quiet; discriminate.
Qed.

(** [verify_params] answers True exactly when the section exists and has
    every required parameter; it logs one error for a missing section, or
    one error per missing parameter in the order of the list, and touches
    nothing else. *)
Theorem verify_params_verdict (ini : ini_file) (section : string)
  (req_params : list string) (e : conf_env) :
  exists verdict e',
    verify_params conf_logger ini section req_params e = (Return verdict, e')
    /\ (verdict = true
        <-> exists log_config,
              ini !! section = Some log_config
              /\ forall p, In p req_params -> is_Some (log_config !! p))
    /\ errors (conf_log e')
       = (errors (conf_log e)
          ++ match ini !! section with
             | None => [LogRecord ERROR "[{}] section not available" (Some section)]
             | Some log_config =>
                 List.map (fun p => LogRecord ERROR "Parameter '{}' not available" (Some p))
                          (missing_params log_config req_params)
             end)%list
    /\ same_files e e'.
Proof.
  destruct (verify_params_conf ini section req_params e) as (e' & Hrun & Hlog & Hk).
  eexists _, e'. split; [exact Hrun|]. split; [|split; assumption].
  destruct (ini !! section) as [cfg|].
  - split.
    + intros H. exists cfg. split; [reflexivity|]. apply missing_params_nil.
      destruct (missing_params cfg req_params); [reflexivity | discriminate].
    + intros (cfg' & [= <-] & H). apply missing_params_nil in H. now rewrite H.
  - split; [discriminate|]. intros (cfg' & H & _). discriminate.
Qed.

Lemma load_iot_config_opens (ini : ini_file) (cfg : gmap string string)
  (filedir file : string) (e : conf_env) :
  ini !! "iot" = Some cfg ->
  cfg !! "file" = Some file ->
  cfg !! "filedir" = Some filedir ->
  is_Some (files e !! catalog_path e filedir file) ->
  exists e1,
    same_files e e1
    /\ errors (conf_log e1) = errors (conf_log e)
    /\ load_iot_config ini e
       = bind (attempt (bind (open_rows (catalog_path e filedir file))
                             (fun rows => catalog_loop rows [])))
              (fun loaded =>
                 match loaded with
                 | inr _ =>
                     bind (conf_logger ERROR "Loading IoT topics failed" None) (fun _ =>
                     bind (conf_logger ERROR "Reason: {}" None) (fun _ => ret []))
                 | inl topics => ret topics
                 end) e1.
Proof.
  intros Hini Hfile Hdir [content Hc].
  destruct (verify_params_conf ini "iot" ["file"; "filedir"] e)
    as (e0 & Hrun & Hlog & Hf0 & Hh0).
  rewrite Hini in Hrun, Hlog.
  assert (Hm : missing_params cfg ["file"; "filedir"] = []).
  { apply missing_params_nil. intros p [<-|[<-|[]]]; eauto. }
  rewrite Hm in Hrun, Hlog. simpl in Hlog. rewrite app_nil_r in Hlog.
  unfold load_iot_config. unfold bind at 1. rewrite Hrun. cbn [negb].
  rewrite Hini. unfold bind at 1, ret at 1. rewrite Hdir.
  unfold bind at 1, ret at 1. unfold bind at 1.
  assert (Hdirv :
    (if String.eqb (strip_spaces filedir) "" then gets home
     else ret (strip_spaces filedir)) e0
    = (Return (if String.eqb (strip_spaces filedir) "" then home e
               else strip_spaces filedir), e0)).
  { destruct (String.eqb (strip_spaces filedir) ""); unfold gets, ret;
      [now rewrite Hh0 | reflexivity]. }
  rewrite Hdirv. clear Hdirv.
  unfold bind at 1, conf_logger at 1, modify at 1.
  rewrite Hfile. unfold bind at 1, ret at 1.
  unfold bind at 1, conf_logger at 1, modify at 1.
  unfold bind at 1, gets at 1. cbn [files].
  fold (catalog_path e filedir file). rewrite Hf0, Hc. cbn [negb].
  eexists. split; [|split]. 3: reflexivity.
  - unfold same_files. cbn. split; auto.
  - cbn [conf_log]. rewrite !errors_quiet by discriminate. exact Hlog.
Qed.

(** When the topic file can be read and no row has an empty topic, the
    catalog has one entry per distinct topic name that is neither the
    header nor a comment, and the entry of a name is the rest of the
    first row that carries it. *)
Theorem catalog_first_occurrence (ini : ini_file) (cfg : gmap string string)
  (filedir file : string) (rows : list csv_row) (e : conf_env) :
  ini !! "iot" = Some cfg ->
  cfg !! "file" = Some file ->
  cfg !! "filedir" = Some filedir ->
  files e !! catalog_path e filedir file = Some (Some rows) ->
  Forall (fun r => strip_spaces (csv_topic r) <> "") rows ->
  exists topics e',
    load_iot_config ini e = (Return topics, e')
    /\ NoDup (List.map fst topics)
    /\ (forall k rest, In (k, rest) topics <-> regular_topic k /\ listed k rest rows)
    /\ errors (conf_log e') = errors (conf_log e).
Proof.
  intros Hini Hfile Hdir Hc Hrows.
  destruct (load_iot_config_opens ini cfg filedir file e Hini Hfile Hdir)
    as (e1 & (Hf1 & Hh1) & Hlog1 & Hrun); [eauto|].
  rewrite Hrun. unfold bind at 1, attempt, bind at 1, open_rows.
  rewrite Hf1, Hc.
  assert (Hnd0 : NoDup (List.map fst ([] : topics_dict))) by constructor.
  destruct (catalog_loop_run rows [] e1 Hrows Hnd0)
    as (topics & e' & Hloop & _ & _ & Hlog & Hnd & Hin).
  rewrite Hloop. exists topics, e'. split; [reflexivity|]. split; [exact Hnd|].
  split; [|congruence].
  intros k rest. rewrite Hin. split.
  - intros [[]|(Hk & _ & Hl)]. auto.
  - intros (Hk & Hl). right. auto.
Qed.

Lemma catalog_first_occurrence_witness :
  exists topics e',
    load_iot_config example_ini (example_env example_rows) = (Return topics, e')
    /\ NoDup (List.map fst topics)
    /\ (forall k rest,
          In (k, rest) topics <-> regular_topic k /\ listed k rest example_rows)
    /\ errors (conf_log e') = errors (conf_log (example_env example_rows)).
Proof.
  apply (catalog_first_occurrence example_ini example_iot " /etc/iot " "topics.csv").
  - vm_compute. reflexivity.
  - vm_compute. reflexivity.
  - vm_compute. reflexivity.
  - vm_compute. reflexivity.
  - repeat constructor; vm_compute; discriminate.
Defined.

(** A row whose topic is empty once stripped makes [topic[0]] raise: the
    whole load fails, the catalog is empty whatever the other rows hold,
    and the failure is logged. *)
Theorem catalog_empty_topic_aborts (ini : ini_file) (cfg : gmap string string)
  (filedir file : string) (rows : list csv_row) (e : conf_env) :
  ini !! "iot" = Some cfg ->
  cfg !! "file" = Some file ->
  cfg !! "filedir" = Some filedir ->
  files e !! catalog_path e filedir file = Some (Some rows) ->
  Exists (fun r => strip_spaces (csv_topic r) = "") rows ->
  exists e',
    load_iot_config ini e = (Return [], e')
    /\ exists other,
         errors (conf_log e')
         = (errors (conf_log e) ++ other
            ++ [LogRecord ERROR "Loading IoT topics failed" None;
                LogRecord ERROR "Reason: {}" None])%list.
Proof.
  intros Hini Hfile Hdir Hc Hrows.
  destruct (load_iot_config_opens ini cfg filedir file e Hini Hfile Hdir)
    as (e1 & (Hf1 & Hh1) & Hlog1 & Hrun); [eauto|].
  rewrite Hrun. unfold bind at 1, attempt, bind at 1, open_rows.
  rewrite Hf1, Hc.
  destruct (catalog_loop_empty rows [] e1 Hrows) as (e2 & Hloop & _ & _ & Hlog2).
  rewrite Hloop. eexists. split; [reflexivity|].
  exists []. cbn [conf_log]. unfold errors in *. rewrite !List.filter_app. simpl.
  rewrite Hlog2, Hlog1. now rewrite <- app_assoc.
Qed.

Lemma catalog_empty_topic_aborts_witness :
  exists e',
    load_iot_config example_ini (example_env blank_topic_rows) = (Return [], e')
    /\ exists other,
         errors (conf_log e')
         = (errors (conf_log (example_env blank_topic_rows)) ++ other
            ++ [LogRecord ERROR "Loading IoT topics failed" None;
                LogRecord ERROR "Reason: {}" None])%list.
Proof.
  apply (catalog_empty_topic_aborts example_ini example_iot " /etc/iot " "topics.csv"
           blank_topic_rows).
  - vm_compute. reflexivity.
  - vm_compute. reflexivity.
  - vm_compute. reflexivity.
  - vm_compute. reflexivity.
  - apply Exists_cons_tl, Exists_cons_hd. vm_compute. reflexivity.
Defined.

End ConfigurationFacts.

(** * Properties of the broker session and the insert loop *)

Module BridgeFacts.
Import Archiver Bridge BridgeSpec ArchiverFacts.

(** ** [on_connect] *)

Lemma subscribe_loop_run (topics : list string) (c : client_state) :
  exists c',
    for_each topics (fun topic =>
      bind (attempt (subscribe topic)) (fun subscribed =>
        match subscribed with
        | inl _ => client_logger INFO "Topic '{}' subscribed" (Some topic)
        | inr _ => client_logger ERROR "Topic '{}' subscription failed" (Some topic)
        end)) c = (Return tt, c')
    /\ subscriptions c'
       = (subscriptions c
          ++ List.map fst (List.filter (fun o => negb (snd o))
                             (subscribe_outcomes topics (subscribe_faults c))))%list
    /\ errors (client_log c')
       = (errors (client_log c)
          ++ List.map (fun o => LogRecord ERROR "Topic '{}' subscription failed"
                                          (Some (fst o)))
               (List.filter snd (subscribe_outcomes topics (subscribe_faults c))))%list
    /\ subscribe_faults c' = skipn (List.length topics) (subscribe_faults c).
Proof.
  revert c. induction topics as [|t ts IH]; intros c.
  - exists c. simpl. rewrite !app_nil_r, drop_0. repeat split.
  - cbn [for_each]. unfold bind at 1. unfold bind at 1, attempt, subscribe.
    destruct (subscribe_faults c) as [|[|] fs] eqn:Ef; cbn [hd tl];
      unfold client_logger, modify; cbn [subscriptions subscribe_faults client_log].
    + match goal with |- context [for_each ts _ ?c1] => destruct (IH c1) as (c' & Hrun & Hs & He & Hf) end.
      cbn [subscriptions subscribe_faults client_log] in *.
      exists c'. split; [exact Hrun|]. split; [|split].
      * rewrite Hs. cbn. now rewrite <- app_assoc.
      * rewrite He. cbn. unfold errors. rewrite List.filter_app. simpl.
        now rewrite app_nil_r.
      * rewrite Hf. cbn. now destruct (List.length ts).
    + match goal with |- context [for_each ts _ ?c1] => destruct (IH c1) as (c' & Hrun & Hs & He & Hf) end.
      cbn [subscriptions subscribe_faults client_log] in *.
      exists c'. split; [exact Hrun|]. split; [|split].
      * rewrite Hs. reflexivity.
      * rewrite He. cbn. unfold errors. rewrite List.filter_app. simpl.
        now rewrite <- app_assoc.
      * rewrite Hf. reflexivity.
    + match goal with |- context [for_each ts _ ?c1] => destruct (IH c1) as (c' & Hrun & Hs & He & Hf) end.
      cbn [subscriptions subscribe_faults client_log] in *.
      exists c'. split; [exact Hrun|]. split; [|split].
      * rewrite Hs. cbn. now rewrite <- app_assoc.
      * rewrite He. cbn. unfold errors. rewrite List.filter_app. simpl.
        now rewrite app_nil_r.
      * rewrite Hf. reflexivity.
Qed.

(** [on_connect] never raises: it subscribes, in order, every topic whose
    [subscribe] call does not fail, and logs one error for each topic
    whose call fails; a failure does not stop the topics after it. *)
Theorem on_connect_subscribes (topics : list string) (c : client_state) :
  exists c',
    on_connect topics c = (Return tt, c')
    /\ subscriptions c'
       = (subscriptions c
          ++ List.map fst (List.filter (fun o => negb (snd o))
                             (subscribe_outcomes topics (subscribe_faults c))))%list
    /\ errors (client_log c')
       = (errors (client_log c)
          ++ List.map (fun o => LogRecord ERROR "Topic '{}' subscription failed"
                                          (Some (fst o)))
               (List.filter snd (subscribe_outcomes topics (subscribe_faults c))))%list.
Proof.
  unfold on_connect. unfold bind at 1, client_logger at 1, modify.
  match goal with |- context [for_each topics _ ?c1] =>
    destruct (subscribe_loop_run topics c1) as (c' & Hrun & Hs & He & _) end.
  cbn [subscriptions subscribe_faults client_log] in *.
  exists c'. split; [exact Hrun|]. split; [exact Hs|].
  rewrite He. unfold errors. rewrite List.filter_app. simpl. now rewrite app_nil_r.
Qed.

(** ** The insert loop *)

Lemma insert_pass_run (c : loop_state) :
  exists c' accepted,
    insert_pass c = (Return tt, c')
    /\ pending c' = rev (tl (rev (pending c)))
    /\ couchdb c' = (couchdb c ++ accepted)%list
    /\ accepted `sublist_of` List.map snd (firstn 1 (rev (pending c))).
Proof.
  unfold insert_pass, bind at 1, attempt at 1, pop_pending, queue_pop.
  destruct (rev (pending c)) as [|[topic data] r] eqn:E.
  - exists c, []. simpl. rewrite app_nil_r.
    assert (Hp : pending c = []).
    { apply (f_equal (@rev _)) in E. now rewrite rev_involutive in E. }
    rewrite Hp. destruct c; simpl in *; subst. repeat split; constructor.
  - cbn [tl firstn List.map snd].
    unfold bind at 1, attempt, couchdb_insert. cbn [insert_faults couchdb pending loop_log].
    destruct (insert_faults c) as [|[|] fs];
      [destruct (existsb (same_id data) (couchdb c))
      | | destruct (existsb (same_id data) (couchdb c))];
      unfold bind, loop_logger, modify; cbn;
      first [ (eexists _, []; rewrite app_nil_r; repeat split; apply sublist_nil_l)
            | (eexists _, [data]; repeat split; apply sublist_skip, sublist_nil_l) ].
Qed.


(** ** More on [on_message] *)

(** A payload that carries a string timestamp keeps it: the clock is not
    consulted, the identifier is built from the timestamp of the payload,
    and the entry goes to the front of the queue. *)
Theorem on_message_keeps_timestamp (now : datetime) (topic ts : string)
  (fields : list (string * json)) (s : mqtt_state) :
  dict_of_object fields !! "timestamp" = Some (JStr ts) ->
  on_message now topic (Some (JObj fields)) s
  = (Return tt,
     {| queue :=
          (topic,
           <["topic" := JStr topic]>
             (<["_id" := JStr (topic +:+ "@" +:+ ts)]> (dict_of_object fields)))
          :: queue s;
        mqtt_log := mqtt_log s ++ [LogRecord DEBUG "InQueue: {}" None] |}).
Proof.
  intros Hts. unfold on_message, bind, lift, ret, modify, mqtt_logger. simpl.
  rewrite Hts. simpl. rewrite Hts. reflexivity.
Qed.

Lemma on_message_keeps_timestamp_witness :
  on_message {| year := 2020; month := 11; day := 29;
                hour := 12; minute := 0; second := 0; microsecond := 0 |}
             "temp/room1"
             (Some (JObj [("timestamp", JStr "2020-11-29T11:59:58");
                          ("value", JNum (41 # 2))]))
             {| queue := []; mqtt_log := [] |}
  = (Return tt,
     {| queue :=
          [("temp/room1",
            <["topic" := JStr "temp/room1"]>
              (<["_id" := JStr ("temp/room1" +:+ "@" +:+ "2020-11-29T11:59:58")]>
                 (dict_of_object [("timestamp", JStr "2020-11-29T11:59:58");
                                  ("value", JNum (41 # 2))])))];
        mqtt_log := [] ++ [LogRecord DEBUG "InQueue: {}" None] |}).
Proof.
  apply (on_message_keeps_timestamp _ "temp/room1" "2020-11-29T11:59:58"
           [("timestamp", JStr "2020-11-29T11:59:58"); ("value", JNum (41 # 2))]
           {| queue := []; mqtt_log := [] |}).
  vm_compute. reflexivity.
Defined.

(** When [on_message] raises, nothing was pushed and nothing was logged:
    the payload did not parse (JSONDecodeError), it parsed to something
    that is not an object (AttributeError), or it is an object whose
    timestamp is not a string (TypeError). *)
Theorem on_message_failure (now : datetime) (topic : string)
  (payload : option json) (s s' : mqtt_state) (e : exn) :
  on_message now topic payload s = (Raise e, s') ->
  s' = s
  /\ match payload with
     | None => e = JSONDecodeError
     | Some (JObj fields) =>
         e = TypeError
         /\ exists v, dict_of_object fields !! "timestamp" = Some v
                      /\ forall ts, v <> JStr ts
     | Some _ => e = AttributeError
     end.
Proof.
  unfold on_message, bind, lift, ret, raise, modify, mqtt_logger, json_loads.
  destruct payload as [[| | | | |fields]|]; simpl;
    try (intros [= <- <-]; split; reflexivity).
  destruct (dict_of_object fields !! "timestamp") as [v|] eqn:Ets; simpl.
  - rewrite Ets.
    destruct v; simpl; intros H; try discriminate H;
      injection H as <- <-; (split; [reflexivity|]); (split; [reflexivity|]);
      eexists; (split; [reflexivity|]); intros ts; discriminate.
  - rewrite lookup_insert_eq. simpl. discriminate.
Qed.

Lemma on_message_failure_witness :
  {| queue := []; mqtt_log := [] |} = {| queue := []; mqtt_log := [] |}
  /\ (TypeError = TypeError
      /\ exists v, dict_of_object [("timestamp", JNum 5)] !! "timestamp" = Some v
                   /\ forall ts, v <> JStr ts).
Proof.
  apply (on_message_failure
           {| year := 2020; month := 11; day := 29;
              hour := 12; minute := 0; second := 0; microsecond := 0 |}
           "temp/room1" (Some (JObj [("timestamp", JNum 5)]))
           {| queue := []; mqtt_log := [] |} {| queue := []; mqtt_log := [] |}
           TypeError).
  vm_compute. reflexivity.
Defined.

(** A payload without a timestamp that arrives when the microsecond
    field of the clock is not 0 is stamped with the time to the second,
    YYYY-MM-DDTHH:MM:SS, and its identifier is the topic, an at sign and
    that stamp. *)
Theorem on_message_stamps_seconds (now : datetime) (topic : string)
  (fields : list (string * json)) (s : mqtt_state) :
  dict_of_object fields !! "timestamp" = None ->
  microsecond now <> 0%N ->
  exists data,
    on_message now topic (Some (JObj fields)) s
    = (Return tt, {| queue := (topic, data) :: queue s;
                     mqtt_log := mqtt_log s ++ [LogRecord DEBUG "InQueue: {}" None] |})
    /\ data !! "timestamp" = Some (JStr (isoformat_seconds now))
    /\ data !! "_id" = Some (JStr (topic +:+ "@" +:+ isoformat_seconds now))
    /\ data !! "topic" = Some (JStr topic)
    /\ forall k, k <> "timestamp" -> k <> "_id" -> k <> "topic" ->
                 data !! k = dict_of_object fields !! k.
Proof.
  intros Hts Hus. eexists. split; [apply on_message_stamps; assumption|].
  split; [|split; [|split]].
  - rewrite !lookup_insert_ne by discriminate. apply lookup_insert_eq.
  - rewrite lookup_insert_ne by discriminate. apply lookup_insert_eq.
  - apply lookup_insert_eq.
  - intros k H1 H2 H3. now rewrite !lookup_insert_ne by congruence.
Qed.

Lemma on_message_stamps_seconds_witness :
  exists data,
    on_message {| year := 2020; month := 11; day := 29;
                  hour := 12; minute := 0; second := 0; microsecond := 250000 |}
               "temp/room1" (Some (JObj [("value", JNum (41 # 2))]))
               {| queue := []; mqtt_log := [] |}
    = (Return tt, {| queue := [("temp/room1", data)];
                     mqtt_log := [] ++ [LogRecord DEBUG "InQueue: {}" None] |})
    /\ data !! "timestamp"
       = Some (JStr (isoformat_seconds
                       {| year := 2020; month := 11; day := 29;
                          hour := 12; minute := 0; second := 0;
                          microsecond := 250000 |}))
    /\ data !! "_id"
       = Some (JStr ("temp/room1" +:+ "@"
                     +:+ isoformat_seconds
                           {| year := 2020; month := 11; day := 29;
                              hour := 12; minute := 0; second := 0;
                              microsecond := 250000 |}))
    /\ data !! "topic" = Some (JStr "temp/room1")
    /\ forall k, k <> "timestamp" -> k <> "_id" -> k <> "topic" ->
                 data !! k = dict_of_object [("value", JNum (41 # 2))] !! k.
Proof.
  apply (on_message_stamps_seconds
           {| year := 2020; month := 11; day := 29;
              hour := 12; minute := 0; second := 0; microsecond := 250000 |}
           "temp/room1" [("value", JNum (41 # 2))] {| queue := []; mqtt_log := [] |}).
  - vm_compute. reflexivity.
  - discriminate.
Defined.

Lemma length_append (a b : string) :
  String.length (a +:+ b) = (String.length a + String.length b)%nat.
Proof.
  induction a as [|x a IH]; [reflexivity|].
  rewrite append_cons. simpl. now rewrite IH.
Qed.

Lemma length_digits (w : nat) (n : N) : String.length (digits w n) = w.
Proof.
  revert n. induction w as [|w IH]; intros n; simpl; [reflexivity|].
  rewrite length_append, IH. simpl. lia.
Qed.

Lemma length_isoformat_seconds (d : datetime) :
  String.length (isoformat_seconds d) = 19%nat.
Proof.
  unfold isoformat_seconds.
  repeat (rewrite length_append || rewrite length_digits). reflexivity.
Qed.

(** A payload without a timestamp that arrives when the microsecond
    field of the clock is 0 is stamped with the first 18 characters of
    the time to the second: the stamp always lacks the last digit of the
    seconds. *)
Theorem whole_second_stamp_truncated (now : datetime) (topic : string)
  (fields : list (string * json)) (s : mqtt_state) :
  dict_of_object fields !! "timestamp" = None ->
  microsecond now = 0%N ->
  exists data s',
    on_message now topic (Some (JObj fields)) s = (Return tt, s')
    /\ queue s' = (topic, data) :: queue s
    /\ data !! "timestamp" = Some (JStr (substring 0 18 (isoformat_seconds now)))
    /\ String.length (substring 0 18 (isoformat_seconds now)) = 18%nat.
Proof.
  intros Hts Hus.
  assert (Hstamp : slice_to (isoformat now) (rfind "." (isoformat now))
                   = substring 0 18 (isoformat_seconds now)).
  { unfold isoformat. rewrite Hus. cbn [N.eqb]. unfold rfind.
    rewrite rfind_from_absent by apply isoformat_seconds_absent_dot.
    unfold slice_to. rewrite length_isoformat_seconds. reflexivity. }
  unfold on_message, bind, lift, ret, modify, mqtt_logger. simpl.
  rewrite Hts, Hstamp. rewrite lookup_insert_eq. simpl.
  eexists _, _. split; [reflexivity|]. split; [reflexivity|]. split.
  - rewrite !lookup_insert_ne by discriminate. apply lookup_insert_eq.
  - assert (H19 := length_isoformat_seconds now).
    generalize dependent (isoformat_seconds now). intros iso _ H19.
    do 19 (destruct iso as [|? iso]; [discriminate|]). reflexivity.
Qed.

Lemma whole_second_stamp_truncated_witness :
  exists data s',
    on_message {| year := 2021; month := 1; day := 2;
                  hour := 3; minute := 4; second := 5; microsecond := 0 |}
               "temp/room1" (Some (JObj [])) {| queue := []; mqtt_log := [] |}
    = (Return tt, s')
    /\ queue s' = [("temp/room1", data)]
    /\ data !! "timestamp"
       = Some (JStr (substring 0 18
                       (isoformat_seconds
                          {| year := 2021; month := 1; day := 2;
                             hour := 3; minute := 4; second := 5;
                             microsecond := 0 |})))
    /\ String.length
         (substring 0 18
            (isoformat_seconds
               {| year := 2021; month := 1; day := 2;
                  hour := 3; minute := 4; second := 5; microsecond := 0 |}))
       = 18%nat.
Proof.
  apply (whole_second_stamp_truncated
           {| year := 2021; month := 1; day := 2;
              hour := 3; minute := 4; second := 5; microsecond := 0 |}
           "temp/room1" [] {| queue := []; mqtt_log := [] |}).
  - vm_compute. reflexivity.
  - reflexivity.
Defined.

End BridgeFacts.

(** * Properties of the clock *)

Module MqttClockFacts.

Import Archiver ArchiverFacts BridgeFacts MqttClock MqttClockSpec.

Lemma digit_not (c : ascii) (n : N) :
  (N_of_ascii c < 48 \/ 57 < N_of_ascii c)%N ->
  Ascii.eqb (ascii_of_N (48 + n mod 10)) c = false.
Proof.
  intros Hc. apply Ascii.eqb_neq. intros <-.
  assert (H : (n mod 10 < 10)%N) by (apply N.mod_lt; discriminate).
  rewrite N_ascii_embedding in Hc by (revert H; generalize (n mod 10)%N; intros; lia).
  revert H Hc. generalize (n mod 10)%N. intros; lia.
Qed.

Lemma digits_absent (c : ascii) (w : nat) (n : N) :
  (N_of_ascii c < 48 \/ 57 < N_of_ascii c)%N ->
  absent c (digits w n) = true.
Proof.
  intros Hc. revert n. induction w as [|w IH]; intros n; simpl.
  - reflexivity.
  - rewrite absent_app, IH. simpl. now rewrite digit_not.
Qed.

Lemma split_absent (sep : ascii) (a : string) :
  absent sep a = true -> split sep a = [a].
Proof.
  induction a as [|x a IH]; simpl; [reflexivity|].
  intros H. apply andb_prop in H as [Hx Ha]. apply negb_true_iff in Hx.
  now rewrite Hx, IH.
Qed.

Lemma split_app (sep : ascii) (a b : string) :
  absent sep a = true ->
  split sep (a +:+ String sep b) = a :: split sep b.
Proof.
  induction a as [|x a IH]; intros H.
  - rewrite append_nil. simpl. now rewrite Ascii.eqb_refl.
  - rewrite append_cons. simpl in *.
    apply andb_prop in H as [Hx Ha]. apply negb_true_iff in Hx.
    now rewrite Hx, IH.
Qed.

Lemma append_assoc (a b c : string) : (a +:+ b) +:+ c = a +:+ (b +:+ c).
Proof.
  induction a as [|x a IH]; [reflexivity|].
  rewrite !append_cons. now rewrite IH.
Qed.

Lemma absent_char (c x : ascii) : x <> c -> absent c (String x "") = true.
Proof.
  intros H. apply Ascii.eqb_neq in H. cbn [absent]. now rewrite H.
Qed.

Lemma date_text_absent (c : ascii) (d : datetime) :
  (N_of_ascii c < 48 \/ 57 < N_of_ascii c)%N -> c <> "-"%char ->
  absent c (date_text d) = true.
Proof.
  intros Hc Hd. unfold date_text.
  rewrite !absent_app, !digits_absent by exact Hc.
  rewrite absent_char by congruence. reflexivity.
Qed.

Lemma time_text_absent (c : ascii) (d : datetime) :
  (N_of_ascii c < 48 \/ 57 < N_of_ascii c)%N -> c <> ":"%char ->
  absent c (time_text d) = true.
Proof.
  intros Hc Hd. unfold time_text.
  rewrite !absent_app, !digits_absent by exact Hc.
  rewrite absent_char by congruence. reflexivity.
Qed.

Lemma split_date (d : datetime) :
  split "-" (date_text d) = [digits 4 (year d); digits 2 (month d); digits 2 (day d)].
Proof.
  unfold date_text.
  change ("-" +:+ digits 2 (month d) +:+ "-" +:+ digits 2 (day d))
    with (String "-" (digits 2 (month d) +:+ String "-" (digits 2 (day d)))).
  rewrite split_app by (apply digits_absent; vm_compute; left; reflexivity).
  rewrite split_app by (apply digits_absent; vm_compute; left; reflexivity).
  rewrite split_absent by (apply digits_absent; vm_compute; left; reflexivity).
  reflexivity.
Qed.

Lemma split_date_time (d : datetime) (t : string) :
  absent " " t = true ->
  split " " (date_text d +:+ " " +:+ t) = [date_text d; t].
Proof.
  intros Ht.
  change (" " +:+ t) with (String " " t).
  rewrite split_app.
  - now rewrite split_absent.
  - apply date_text_absent; [vm_compute; left; reflexivity | discriminate].
Qed.

Lemma formatted (d : datetime) (t : string) :
  slice_to (str_datetime d) (rfind "." (str_datetime d)) = date_text d +:+ " " +:+ t ->
  absent " " t = true ->
  datetime_formatted d
  = Return (italian_date d +:+ String "010" "" +:+ t).
Proof.
  intros Hcut Ht. unfold datetime_formatted. cbv zeta.
  rewrite Hcut, split_date_time by exact Ht. rewrite split_date.
  unfold italian_date. now rewrite !append_assoc.
Qed.

Lemma absent_prefix (c : ascii) (n : nat) (s : string) :
  absent c s = true -> absent c (substring 0 n s) = true.
Proof.
  revert n. induction s as [|x s IH]; intros n H.
  - now destruct n.
  - destruct n as [|n]; [reflexivity|]. simpl in *.
    apply andb_prop in H as [Hx Hs]. now rewrite Hx, IH.
Qed.

Lemma substring_app (a b : string) (n : nat) :
  substring 0 (String.length a + n) (a +:+ b) = a +:+ substring 0 n b.
Proof.
  induction a as [|x a IH].
  - rewrite !append_nil. reflexivity.
  - rewrite !append_cons. simpl. now rewrite IH.
Qed.

Lemma length_date_text (d : datetime) : String.length (date_text d) = 10%nat.
Proof.
  unfold date_text. repeat (rewrite length_append || rewrite length_digits). reflexivity.
Qed.

Lemma length_time_text (d : datetime) : String.length (time_text d) = 8%nat.
Proof.
  unfold time_text. repeat (rewrite length_append || rewrite length_digits). reflexivity.
Qed.

Lemma length_prefix (n : nat) (s : string) :
  (n <= String.length s)%nat -> String.length (substring 0 n s) = n.
Proof.
  revert n. induction s as [|x s IH]; intros n H; simpl in H.
  - destruct n; [reflexivity | lia].
  - destruct n as [|n]; [reflexivity|]. simpl. rewrite IH; lia.
Qed.

(** When the microsecond field of the clock is not 0 the text published
    is the date as DD-MM-YYYY, a line feed and the time HH:MM:SS. *)
Theorem clock_text (now : datetime) :
  microsecond now <> 0%N ->
  datetime_formatted now
  = Return (italian_date now +:+ String "010" "" +:+ time_text now).
Proof.
  intros Hus. apply formatted.
  - unfold str_datetime.
    destruct (N.eqb_spec (microsecond now) 0) as [E|_]; [contradiction|].
    set (head := date_text now +:+ " " +:+ time_text now).
    assert (Habs : absent "." head = true).
    { unfold head. rewrite !absent_app.
      rewrite date_text_absent, time_text_absent;
        first [reflexivity | discriminate | vm_compute; left; reflexivity]. }
    unfold rfind. rewrite rfind_from_app.
    rewrite (rfind_from_absent _ head) by exact Habs.
    change ("." +:+ digits 6 (microsecond now))
      with (String "." (digits 6 (microsecond now))).
    cbn [rfind_from]. rewrite Ascii.eqb_refl.
    rewrite rfind_from_absent by apply digits_absent_dot.
    rewrite Z.add_0_l. apply slice_to_prefix.
  - apply time_text_absent; [vm_compute; left; reflexivity | discriminate].
Qed.

Lemma clock_text_witness :
  datetime_formatted {| year := 2020; month := 11; day := 24;
                        hour := 18; minute := 30; second := 7;
                        microsecond := 123456 |}
  = Return (italian_date {| year := 2020; month := 11; day := 24;
                            hour := 18; minute := 30; second := 7;
                            microsecond := 123456 |}
            +:+ String "010" ""
            +:+ time_text {| year := 2020; month := 11; day := 24;
                             hour := 18; minute := 30; second := 7;
                             microsecond := 123456 |}).
Proof.
  apply (clock_text {| year := 2020; month := 11; day := 24;
                       hour := 18; minute := 30; second := 7;
                       microsecond := 123456 |}).
  discriminate.
Defined.

(** When the microsecond field of the clock is 0, [str] prints no
    fraction, [rfind] answers -1 and the slice drops the last character:
    the text published is the date, a line feed and the first seven
    characters of the time, HH:MM:S.  Nothing is raised. *)
Theorem clock_text_whole_second (now : datetime) :
  microsecond now = 0%N ->
  datetime_formatted now
  = Return (italian_date now +:+ String "010" "" +:+ substring 0 7 (time_text now))
  /\ String.length (substring 0 7 (time_text now)) = 7%nat.
Proof.
  intros Hus. split.
  - apply formatted.
    + unfold str_datetime. rewrite Hus. cbn [N.eqb].
      assert (Habs : absent "." (date_text now +:+ " " +:+ time_text now) = true).
      { rewrite !absent_app.
        rewrite date_text_absent, time_text_absent;
          first [reflexivity | discriminate | vm_compute; left; reflexivity]. }
      unfold rfind. rewrite rfind_from_absent by exact Habs.
      unfold slice_to. rewrite !length_append, length_date_text, length_time_text.
      change (Z.to_nat _) with 18%nat.
      replace 18%nat with (String.length (date_text now) + 8)%nat
        by (rewrite length_date_text; reflexivity).
      rewrite substring_app. reflexivity.
    + apply absent_prefix, time_text_absent; [vm_compute; left; reflexivity | discriminate].
  - apply length_prefix. rewrite length_time_text. lia.
Qed.

Lemma clock_text_whole_second_witness :
  datetime_formatted {| year := 2020; month := 11; day := 24;
                        hour := 18; minute := 30; second := 7;
                        microsecond := 0 |}
  = Return (italian_date {| year := 2020; month := 11; day := 24;
                            hour := 18; minute := 30; second := 7;
                            microsecond := 0 |}
            +:+ String "010" ""
            +:+ substring 0 7
                  (time_text {| year := 2020; month := 11; day := 24;
                                hour := 18; minute := 30; second := 7;
                                microsecond := 0 |}))
  /\ String.length
       (substring 0 7
          (time_text {| year := 2020; month := 11; day := 24;
                        hour := 18; minute := 30; second := 7;
                        microsecond := 0 |})) = 7%nat.
Proof.
  apply (clock_text_whole_second
           {| year := 2020; month := 11; day := 24;
              hour := 18; minute := 30; second := 7; microsecond := 0 |}).
  reflexivity.
Defined.

End MqttClockFacts.

(** * Properties of the connection of the databases *)

Module ConnectionFacts.
Import Configuration ConfigurationSpec ConfigurationFacts Connection ConnectionSpec.

Lemma verify_params_conn (ini : ini_file) (section : string)
  (req_params : list string) (c : conn_state) :
  exists c',
    verify_params conn_logger ini section req_params c
    = (Return match ini !! section with
              | None => false
              | Some log_config =>
                  match missing_params log_config req_params with
                  | [] => true | _ => false end
              end, c')
    /\ errors (conn_log c')
       = (errors (conn_log c)
          ++ match ini !! section with
             | None => [LogRecord ERROR "[{}] section not available" (Some section)]
             | Some log_config =>
                 List.map (fun p => LogRecord ERROR "Parameter '{}' not available" (Some p))
                          (missing_params log_config req_params)
             end)%list
    /\ connect_faults c' = connect_faults c.
Proof.
  apply (verify_params_run conn_logger conn_log
           (fun c c' => connect_faults c' = connect_faults c)).
  - reflexivity.
  - intros c1 c2 c3 H1 H2. congruence.
  - intros l f a c0. eexists. repeat split.
Qed.

(** [connect_db] when the section passes the verification. *)
Lemma connect_db_verified (ini : ini_file) (cfg : gmap string string)
  (db_name : string) (c : conn_state) :
  ini !! "couchdb" = Some cfg ->
  (forall p, In p verified_params -> is_Some (cfg !! p)) ->
  exists c',
    connect_db ini db_name c
    = (match cfg !! db_name with
       | None => Raise KeyError
       | Some _ =>
           Return (if hd false (connect_faults c) then None
                   else option_map (fun u => {| couchdb_url := u |})
                                   (url_of cfg db_name))
       end, c')
    /\ connect_faults c'
       = match cfg !! db_name with
         | None => connect_faults c
         | Some _ => tl (connect_faults c)
         end.
Proof.
  intros Hini Hall.
  destruct (verify_params_conn ini "couchdb" verified_params c)
    as (c0 & Hrun & _ & Hf0).
  rewrite Hini in Hrun.
  rewrite (proj2 (missing_params_nil cfg verified_params) Hall) in Hrun.
  destruct (Hall "user") as [user Hu]; [simpl; tauto|].
  destruct (Hall "password") as [passwd Hp]; [simpl; tauto|].
  destruct (Hall "server") as [server Hs]; [simpl; tauto|].
  destruct (Hall "port") as [port Hpo]; [simpl; tauto|].
  unfold connect_db. fold verified_params. unfold bind at 1. rewrite Hrun. cbn [negb].
  rewrite Hini. unfold bind at 1, ret at 1.
  unfold param. rewrite Hu, Hp, Hs, Hpo.
  do 4 (unfold bind at 1, ret at 1).
  unfold url_of. rewrite Hu, Hp, Hs, Hpo. cbn [mbind option_bind].
  destruct (cfg !! db_name) as [dbname|] eqn:Edb.
  - unfold bind at 1, ret at 1. unfold bind at 1, attempt, bind at 1, open_couchdb.
    rewrite Hf0.
    destruct (connect_faults c) as [|[|] fs]; cbn [hd tl];
      unfold bind, conn_logger, modify, ret; cbn;
      eexists; split; reflexivity.
  - unfold bind at 1, raise. exists c0. split; [reflexivity | exact Hf0].
Qed.

(** [connect_db] when the verification fails: None, and no connection is
    tried. *)
Lemma connect_db_unverified (ini : ini_file) (db_name : string) (c : conn_state) :
  (forall cfg, ini !! "couchdb" = Some cfg ->
               exists p, In p verified_params /\ cfg !! p = None) ->
  exists c',
    connect_db ini db_name c = (Return None, c')
    /\ connect_faults c' = connect_faults c.
Proof.
  intros Hbad.
  destruct (verify_params_conn ini "couchdb" verified_params c)
    as (c0 & Hrun & _ & Hf0).
  assert (Hv : match ini !! "couchdb" with
               | None => false
               | Some log_config =>
                   match missing_params log_config verified_params with
                   | [] => true | _ => false end
               end = false).
  { destruct (ini !! "couchdb") as [cfg|] eqn:E; [|reflexivity].
    destruct (Hbad cfg eq_refl) as (p & Hp & Hnone).
    destruct (missing_params cfg verified_params) eqn:Em; [|reflexivity].
    apply missing_params_nil with (p := p) in Em; [|exact Hp].
    destruct Em as [x Hx]. congruence. }
  rewrite Hv in Hrun.
  unfold connect_db. fold verified_params. unfold bind at 1. rewrite Hrun.
  exists c0. split; [reflexivity | exact Hf0].
Qed.



(** A section [couchdb] that lacks one of the verified parameters, be it
    [readfom_dbname] or [writeto_dbname] which are never read, makes
    [couchdb_client] answer None without trying any connection. *)
Theorem couchdb_client_refuses (ini : ini_file) (c : conn_state) :
  (forall cfg, ini !! "couchdb" = Some cfg ->
               exists p, In p verified_params /\ cfg !! p = None) ->
  exists c',
    couchdb_client ini c = (Return None, c')
    /\ connect_faults c' = connect_faults c
    /\ List.last (errors (conn_log c')) (LogRecord DEBUG "" None)
       = LogRecord ERROR "Incomplete connection to databases" None.
Proof.
  intros Hbad.
  destruct (connect_db_unverified ini "realtime_dbname" c Hbad) as (c1 & H1 & F1).
  destruct (connect_db_unverified ini "datastore_dbname" c1 Hbad) as (c2 & H2 & F2).
  destruct (connect_db_unverified ini "devices_dbname" c2 Hbad) as (c3 & H3 & F3).
  unfold couchdb_client, bind. rewrite H1, H2, H3.
  unfold conn_logger, modify, ret. eexists. split; [reflexivity|].
  split; [cbn; congruence|]. cbn [conn_log].
  unfold errors. rewrite List.filter_app. simpl. apply last_last.
Qed.

Lemma couchdb_client_refuses_witness :
  exists c',
    couchdb_client {[ "couchdb" := unverified_couchdb ]}
                   {| connect_faults := []; conn_log := [] |}
    = (Return None, c')
    /\ connect_faults c' = []
    /\ List.last (errors (conn_log c')) (LogRecord DEBUG "" None)
       = LogRecord ERROR "Incomplete connection to databases" None.
Proof.
  apply (couchdb_client_refuses {[ "couchdb" := unverified_couchdb ]}
           {| connect_faults := []; conn_log := [] |}).
  intros cfg Hcfg. vm_compute in Hcfg. injection Hcfg as <-.
  exists "readfom_dbname". split; [simpl; tauto | vm_compute; reflexivity].
Defined.



End ConnectionFacts.

(** * Properties of the runs of the historicizer *)

Module HistoricizerFacts.
Import DsArchiver DsArchiverSpec DsArchiverFacts Historicizer HistoricizerSpec.

Local Open Scope Q_scope.

(** ** What only reads *)

Lemma calm_refl (s : state) : calm s s.
Proof. split; [apply same_stores_refl | auto]. Qed.

Lemma calm_trans (s1 s2 s3 : state) : calm s1 s2 -> calm s2 s3 -> calm s1 s3.
Proof.
  intros [A B] [C D]. split; [eapply same_stores_trans; eauto | auto].
Qed.

Lemma calm_add_log (r : log_record) (s : state) : calm s (add_log r s).
Proof. split; [apply same_stores_add_log | auto]. Qed.

Lemma reads_only_ret {A} (a : A) : reads_only (ret a).
Proof. intros s. apply calm_refl. Qed.

Lemma reads_only_raise {A} (e : exn) : reads_only (@raise state A e).
Proof. intros s. apply calm_refl. Qed.

Lemma reads_only_lift {A} (r : result A) : reads_only (lift r).
Proof. intros s. apply calm_refl. Qed.

Lemma reads_only_gets {A} (f : state -> A) : reads_only (gets f).
Proof. intros s. apply calm_refl. Qed.

Lemma reads_only_logger (l : level) (f : string) (a : option string) :
  reads_only (logger l f a).
Proof. intros s. apply calm_add_log. Qed.

Lemma reads_only_add_log (r : log_record) : reads_only (modify (add_log r)).
Proof. intros s. apply calm_add_log. Qed.

Lemma reads_only_bind {A B} (m : M state A) (k : A -> M state B) :
  reads_only m -> (forall a, reads_only (k a)) -> reads_only (bind m k).
Proof.
  intros Hm Hk s. unfold bind. specialize (Hm s).
  destruct (m s) as [[a|e] s1]; simpl in Hm.
  - eapply calm_trans; [exact Hm | apply Hk].
  - exact Hm.
Qed.

Lemma reads_only_attempt {A} (m : M state A) :
  reads_only m -> reads_only (attempt m).
Proof.
  intros Hm s. unfold attempt. specialize (Hm s).
  destruct (m s) as [[a|e] s1]; exact Hm.
Qed.

Lemma reads_only_for_each {A} (l : list A) (body : A -> M state unit) :
  (forall a, reads_only (body a)) -> reads_only (for_each l body).
Proof.
  intros Hb. induction l as [|a l IH]; simpl.
  - apply reads_only_ret.
  - apply reads_only_bind; auto.
Qed.

(** A request whose operation only reads. *)
Lemma reads_only_request {A} (op : M state A) :
  reads_only op -> reads_only (request op).
Proof.
  intros Hop s. unfold request. destruct (faults s) as [|[|] fs] eqn:E.
  - apply Hop.
  - split; [repeat split | intros H; congruence].
  - split.
    + eapply same_stores_trans; [apply (same_stores_set_faults fs s) | apply Hop].
    + intros H; congruence.
Qed.

Lemma reads_only_ddoc_view (p : view_params) : reads_only (ddoc_view p).
Proof. apply reads_only_request. intros s. apply calm_refl. Qed.

Lemma reads_only_devices_get (name : string) : reads_only (devices_get name).
Proof.
  apply reads_only_request. intros s.
  destruct (db_devices s !! name); apply calm_refl.
Qed.

Create HintDb reads.

#[local] Hint Resolve reads_only_ret reads_only_raise reads_only_lift
  reads_only_gets reads_only_logger reads_only_add_log reads_only_ddoc_view
  reads_only_devices_get reads_only_attempt reads_only_for_each : reads.

Ltac reads :=
  repeat first
    [ progress cbv beta zeta
    | solve [auto with reads]
    | apply reads_only_bind; [|intros ?]
    | match goal with
      | |- reads_only (match ?x with _ => _ end) => destruct x
      | |- reads_only (if ?b then _ else _) => destruct b
      | |- reads_only (let '(_, _) := ?p in _) => destruct p
      end ].

Lemma reads_only_get_device (name : string) : reads_only (get_device name).
Proof. unfold get_device. reads. Qed.

Lemma reads_only_get_first_doc (topic : string) : reads_only (get_first_doc topic).
Proof. unfold get_first_doc. reads. Qed.

Lemma reads_only_get_measures_slot (topic : string) (timespan : Z) :
  reads_only (get_measures_slot topic timespan).
Proof.
  unfold get_measures_slot. pose proof reads_only_get_first_doc. reads.
Qed.

Lemma reads_only_series_step (dt : row) (v : series_vars) :
  reads_only (series_step dt v).
Proof. unfold series_step. pose proof reads_only_get_device. reads. Qed.

Lemma reads_only_series_loop (data : list row) (v : series_vars) :
  reads_only (series_loop data v).
Proof.
  revert v. induction data as [|dt data IH]; intros v; simpl.
  - apply reads_only_ret.
  - apply reads_only_bind; [apply reads_only_series_step | auto].
Qed.

Lemma reads_only_accuracy_call (dev : option device_doc) (mtype : option string)
  (value : Q) : reads_only (accuracy_call dev mtype value).
Proof. unfold accuracy_call. reads. Qed.

Lemma reads_only_uvalues_loop (v : series_vars) (l : list (Q * string))
  (uvalues : list AffineScalarFunc) :
  reads_only (uvalues_loop v l uvalues).
Proof.
  revert uvalues. induction l as [|vd l IH]; intros uvalues; simpl.
  - apply reads_only_ret.
  - apply reads_only_bind; [|auto].
    unfold uvalue_step. destruct vd.
    pose proof reads_only_accuracy_call. reads.
Qed.

Lemma reads_only_process_series (topic : string) (data : list row) :
  reads_only (process_series topic data).
Proof.
  unfold process_series.
  pose proof reads_only_series_loop. pose proof reads_only_uvalues_loop.
  reads.
Qed.

(** Whatever the rows and whatever the failures of the device lookups,
    whether it answers a record or raises, [process_series] leaves the
    three databases and the clock as they are.  On the empty list it
    raises ValueError before anything is logged. *)
Theorem process_series_reads_only (topic : string) (data : list row) (s : state) :
  same_stores s (snd (process_series topic data s))
  /\ process_series topic [] s = (Raise ValueError, s).
Proof.
  split; [apply reads_only_process_series | reflexivity].
Qed.

(** ** Lookups *)

(** [get_device] never raises.  It answers the document of the device
    store when the request goes through and the device is known;
    otherwise it answers None and logs two errors, the first naming the
    device.  The databases are left as they are. *)
Theorem get_device_outcome (name : string) (s : state) :
  exists s',
    get_device name s
    = (Return (if hd false (faults s) then None else db_devices s !! name), s')
    /\ same_stores s s'
    /\ errors (log s')
       = (errors (log s)
          ++ if hd false (faults s) then
               [LogRecord ERROR "Device GET '{}'" (Some name);
                LogRecord ERROR "Reason: '{}'" None]
             else match db_devices s !! name with
                  | Some _ => []
                  | None => [LogRecord ERROR "Device GET '{}'" (Some name);
                             LogRecord ERROR "Reason: '{}'" None]
                  end)%list.
Proof.
  unfold get_device, bind, attempt, devices_get, request, logger, modify, ret.
  destruct (faults s) as [|[|] fs]; cbn [hd];
    try destruct (db_devices s !! name) eqn:E; cbn; rewrite ?E;
    eexists; (split; [reflexivity|]); (split; [repeat split|]);
    unfold errors; simpl; rewrite ?List.filter_app; simpl; rewrite ?app_nil_r;
    try reflexivity; now rewrite <- app_assoc.
Qed.



(** ** [archive_series] leaves the databases alone when it answers False *)

Lemma answers_true_ret : answers_true (ret true).
Proof. intros s b s' [= <- _]. reflexivity. Qed.

Lemma answers_true_bind {A} (m : M state A) (k : A -> M state bool) :
  (forall a, answers_true (k a)) -> answers_true (bind m k).
Proof.
  intros Hk s b s'. unfold bind. destruct (m s) as [[a|e] s1]; [apply Hk | discriminate].
Qed.

(** [archive_series] answers False only on the path that moves nothing:
    whenever the answer is False, no sample was deleted and no record
    was inserted. *)
Theorem archive_series_false_untouched (topic : string) (timespan : Z)
  (s s' : state) :
  archive_series topic timespan s = (Return false, s') ->
  same_stores s s'.
Proof.
  unfold archive_series. unfold bind at 1.
  pose proof (reads_only_get_measures_slot topic timespan s) as [Hst _].
  destruct (get_measures_slot topic timespan s) as [[[rows|]|e] s1];
    simpl in Hst; try discriminate.
  - intros H. exfalso.
    assert (Ht : answers_true
                   (bind (process_series topic rows) (fun calc_meas =>
                    bind (logger INFO "Moving {} timeslot {}" None) (fun _ =>
                    bind (attempt (datastore_insert calc_meas)) (fun inserted =>
                    bind match inserted with
                         | inl _ => ret tt
                         | inr _ =>
                             bind (logger ERROR "Failed inserting measure: '{}'" None)
                                  (fun _ => logger ERROR "Reason: {}" None)
                         end (fun _ =>
                    bind (logger DEBUG "Inserted measure: '{}'" None) (fun _ =>
                    bind (for_each rows delete_row) (fun _ => ret true)))))))).
    { repeat (apply answers_true_bind; intros ?). apply answers_true_ret. }
    apply Ht in H. discriminate.
  - unfold bind, logger, modify, ret. intros [= <-].
    eapply same_stores_trans; [exact Hst | apply same_stores_add_log].
Qed.

Lemma archive_series_false_untouched_witness :
  same_stores (room1_state three_samples [] 1100)
              (snd (archive_series "temp/room1" 3 (room1_state three_samples [] 1100))).
Proof.
  apply (archive_series_false_untouched "temp/room1" 3).
  vm_compute. reflexivity.
Defined.

(** ** The window *)

Lemma get_measures_slot_ready (topic : string) (timespan : Z) (s : state)
  (start : datetime) :
  hd false (faults s) = false ->
  hd false (tl (faults s)) = false ->
  earliest topic (db_realtime s) start ->
  (start + timedelta_minutes timespan < clock s)%Z ->
  exists s1,
    get_measures_slot topic timespan s
    = (Return (Some (select_rows
                       (window_params topic start (start + timedelta_minutes timespan)%Z)
                       (db_realtime s))), s1)
    /\ same_stores s s1
    /\ faults s1 = tl (tl (faults s)).
Proof.
  intros Hf Hf2 He Hlt.
  destruct (get_first_doc_earliest topic s start Hf He) as (s0 & Hfd & Hst & Hfs).
  pose proof Hst as (Hrt & _ & _ & Hclock).
  unfold get_measures_slot, bind. rewrite Hfd. unfold ret, gets. rewrite Hclock.
  replace (start + timedelta_minutes timespan >=? clock s)%Z with false
    by (symmetry; rewrite Z.geb_leb; apply Z.leb_gt; lia).
  unfold attempt, ddoc_view, request, logger, modify. rewrite <- Hfs in Hf2 |- *.
  unfold window_params.
  destruct (faults s0) as [|[|] fs] eqn:Ef; try discriminate;
    cbn [rows set_faults db_realtime]; rewrite Hrt;
    eexists; (split; [reflexivity|]);
    (split; [eapply same_stores_trans; [exact Hst|]; repeat split
            | cbn; rewrite ?Ef; reflexivity]).
Qed.

Lemma strongly_sorted_filter {A} (R : A -> A -> Prop) (f : A -> bool) (l : list A) :
  StronglySorted R l -> StronglySorted R (List.filter f l).
Proof.
  induction 1 as [|a l Hs IH Ha]; simpl; [constructor|].
  destruct (f a); [|exact IH]. constructor; [exact IH|].
  rewrite List.Forall_forall in *. intros x Hx. apply filter_In in Hx as [Hx _]. auto.
Qed.

Lemma strongly_sorted_weaken {A} (R R' : A -> A -> Prop) (l : list A) :
  (forall a b, In a l -> In b l -> R a b -> R' a b) ->
  StronglySorted R l -> StronglySorted R' l.
Proof.
  intros H Hs. induction Hs as [|a l Hs IH Ha]; constructor.
  - apply IH. intros x y Hx Hy. apply H; now right.
  - rewrite List.Forall_forall in *. intros x Hx.
    apply H; [now left | now right | auto].
Qed.

Lemma row_le_same_topic (a b : row) :
  fst (row_key a) = fst (row_key b) -> row_le a b ->
  (snd (row_key a) <= snd (row_key b))%Z.
Proof.
  intros Ht. unfold row_le, row_leb, collate, key_of_row. cbn [fst snd].
  rewrite Ht, compare_refl.
  destruct (Z.compare_spec (snd (row_key a)) (snd (row_key b)));
    try lia; discriminate.
Qed.



(** ** The delete loop and the whole migration *)

Lemma filter_filter {A} (f g : A -> bool) (l : list A) :
  List.filter f (List.filter g l) = List.filter (fun x => g x && f x) l.
Proof.
  induction l as [|a l IH]; simpl; [reflexivity|].
  destruct (g a); simpl; [destruct (f a)|]; now rewrite IH.
Qed.

Lemma nodup_cons_in {A} (a : A) (l : list A) :
  NoDup (a :: l) <-> ~ In a l /\ NoDup l.
Proof. rewrite NoDup_cons, list_elem_of_In. reflexivity. Qed.

Lemma nodup_map_inj {A B} (f : A -> B) (l : list A) (a b : A) :
  NoDup (List.map f l) -> In a l -> In b l -> f a = f b -> a = b.
Proof.
  induction l as [|x l IH]; simpl; intros Hnd Ha Hb Hab; [destruct Ha|].
  apply nodup_cons_in in Hnd as [Hx Hnd].
  destruct Ha as [<-|Ha], Hb as [<-|Hb]; auto.
  - exfalso. apply Hx. rewrite Hab. now apply in_map.
  - exfalso. apply Hx. rewrite <- Hab. now apply in_map.
Qed.

Lemma nodup_map_filter {A B} (f : A -> B) (p : A -> bool) (l : list A) :
  NoDup (List.map f l) -> NoDup (List.map f (List.filter p l)).
Proof.
  induction l as [|x l IH]; simpl; intros Hnd; [constructor|].
  apply nodup_cons_in in Hnd as [Hx Hnd].
  destruct (p x); simpl; [|auto]. apply nodup_cons_in. split; [|auto].
  intros Hin. apply Hx. apply in_map_iff in Hin as (y & <- & Hy).
  apply filter_In in Hy as [Hy _]. now apply in_map.
Qed.

Lemma nodup_insert_row (r : row) (l : list row) :
  ~ In (row_id r) (List.map row_id l) ->
  NoDup (List.map row_id l) -> NoDup (List.map row_id (insert_row r l)).
Proof.
  induction l as [|x l IH]; simpl; intros Hr Hnd.
  - apply nodup_cons_in. split; [exact Hr | constructor].
  - destruct (row_leb r x); simpl.
    + apply nodup_cons_in. split; assumption.
    + apply nodup_cons_in in Hnd as [Hx Hnd]. apply nodup_cons_in. split.
      * intros Hin. apply in_map_iff in Hin as (y & Hy & Hin).
        apply in_insert_row in Hin as [->|Hin].
        -- apply Hr. now left.
        -- apply Hx. rewrite <- Hy. now apply in_map.
      * apply IH; [|exact Hnd]. intros Hin. apply Hr. now right.
Qed.

Lemma nodup_index_rows (docs : list sample) :
  NoDup (List.map doc_id docs) -> NoDup (List.map row_id (index_rows docs)).
Proof.
  induction docs as [|d docs IH]; simpl; intros Hnd; [constructor|].
  apply nodup_cons_in in Hnd as [Hd Hnd].
  apply nodup_insert_row; [|auto].
  intros Hin. apply Hd. apply in_map_iff in Hin as (r & Hr & Hin).
  apply in_index_rows in Hin as (d' & Hd' & ->). simpl in Hr. rewrite <- Hr.
  now apply in_map.
Qed.

(** One deletion when no request fails. *)
Lemma delete_row_run (r : row) (s : state) :
  faults s = [] ->
  (exists d, In d (db_realtime s) /\ doc_id d = row_id r) ->
  delete_row r s
  = (Return tt,
     set_realtime (List.filter (fun d => negb (String.eqb (doc_id d) (row_id r)))) s).
Proof.
  intros Hf (d & Hd & Hid).
  unfold delete_row, bind, realtime_get, request. rewrite Hf.
  destruct (List.find (fun d0 => String.eqb (doc_id d0) (row_id r)) (db_realtime s))
    as [d'|] eqn:Efind.
  2:{ exfalso. apply (find_none _ _ Efind) in Hd. rewrite Hid, String.eqb_refl in Hd.
      discriminate. }
  apply find_some in Efind as [Hd' Hid']. apply String.eqb_eq in Hid'.
  unfold realtime_remove, request. rewrite Hf.
  assert (Hex : existsb (fun d0 => String.eqb (doc_id d0) (doc_id d')
                                   && String.eqb (doc_rev d0) (doc_rev d'))
                        (db_realtime s) = true).
  { apply existsb_exists. exists d'. split; [exact Hd'|].
    now rewrite !String.eqb_refl. }
  rewrite Hex, Hid'. reflexivity.
Qed.

(** The delete loop when no request fails: every row whose document is in
    the database is deleted, nothing else is. *)
Lemma delete_rows_run (rows : list row) (s : state) :
  faults s = [] ->
  NoDup (List.map row_id rows) ->
  (forall r, In r rows -> exists d, In d (db_realtime s) /\ doc_id d = row_id r) ->
  exists s',
    for_each rows delete_row s = (Return tt, s')
    /\ db_realtime s'
       = List.filter (fun d => negb (existsb (String.eqb (doc_id d))
                                            (List.map row_id rows)))
                     (db_realtime s)
    /\ db_datastore s' = db_datastore s
    /\ db_devices s' = db_devices s
    /\ faults s' = []
    /\ clock s' = clock s
    /\ log s' = log s.
Proof.
  revert s. induction rows as [|r rows IH]; intros s Hf Hnd Hin.
  - exists s. simpl. split; [reflexivity|]. split; [|now repeat split].
    induction (db_realtime s) as [|d l IHl]; simpl; [reflexivity | now rewrite <- IHl].
  - cbn [List.map] in Hnd. apply nodup_cons_in in Hnd as [Hr Hnd].
    cbn [for_each]. unfold bind at 1.
    rewrite (delete_row_run r s Hf (Hin r (or_introl eq_refl))).
    match goal with |- context [for_each rows delete_row ?s1] =>
      destruct (IH s1) as (s' & Hrun & Hrt & Hds & Hdv & Hfs & Hck & Hlog) end.
    + exact Hf.
    + exact Hnd.
    + intros r' Hr'. destruct (Hin r' (or_intror Hr')) as (d1 & Hd1 & Hid1).
      exists d1. split; [|exact Hid1]. cbn. apply filter_In. split; [exact Hd1|].
      apply negb_true_iff, String.eqb_neq. rewrite Hid1. intros Heq.
      apply Hr. rewrite <- Heq. now apply in_map.
    + exists s'. split; [exact Hrun|]. split; [|now repeat split].
      rewrite Hrt. cbn [db_realtime set_realtime]. rewrite filter_filter.
      apply filter_ext. intros x. cbn [List.map existsb].
      now rewrite negb_orb.
Qed.

(** ** The log is never read *)

Lemma agree_refl (s : state) : agree s s.
Proof. repeat split. Qed.

Lemma agree_add_log (r r' : log_record) (s t : state) :
  agree s t -> agree (add_log r s) (add_log r' t).
Proof. intros H. exact H. Qed.

Lemma agree_same_stores (s s' : state) :
  same_stores s s' -> faults s' = faults s -> agree s' s.
Proof. intros (A & B & C & D) E. repeat split; assumption. Qed.

Lemma log_blind_ret {A} (a : A) : log_blind (ret a).
Proof. intros s t H. split; [reflexivity | exact H]. Qed.

Lemma log_blind_raise {A} (e : exn) : log_blind (@raise state A e).
Proof. intros s t H. split; [reflexivity | exact H]. Qed.

Lemma log_blind_lift {A} (r : result A) : log_blind (lift r).
Proof. intros s t H. unfold lift. destruct r; (split; [reflexivity | exact H]). Qed.

Lemma log_blind_clock : log_blind (gets clock).
Proof. intros s t H. split; [|exact H]. unfold gets. simpl. f_equal. apply H. Qed.

Lemma log_blind_logger (l : level) (f : string) (a : option string) :
  log_blind (logger l f a).
Proof. intros s t H. split; [reflexivity | exact H]. Qed.

Lemma log_blind_add_log (r : log_record) : log_blind (modify (add_log r)).
Proof. intros s t H. split; [reflexivity | exact H]. Qed.

Lemma log_blind_bind {A B} (m : M state A) (k : A -> M state B) :
  log_blind m -> (forall a, log_blind (k a)) -> log_blind (bind m k).
Proof.
  intros Hm Hk s t Hst. unfold bind. destruct (Hm s t Hst) as [Hf Ha].
  destruct (m s) as [[a|e] s1], (m t) as [[a'|e'] t1]; simpl in Hf, Ha;
    try discriminate; injection Hf as <-.
  - apply Hk, Ha.
  - split; [reflexivity | exact Ha].
Qed.

Lemma log_blind_attempt {A} (m : M state A) :
  log_blind m -> log_blind (attempt m).
Proof.
  intros Hm s t Hst. unfold attempt. destruct (Hm s t Hst) as [Hf Ha].
  destruct (m s) as [[a|e] s1], (m t) as [[a'|e'] t1]; simpl in Hf, Ha;
    try discriminate; injection Hf as <-; (split; [reflexivity | exact Ha]).
Qed.

Lemma log_blind_for_each {A} (l : list A) (body : A -> M state unit) :
  (forall a, log_blind (body a)) -> log_blind (for_each l body).
Proof.
  intros Hb. induction l as [|a l IH]; simpl.
  - apply log_blind_ret.
  - apply log_blind_bind; auto.
Qed.

Lemma log_blind_request {A} (op : M state A) :
  log_blind op -> log_blind (request op).
Proof.
  intros Hop s t Hst. unfold request.
  pose proof Hst as (Hrt & Hds & Hdv & Hf & Hck). rewrite Hf.
  destruct (faults t) as [|[|] fs].
  - apply Hop, Hst.
  - split; [reflexivity | repeat split; assumption].
  - apply Hop. repeat split; assumption.
Qed.

Lemma log_blind_ddoc_view (p : view_params) : log_blind (ddoc_view p).
Proof.
  apply log_blind_request. intros s t Hst. pose proof Hst as (-> & _).
  split; [reflexivity | exact Hst].
Qed.

Lemma log_blind_devices_get (name : string) : log_blind (devices_get name).
Proof.
  apply log_blind_request. intros s t Hst. pose proof Hst as (_ & _ & -> & _).
  destruct (db_devices t !! name); (split; [reflexivity | exact Hst]).
Qed.

Lemma log_blind_realtime_get (id : string) : log_blind (realtime_get id).
Proof.
  apply log_blind_request. intros s t Hst. pose proof Hst as (-> & _).
  destruct (List.find _ (db_realtime t)); (split; [reflexivity | exact Hst]).
Qed.

Lemma log_blind_realtime_remove (id rev : string) :
  log_blind (realtime_remove id rev).
Proof.
  apply log_blind_request. intros s t Hst.
  pose proof Hst as (Hrt & Hds & Hdv & Hf & Hck). rewrite Hrt.
  destruct (existsb _ (db_realtime t)); (split; [reflexivity|]); [|exact Hst].
  repeat split; simpl; congruence.
Qed.

Lemma log_blind_datastore_insert (m : measure) : log_blind (datastore_insert m).
Proof.
  apply log_blind_request. intros s t Hst.
  pose proof Hst as (Hrt & Hds & Hdv & Hf & Hck). rewrite Hds.
  destruct (existsb _ (db_datastore t)); (split; [reflexivity|]); [exact Hst|].
  repeat split; simpl; congruence.
Qed.

Create HintDb blind.

#[local] Hint Resolve log_blind_ret log_blind_raise log_blind_lift
  log_blind_clock log_blind_logger log_blind_add_log log_blind_ddoc_view
  log_blind_devices_get log_blind_realtime_get log_blind_realtime_remove
  log_blind_datastore_insert log_blind_attempt log_blind_for_each : blind.

Ltac blind :=
  repeat first
    [ progress cbv beta zeta
    | solve [auto with blind]
    | apply log_blind_bind; [|intros ?]
    | match goal with
      | |- log_blind (match ?x with _ => _ end) => destruct x
      | |- log_blind (if ?b then _ else _) => destruct b
      | |- log_blind (let '(_, _) := ?p in _) => destruct p
      end ].

Lemma log_blind_get_device (name : string) : log_blind (get_device name).
Proof. unfold get_device. blind. Qed.

Lemma log_blind_get_first_doc (topic : string) : log_blind (get_first_doc topic).
Proof. unfold get_first_doc. blind. Qed.

Lemma log_blind_get_measures_slot (topic : string) (timespan : Z) :
  log_blind (get_measures_slot topic timespan).
Proof.
  unfold get_measures_slot. pose proof log_blind_get_first_doc. blind.
Qed.

Lemma log_blind_series_step (dt : row) (v : series_vars) :
  log_blind (series_step dt v).
Proof. unfold series_step. pose proof log_blind_get_device. blind. Qed.

Lemma log_blind_series_loop (data : list row) (v : series_vars) :
  log_blind (series_loop data v).
Proof.
  revert v. induction data as [|dt data IH]; intros v; simpl.
  - apply log_blind_ret.
  - apply log_blind_bind; [apply log_blind_series_step | auto].
Qed.

Lemma log_blind_accuracy_call (dev : option device_doc) (mtype : option string)
  (value : Q) : log_blind (accuracy_call dev mtype value).
Proof. unfold accuracy_call. blind. Qed.

Lemma log_blind_uvalues_loop (v : series_vars) (l : list (Q * string))
  (uvalues : list AffineScalarFunc) :
  log_blind (uvalues_loop v l uvalues).
Proof.
  revert uvalues. induction l as [|vd l IH]; intros uvalues; simpl.
  - apply log_blind_ret.
  - apply log_blind_bind; [|auto].
    unfold uvalue_step. destruct vd.
    pose proof log_blind_accuracy_call. blind.
Qed.

Lemma log_blind_process_series (topic : string) (data : list row) :
  log_blind (process_series topic data).
Proof.
  unfold process_series.
  pose proof log_blind_series_loop. pose proof log_blind_uvalues_loop.
  blind.
Qed.

Lemma log_blind_delete_row (r : row) : log_blind (delete_row r).
Proof. unfold delete_row. blind. Qed.

Lemma log_blind_archive_series (topic : string) (timespan : Z) :
  log_blind (archive_series topic timespan).
Proof.
  unfold archive_series.
  pose proof log_blind_get_measures_slot. pose proof log_blind_process_series.
  pose proof log_blind_delete_row.
  blind.
Qed.

(** The log is written and never read: two runs of [archive_series] from
    states that differ only in their logs give the same answer (or raise
    the same exception), and leave the same databases, the same fault
    script and the same clock. *)
Theorem archive_series_ignores_log (topic : string) (timespan : Z) (s t : state) :
  agree s t ->
  fst (archive_series topic timespan s) = fst (archive_series topic timespan t)
  /\ agree (snd (archive_series topic timespan s))
           (snd (archive_series topic timespan t)).
Proof. apply log_blind_archive_series. Qed.

(** ** A whole migration *)

Lemma length_filter_insert_row (f : row -> bool) (r : row) (l : list row) :
  List.length (List.filter f (insert_row r l))
  = List.length (List.filter f (r :: l)).
Proof.
  induction l as [|x l IH]; [reflexivity|].
  cbn [insert_row]. destruct (row_leb r x); [reflexivity|].
  cbn [List.filter] in *. destruct (f x), (f r); cbn [List.length] in *; lia.
Qed.

Lemma length_filter_index_rows (f : row -> bool) (docs : list sample) :
  List.length (List.filter f (index_rows docs))
  = List.length (List.filter (fun d => f (row_of d)) docs).
Proof.
  induction docs as [|d docs IH]; [reflexivity|].
  cbn [index_rows fold_right]. rewrite length_filter_insert_row.
  cbn [List.filter]. fold (index_rows docs).
  destruct (f (row_of d)); cbn [List.length]; now rewrite IH.
Qed.

Lemma in_window_true (topic : string) (start stop : datetime) (d : sample) :
  in_window topic start stop d = true
  <-> doc_topic d = topic /\ (start <= doc_timestamp d <= stop)%Z.
Proof.
  unfold in_window. rewrite !andb_true_iff, String.eqb_eq, !Z.leb_le. tauto.
Qed.

Lemma in_window_key_range (topic : string) (start stop : datetime) (d : sample) :
  in_key_range (window_params topic start stop) (row_of d)
  = in_window topic start stop d.
Proof.
  apply Bool.eq_iff_eq_true. unfold window_params.
  rewrite in_window_range, in_window_true. reflexivity.
Qed.

Lemma window_deleted (topic : string) (start stop : datetime) (docs : list sample) :
  NoDup (List.map doc_id docs) ->
  List.filter
    (fun d => negb (existsb (String.eqb (doc_id d))
                      (List.map row_id
                         (select_rows (window_params topic start stop) docs))))
    docs
  = List.filter (fun d => negb (in_window topic start stop d)) docs.
Proof.
  intros Hnd. apply filter_ext_in. intros d Hd. f_equal.
  apply Bool.eq_iff_eq_true. rewrite existsb_exists, in_window_true. split.
  - intros (i & Hi & Heq). apply String.eqb_eq in Heq.
    apply in_map_iff in Hi as (r & <- & Hr).
    apply (select_window topic start stop docs) in Hr as (d' & Hd' & -> & Hw).
    cbn [row_of row_id] in Heq.
    now rewrite (nodup_map_inj doc_id docs d d' Hnd Hd Hd' Heq).
  - intros Hw. exists (doc_id d). split; [|apply String.eqb_refl].
    apply in_map_iff. exists (row_of d). split; [reflexivity|].
    apply (select_window topic start stop docs). exists d. tauto.
Qed.



Lemma archive_series_ignores_log_witness :
  fst (archive_series "temp/room1" 3 (room1_state three_samples [] 1181))
  = fst (archive_series "temp/room1" 3
           (add_log (LogRecord INFO "started" None)
                    (room1_state three_samples [] 1181)))
  /\ agree (snd (archive_series "temp/room1" 3 (room1_state three_samples [] 1181)))
           (snd (archive_series "temp/room1" 3
                   (add_log (LogRecord INFO "started" None)
                            (room1_state three_samples [] 1181)))).
Proof.
  apply (archive_series_ignores_log "temp/room1" 3).
  repeat split; reflexivity.
Defined.

(** ** The record *)

Lemma Qlen_cons {A} (x : A) (l : list A) : Qlen (x :: l) == Qlen l + 1.
Proof.
  unfold Qlen. cbn [List.length]. rewrite Nat2Z.inj_succ, <- Z.add_1_r, inject_Z_plus.
  reflexivity.
Qed.

Lemma Qlen_pos {A} (l : list A) : l <> [] -> 0 < Qlen l.
Proof.
  intros H. destruct l; [contradiction|]. unfold Qlen, Qlt. simpl. lia.
Qed.

Lemma Qsum_lower (lo : Q) (l : list Q) :
  Forall (fun x => lo <= x) l -> lo * Qlen l <= Qsum l.
Proof.
  induction 1 as [|x l Hx Hl IH].
  - unfold Qsum, Qlen. simpl. rewrite Qmult_0_r. apply Qle_refl.
  - rewrite Qsum_cons, Qlen_cons.
    assert (E : lo * (Qlen l + 1) == lo + lo * Qlen l) by ring. rewrite E.
    now apply Qplus_le_compat.
Qed.

Lemma Qsum_upper (hi : Q) (l : list Q) :
  Forall (fun x => x <= hi) l -> Qsum l <= hi * Qlen l.
Proof.
  induction 1 as [|x l Hx Hl IH].
  - unfold Qsum, Qlen. simpl. rewrite Qmult_0_r. apply Qle_refl.
  - rewrite Qsum_cons, Qlen_cons.
    assert (E : hi * (Qlen l + 1) == hi + hi * Qlen l) by ring. rewrite E.
    now apply Qplus_le_compat.
Qed.



Lemma fold_min_spec (l : list Z) (x : Z) :
  In (fold_left Z.min l x) (x :: l)
  /\ Forall (fun y => (fold_left Z.min l x <= y)%Z) (x :: l).
Proof.
  revert x. induction l as [|a l IH]; intros x; cbn [fold_left].
  - split; [now left | constructor; [lia | constructor]].
  - destruct (IH (Z.min x a)) as [Hin Hall].
    inversion Hall as [|? ? Hm Hl]; subst. split.
    + destruct Hin as [Hin|Hin]; [|now right; right].
      rewrite <- Hin. destruct (Z.min_spec x a) as [[_ ->]|[_ ->]]; [now left | now right; left].
    + constructor; [lia|]. constructor; [lia | exact Hl].
Qed.

Lemma fold_max_spec (l : list Z) (x : Z) :
  In (fold_left Z.max l x) (x :: l)
  /\ Forall (fun y => (y <= fold_left Z.max l x)%Z) (x :: l).
Proof.
  revert x. induction l as [|a l IH]; intros x; cbn [fold_left].
  - split; [now left | constructor; [lia | constructor]].
  - destruct (IH (Z.max x a)) as [Hin Hall].
    inversion Hall as [|? ? Hm Hl]; subst. split.
    + destruct Hin as [Hin|Hin]; [|now right; right].
      rewrite <- Hin. destruct (Z.max_spec x a) as [[_ ->]|[_ ->]]; [now right; left | now left].
    + constructor; [lia|]. constructor; [lia | exact Hl].
Qed.

Lemma py_min_spec (l : list datetime) (x : datetime) :
  py_min l = Return x -> In x l /\ Forall (fun y => (x <= y)%Z) l.
Proof.
  destruct l as [|a l]; [discriminate|]. intros [= <-]. apply fold_min_spec.
Qed.

Lemma py_max_spec (l : list datetime) (x : datetime) :
  py_max l = Return x -> In x l /\ Forall (fun y => (y <= x)%Z) l.
Proof.
  destruct l as [|a l]; [discriminate|]. intros [= <-]. apply fold_max_spec.
Qed.

Lemma half_timedelta_bounds (d : Z) :
  (0 <= d)%Z -> (0 <= half_timedelta d <= d)%Z.
Proof.
  intros Hd. unfold half_timedelta.
  destruct (Z.eqb_spec (d mod 2) 0); [|destruct (Z.even (d / 2))];
    Z.to_euclidean_division_equations; lia.
Qed.

Lemma truncate_seconds_bounds (t : datetime) :
  (truncate_seconds t <= t)%Z /\ (truncate_seconds t mod 1000000 = 0)%Z.
Proof.
  unfold truncate_seconds. split; [|apply Z.mod_mul; lia].
  Z.to_euclidean_division_equations; lia.
Qed.

Lemma truncate_seconds_mono (t u : datetime) :
  (t <= u)%Z -> (truncate_seconds t <= truncate_seconds u)%Z.
Proof.
  intros H. unfold truncate_seconds.
  apply Z.mul_le_mono_nonneg_r; [lia|]. apply Z.div_le_mono; lia.
Qed.

(** The time slot of the record: its start and its end are timestamps of
    rows, every row lies between them, and the timestamp of the record
    is a whole second, not later than the end of the slot and not
    earlier than the second in which the slot starts.  The identifier is
    made of the topic and this timestamp. *)
Theorem record_time_slot (topic : string) (data : list row) (s : state) :
  (2 <= List.length data)%nat ->
  devices_nonneg s = true ->
  exists m s',
    process_series topic data s = (Return m, s')
    /\ In (slot_start (m_time_slot m)) (List.map row_timestamp data)
    /\ In (slot_end (m_time_slot m)) (List.map row_timestamp data)
    /\ Forall (fun dt => (slot_start (m_time_slot m) <= row_timestamp dt
                          <= slot_end (m_time_slot m))%Z) data
    /\ (truncate_seconds (slot_start (m_time_slot m)) <= m_timestamp m
        <= slot_end (m_time_slot m))%Z
    /\ (m_timestamp m mod 1000000 = 0)%Z
    /\ m_id m = (topic, m_timestamp m).
Proof.
  intros Hlen Hnn.
  destruct (process_series_run topic data s Hlen Hnn)
    as (v & s1 & ft & lt & s' & _ & _ & Hmin & Hmax & Hrun & _).
  apply py_min_spec in Hmin as [Hmin_in Hmin]. apply py_max_spec in Hmax as [Hmax_in Hmax].
  eexists _, s'. split; [exact Hrun|].
  cbn [measure_of m_time_slot slot_start slot_end m_timestamp m_id].
  split; [exact Hmin_in|]. split; [exact Hmax_in|].
  rewrite List.Forall_forall in Hmin, Hmax.
  assert (Hle : (ft <= lt)%Z) by (apply Hmin, Hmax_in).
  pose proof (half_timedelta_bounds (lt - ft) ltac:(lia)) as Hh.
  split; [|split; [|split; [|reflexivity]]].
  - apply List.Forall_forall. intros dt Hdt.
    split; [apply Hmin | apply Hmax]; now apply in_map.
  - split; [apply truncate_seconds_mono; lia|].
    etransitivity; [apply truncate_seconds_bounds | lia].
  - apply truncate_seconds_bounds.
Qed.

Lemma record_time_slot_witness :
  exists m s',
    process_series "temp/room1" (List.map row_of three_samples)
                   (room1_state three_samples [] 1181) = (Return m, s')
    /\ In (slot_start (m_time_slot m)) (List.map row_timestamp (List.map row_of three_samples))
    /\ In (slot_end (m_time_slot m)) (List.map row_timestamp (List.map row_of three_samples))
    /\ Forall (fun dt => (slot_start (m_time_slot m) <= row_timestamp dt
                          <= slot_end (m_time_slot m))%Z)
              (List.map row_of three_samples)
    /\ (truncate_seconds (slot_start (m_time_slot m)) <= m_timestamp m
        <= slot_end (m_time_slot m))%Z
    /\ (m_timestamp m mod 1000000 = 0)%Z
    /\ m_id m = ("temp/room1", m_timestamp m).
Proof.
  apply (record_time_slot "temp/room1" (List.map row_of three_samples)
           (room1_state three_samples [] 1181)).
  - simpl. lia.
  - vm_compute. reflexivity.
Defined.

(** ** Devices the store does not know *)

Lemma Qsum_zero {A} (l : list A) : Qsum (List.map (fun _ => 0 * 0) l) == 0.
Proof.
  rewrite (Qsum_scaled (fun _ => 0 * 0) (fun _ => 0) 0 l); [ring | intros; ring].
Qed.



(** ** The device cache *)

Lemma get_device_request (name : string) (s : state) :
  exists d s', get_device name s = (Return d, s') /\ faults s' = tl (faults s).
Proof.
  unfold get_device, bind, attempt, devices_get, request, logger, modify, ret.
  destruct (faults s) as [|[|] fs] eqn:E; simpl;
    try destruct (db_devices s !! name); simpl; rewrite ?E; eauto.
Qed.

Lemma series_step_requests (dt : row) (v : series_vars) (s : state) :
  exists v' s',
    series_step dt v s = (Return v', s')
    /\ match devices v !! doc_dev (row_doc dt) with
       | Some _ => devices v' = devices v /\ faults s' = faults s
       | None => (exists d, devices v' = <[doc_dev (row_doc dt) := d]> (devices v))
                 /\ faults s' = tl (faults s)
       end.
Proof.
  unfold series_step. cbv zeta.
  destruct (devices v !! doc_dev (row_doc dt)) as [d|] eqn:E.
  - unfold bind at 1, ret at 1.
    destruct (min_value v) as [lo|]; [destruct (Qlt_bool (row_value dt) lo)|];
      (destruct (max_value v) as [hi|]; [destruct (Qlt_bool hi (row_value dt))|]);
      unfold ret; eexists _, _; (split; [reflexivity|]); split; reflexivity.
  - destruct (get_device_request (doc_dev (row_doc dt)) s) as (d & s1 & Hget & Hf).
    unfold bind at 1. unfold bind at 1. rewrite Hget. unfold ret at 1.
    destruct (min_value v) as [lo|]; [destruct (Qlt_bool (row_value dt) lo)|];
      (destruct (max_value v) as [hi|]; [destruct (Qlt_bool hi (row_value dt))|]);
      unfold ret; eexists _, _; (split; [reflexivity|]);
      (split; [exists d; reflexivity | exact Hf]).
Qed.

Lemma series_loop_requests (data : list row) (v : series_vars) (s : state) :
  exists v' s',
    series_loop data v s = (Return v', s')
    /\ dom (devices v') = dom (devices v) ∪ device_names data
    /\ List.length (faults s')
       = (List.length (faults s)
          - (size (dom (devices v')) - size (dom (devices v))))%nat.
Proof.
  revert v s. induction data as [|dt data IH]; intros v s.
  - exists v, s. split; [reflexivity|]. split.
    + unfold device_names. cbn [List.map list_to_set]. now rewrite union_empty_r_L.
    + lia.
  - destruct (series_step_requests dt v s) as (v1 & s1 & Hstep & Hcase).
    destruct (IH v1 s1) as (v' & s' & Hloop & Hdom & Hlen).
    exists v', s'. cbn [series_loop]. unfold bind. rewrite Hstep.
    split; [exact Hloop|].
    assert (Hnames : device_names (dt :: data)
                     = {[ doc_dev (row_doc dt) ]} ∪ device_names data) by reflexivity.
    assert (Hsub : (size (dom (devices v1)) <= size (dom (devices v')))%nat).
    { apply subseteq_size. rewrite Hdom. apply union_subseteq_l. }
    destruct (devices v !! doc_dev (row_doc dt)) as [d|] eqn:E.
    + destruct Hcase as [Hd Hf]. rewrite Hd in Hdom, Hlen, Hsub. rewrite Hf in Hlen.
      split; [|exact Hlen].
      rewrite Hdom, Hnames.
      assert (Hin : doc_dev (row_doc dt) ∈ dom (devices v)) by (apply elem_of_dom; eauto).
      rewrite (assoc_L (∪)). f_equal. rewrite (comm_L (∪)).
      symmetry. apply subseteq_union_1_L, singleton_subseteq_l, Hin.
    + destruct Hcase as [(d & Hd) Hf].
      assert (Hnot : doc_dev (row_doc dt) ∉ dom (devices v)) by now apply not_elem_of_dom.
      assert (Hdom1 : dom (devices v1) = {[ doc_dev (row_doc dt) ]} ∪ dom (devices v)).
      { rewrite Hd. apply dom_insert_L. }
      assert (Hsz : size (dom (devices v1)) = S (size (dom (devices v)))).
      { rewrite Hdom1, size_union by (apply disjoint_singleton_l, Hnot).
        now rewrite size_singleton. }
      split.
      * rewrite Hdom, Hdom1, Hnames.
        rewrite (comm_L (∪) {[ doc_dev (row_doc dt) ]}). now rewrite (assoc_L (∪)).
      * rewrite Hlen, Hf. destruct (faults s); cbn [tl List.length]; lia.
Qed.

(** The first loop of [process_series] asks the device store once for
    each device the rows name, however many rows name it: at its end the
    cache holds exactly these devices, and one scripted outcome has been
    used for each of them. *)
Theorem one_request_per_device (data : list row) (s : state) :
  exists v s',
    series_loop data series_init s = (Return v, s')
    /\ dom (devices v) = device_names data
    /\ List.length (faults s')
       = (List.length (faults s) - size (device_names data))%nat.
Proof.
  destruct (series_loop_requests data series_init s) as (v & s' & Hloop & Hdom & Hlen).
  exists v, s'. split; [exact Hloop|].
  assert (Hd : dom (devices v) = device_names data).
  { rewrite Hdom. cbn [series_init devices]. now rewrite dom_empty_L, union_empty_l_L. }
  split; [exact Hd|].
  rewrite Hlen, Hd. cbn [series_init devices]. rewrite dom_empty_L, size_empty. lia.
Qed.

(** ** Progress of the main loop *)

Lemma process_series_two_rows (topic : string) (data : list row) (s s' : state)
  (m : measure) :
  process_series topic data s = (Return m, s') -> (2 <= List.length data)%nat.
Proof.
  destruct data as [|dt [|dt' data]]; intros H.
  - discriminate H.
  - destruct (process_series_single topic dt s) as (s0 & Hs & _). congruence.
  - simpl. lia.
Qed.

Lemma existsb_filter_shorter {A} (f g : A -> bool) (l : list A) :
  (forall x, f x = true -> g x = true) ->
  existsb f l = true ->
  (List.length (List.filter (fun x => negb (g x)) l) < List.length l)%nat.
Proof.
  intros Hfg. induction l as [|a l IH]; simpl; [discriminate|].
  pose proof (filter_length_le (fun x => negb (g x)) l) as Hle.
  destruct (f a) eqn:Ea; simpl.
  - intros _. rewrite (Hfg a Ea). simpl. lia.
  - intros H. specialize (IH H). destruct (g a); simpl; lia.
Qed.

Lemma request_returns {A} (op : M state A) (s s' : state) (a : A) :
  request op s = (Return a, s') ->
  exists s0, db_realtime s0 = db_realtime s /\ op s0 = (Return a, s').
Proof.
  unfold request. destruct (faults s) as [|[|] fs]; intros H.
  - exists s. auto.
  - discriminate.
  - exists (set_faults fs s). auto.
Qed.

Lemma delete_row_shrinks (r : row) (s s' : state) :
  delete_row r s = (Return tt, s') ->
  (List.length (db_realtime s') < List.length (db_realtime s))%nat.
Proof.
  unfold delete_row, bind.
  destruct (realtime_get (row_id r) s) as [[d|e] s1] eqn:Eget; [|discriminate].
  apply request_returns in Eget as (s0 & Hrt0 & Hget).
  destruct (List.find _ (db_realtime s0)); [|discriminate]. injection Hget as _ <-.
  intros Hrm. apply request_returns in Hrm as (sr & Hrt2 & Hrm).
  destruct (existsb _ (db_realtime sr)) eqn:Ex; [|discriminate].
  injection Hrm as <-. cbn [db_realtime set_realtime].
  rewrite <- Hrt0, <- Hrt2.
  eapply existsb_filter_shorter; [|exact Ex].
  intros x Hx. now apply andb_prop in Hx as [Hx _].
Qed.

Lemma delete_rows_shrink (rows : list row) (s s' : state) :
  for_each rows delete_row s = (Return tt, s') ->
  (List.length (db_realtime s') + List.length rows <= List.length (db_realtime s))%nat.
Proof.
  revert s. induction rows as [|r rows IH]; intros s.
  - intros [= <-]. simpl. lia.
  - cbn [for_each]. unfold bind at 1.
    destruct (delete_row r s) as [[[]|e] s1] eqn:Ed; [|discriminate].
    intros H. apply IH in H. apply delete_row_shrinks in Ed. simpl. lia.
Qed.

Lemma insert_stage_realtime (m : measure) (s : state) :
  exists s',
    bind (attempt (datastore_insert m)) (fun inserted =>
      match inserted with
      | inl _ => ret tt
      | inr _ =>
          bind (logger ERROR "Failed inserting measure: '{}'" None)
               (fun _ => logger ERROR "Reason: {}" None)
      end) s = (Return tt, s')
    /\ db_realtime s' = db_realtime s.
Proof.
  unfold bind, attempt, datastore_insert, request, logger, modify, ret.
  destruct (faults s) as [|[|] fs]; cbn;
    try destruct (existsb _ (db_datastore s)); cbn; eauto.
Qed.

Lemma archive_series_shrinks (topic : string) (timespan : Z) (s s' : state) :
  archive_series topic timespan s = (Return true, s') ->
  (List.length (db_realtime s') + 2 <= List.length (db_realtime s))%nat.
Proof.
  unfold archive_series. unfold bind at 1.
  pose proof (reads_only_get_measures_slot topic timespan s) as [(Hrt1 & _) _].
  destruct (get_measures_slot topic timespan s) as [[[rows|]|e] s1];
    simpl in Hrt1; try discriminate.
  unfold bind at 1.
  pose proof (reads_only_process_series topic rows s1) as [(Hrt2 & _) _].
  destruct (process_series topic rows s1) as [[m|e] s2] eqn:Eps;
    simpl in Hrt2; try discriminate.
  apply process_series_two_rows in Eps.
  unfold bind at 1, logger at 1, modify at 1.
  match goal with |- context [attempt (datastore_insert m)] =>
    destruct (insert_stage_realtime m (add_log (LogRecord INFO "Moving {} timeslot {}" None) s2))
      as (s3 & Hins & Hrt3) end.
  cbn [db_realtime add_log] in Hrt3.
  change (bind (attempt (datastore_insert m)) ?k ?st) with
    (bind (attempt (datastore_insert m)) k st).
  unfold bind at 1 in Hins.
  unfold bind at 1.
  destruct (attempt (datastore_insert m)
              (add_log (LogRecord INFO "Moving {} timeslot {}" None) s2))
    as [[inserted|e] s2'] eqn:Eatt; [|discriminate Hins].
  unfold bind at 1. rewrite Hins.
  unfold bind at 1, logger at 1, modify at 1. unfold bind at 1.
  destruct (for_each rows delete_row _) as [[[]|e] s4] eqn:Edel; [|discriminate].
  apply delete_rows_shrink in Edel. cbn [db_realtime add_log] in Edel.
  unfold ret. intros [= <-]. rewrite Hrt3, Hrt2, Hrt1 in Edel. lia.
Qed.

(** Whenever [archive_series] answers True, with or without failures on
    the way, the realtime database has lost at least two samples. *)
Theorem archive_series_progress (topic : string) (timespan : Z) (s s' : state) :
  archive_series topic timespan s = (Return true, s') ->
  (List.length (db_realtime s') + 2 <= List.length (db_realtime s))%nat.
Proof. intros H. apply (archive_series_shrinks topic timespan s s' H). Qed.

Lemma archive_series_progress_witness :
  (List.length
     (db_realtime (snd (archive_series "temp/room1" 3
                          (room1_state three_samples [] 1181)))) + 2
   <= List.length (db_realtime (room1_state three_samples [] 1181)))%nat.
Proof.
  apply (archive_series_progress "temp/room1" 3).
  vm_compute. reflexivity.
Defined.

(** The loop of [main] for a topic ends: given more passes than half the
    number of samples in the realtime database, it never uses them up.
    It stops because [archive_series] answers False or because an
    exception leaves it. *)
Theorem archive_topic_ends (passes : nat) (topic : string) (s : state) :
  (List.length (db_realtime s) < 2 * passes)%nat ->
  fst (archive_topic passes topic s) <> Return false.
Proof.
  revert s. induction passes as [|n IH]; intros s Hlen; [lia|].
  cbn [archive_topic]. unfold bind.
  destruct (archive_series topic 10 s) as [[[|]|e] s1] eqn:Ea; simpl.
  - apply IH. apply archive_series_shrinks in Ea. lia.
  - discriminate.
  - discriminate.
Qed.

Lemma archive_topic_ends_witness :
  fst (archive_topic 2 "temp/room1" (room1_state three_samples [] 1801))
  <> Return false.
Proof.
  apply (archive_topic_ends 2 "temp/room1" (room1_state three_samples [] 1801)).
  simpl. lia.
Defined.

End HistoricizerFacts.
